(** * Verification of the Playwright automation driver and its bridge

    The development embeds two source files:
    - [src/mcp-server.js]: the tool catalog, the request router
      ([callTool]) and the script generator (module [Driver]);
    - [src/ai-integration.js]: the request/response correlation of
      [sendMCPRequest] (module [Bridge]), the start of the child (module
      [Startup]), and the methods of the class at the level of their
      [await]s (module [Orchestrator]).

    JavaScript values are modelled by the inductive [value]; the browser
    (Playwright) and the built-ins whose coercions fall outside the integer
    fragment are fields of the record [Env], so that every theorem holds for
    any browser behaviour. *)

From Stdlib Require Import ZArith DecimalString.
From stdpp Require Import base list strings gmap.

Set Warnings "-register-all".

(** ** JavaScript values *)

Module JS.

(** JSON-shaped values. Numbers are the integers; strings are byte strings;
    an object is its list of own properties. *)
Inductive value : Type :=
  | VUndef
  | VNull
  | VBool (b : bool)
  | VNum (z : Z)
  | VStr (s : string)
  | VArr (items : list value)
  | VObj (fields : list (string * value)).

Definition dq : string := String (Ascii.ascii_of_nat 34) EmptyString.
Definition nl : string := String (Ascii.ascii_of_nat 10) EmptyString.

Definition string_of_Z (z : Z) : string := NilZero.string_of_int (Z.to_int z).

(** [sep]-separated concatenation, as [Array.prototype.join] does once its
    elements are strings. *)
Fixpoint join_strings (sep : string) (l : list string) : string :=
  match l with
  | [] => ""
  | [x] => x
  | x :: l' => x +:+ sep +:+ join_strings sep l'
  end.

(** ToString, the conversion a template literal applies to [${v}], on the
    values it is a table for: [undefined], [null], booleans, strings,
    integers below 10^21 in magnitude, and the arrays and records that hold
    no record with a property of its own named [toString]. On a record
    with such a property the conversion of JavaScript throws a TypeError,
    and from 10^21 on a number is printed with an exponent; neither is
    followed here. *)
Fixpoint to_string (v : value) : string :=
  match v with
  | VUndef => "undefined"
  | VNull => "null"
  | VBool true => "true"
  | VBool false => "false"
  | VNum z => string_of_Z z
  | VStr s => s
  | VArr items =>
      join_strings ","
        (map (fun x => match x with
                       | VUndef | VNull => ""
                       | _ => to_string x
                       end) items)
  | VObj _ => "[object Object]"
  end.

(** The string an array element contributes to [join]. *)
Definition item_string (x : value) : string :=
  match x with
  | VUndef | VNull => ""
  | _ => to_string x
  end.

(** [arr.join(sep)] *)
Definition join (sep : string) (arr : list value) : string :=
  join_strings sep (map item_string arr).

(** ToBoolean *)
Definition truthy (v : value) : bool :=
  match v with
  | VUndef | VNull => false
  | VBool b => b
  | VNum z => negb (z =? 0)%Z
  | VStr s => negb (String.eqb s "")
  | VArr _ | VObj _ => true
  end.

(** [a || b] *)
Definition or_else (a b : value) : value := if truthy a then a else b.

(** [a ?? b] *)
Definition nullish_or (a b : value) : value :=
  match a with
  | VUndef | VNull => b
  | _ => a
  end.

(** A parameter default [x = d] replaces [undefined] only. *)
Definition default_arg (x d : value) : value :=
  match x with
  | VUndef => d
  | _ => x
  end.

Fixpoint lookup_field (k : string) (fields : list (string * value)) : value :=
  match fields with
  | [] => VUndef
  | (k', v) :: rest => if String.eqb k k' then v else lookup_field k rest
  end.

(** [v.k] for a [v] that is not [undefined] or [null], own properties only. *)
Definition field (k : string) (v : value) : value :=
  match v with
  | VObj fields => lookup_field k fields
  | _ => VUndef
  end.

(** [s.startsWith(p)] and [s.includes(needle)] on strings. *)
Fixpoint starts_with (p s : string) : bool :=
  match p, s with
  | EmptyString, _ => true
  | String a p', String b s' => if Ascii.eqb a b then starts_with p' s' else false
  | String _ _, EmptyString => false
  end.

Fixpoint includes (s needle : string) : bool :=
  if starts_with needle s then true
  else match s with
       | EmptyString => false
       | String _ s' => includes s' needle
       end.

(** [inner] occurs inside [outer]. *)
Definition contains (outer inner : string) : Prop :=
  exists pre post, outer = pre +:+ inner +:+ post.

(** *** Completions: a JavaScript computation returns or throws an [Error]
    with a message, and may change the state [S] on both paths. *)

Inductive outcome (A : Type) : Type :=
  | Ret (a : A)
  | Throw (message : string).
Arguments Ret {A} a.
Arguments Throw {A} message.

Definition M (S A : Type) : Type := S -> outcome A * S.

Definition ret {S A} (a : A) : M S A := fun s => (Ret a, s).

Definition throw {S A} (message : string) : M S A := fun s => (Throw message, s).

Definition bind {S A B} (c : M S A) (k : A -> M S B) : M S B :=
  fun s => match c s with
           | (Ret a, s') => k a s'
           | (Throw m, s') => (Throw m, s')
           end.

(** [try { c } catch (error) { h error.message }] *)
Definition try_catch {S A} (c : M S A) (h : string -> M S A) : M S A :=
  fun s => match c s with
           | (Ret a, s') => (Ret a, s')
           | (Throw m, s') => h m s'
           end.

Notation "x <- c ;; k" := (bind c (fun x => k))
  (at level 100, c at next level, right associativity).
Notation "c ;;; k" := (bind c (fun _ => k))
  (at level 100, right associativity).

(** Property read [v.k]; reading a property of [undefined] or [null] throws
    a TypeError (message as V8 words it). Of the inherited properties only
    [length] of arrays and strings is modelled. *)
Definition get_prop {S} (v : value) (k : string) : M S value :=
  match v with
  | VUndef =>
      throw ("Cannot read properties of undefined (reading '" +:+ k +:+ "')")
  | VNull =>
      throw ("Cannot read properties of null (reading '" +:+ k +:+ "')")
  | VObj fields => ret (lookup_field k fields)
  | VArr items =>
      ret (if String.eqb k "length" then VNum (Z.of_nat (length items)) else VUndef)
  | VStr s =>
      ret (if String.eqb k "length" then VNum (Z.of_nat (String.length s)) else VUndef)
  | VBool _ | VNum _ => ret VUndef
  end.

(** Optional chaining [v?.k] *)
Definition get_prop_opt {S} (v : value) (k : string) : M S value :=
  match v with
  | VUndef | VNull => ret VUndef
  | _ => get_prop v k
  end.

End JS.

Import JS.

(** ** The driver: [PlaywrightMCPServer] of [src/mcp-server.js]

    The file holds two versions of the class. The one embedded here is the
    first, the one with [github_search] and [inspect_page] that the
    orchestrator's prompt relies on; in it [launchBrowser] returns early when
    a browser is already running. The second version relaunches
    unconditionally and has no candidate loop. *)

Module Driver.

(** Options of [page.waitForSelector]. *)
Record wait_options := {
  timeout : value;
  state : option string;
}.

(** The two callbacks handed to [page.$$eval]: the one of [clickElement]
    and the one of [fillInput]. *)
Inductive projection := ClickableFields | InputFields.

Set Implicit Arguments.

(** What the driver calls and does not define: the Playwright library acting
    on a browser world [World], and the built-ins whose result depends on a
    coercion outside the integers. [page_evalAll] is [page.$$eval] with one
    of the two callbacks, [page_evaluate_inspect] is [page.evaluate] with the
    callback of [inspectPage]; both callbacks run inside the browser. *)
Record Env (World BrowserH PageH : Type) := {
  chromium_launch : value -> M World BrowserH;
  browser_newPage : BrowserH -> M World PageH;
  browser_close : BrowserH -> M World unit;
  page_goto : PageH -> value -> M World unit;
  page_url : PageH -> World -> string;
  page_title : PageH -> M World string;
  page_content : PageH -> M World string;
  page_waitForSelector : PageH -> value -> wait_options -> M World unit;
  page_waitForTimeout : PageH -> Z -> M World unit;
  page_fill : PageH -> value -> value -> M World unit;
  page_inputValue : PageH -> value -> M World string;
  page_screenshot : PageH -> value -> M World unit;
  page_evalAll : PageH -> string -> projection -> M World value;
  page_evaluate_inspect : PageH -> value -> M World value;
  keyboard_press : PageH -> string -> M World unit;
  keyboard_type : PageH -> value -> M World unit;
  locator_isVisible : PageH -> value -> M World bool;
  locator_isEnabled : PageH -> value -> M World bool;
  locator_scrollIntoViewIfNeeded : PageH -> value -> M World unit;
  locator_click : PageH -> value -> M World unit;
  locator_fill : PageH -> value -> value -> M World unit;
  locator_press : PageH -> value -> string -> M World unit;
  coerced_min : value -> value -> value;
  coerced_gt : value -> value -> bool;
  encodeURIComponent : string -> string;
  JSON_stringify : value -> string;
  JSON_stringify_indent : value -> Z -> string;
}.

Unset Implicit Arguments.

(** [{ content: [{ type, text }] }] *)
Record content_item := {
  type : string;
  text : string;
}.

Record result := {
  content : list content_item;
}.

Definition text_result (t : string) : result :=
  {| content := [ {| type := "text"; text := t |} ] |}.

Section WithEnv.

Context {World BrowserH PageH : Type}.
Variable E : Env World BrowserH PageH.

(** The fields of [this]. *)
Record Server := {
  browser : option BrowserH;
  page : option PageH;
  actions : list value;
}.

Record St := {
  srv : Server;
  world : World;
}.

(** [constructor()] *)
Definition new_server : Server :=
  {| browser := None; page := None; actions := [] |}.

Definition lift {A} (c : M World A) : M St A :=
  fun s => let (r, w) := c (world s) in (r, {| srv := srv s; world := w |}).

Definition get_browser : M St (option BrowserH) := fun s => (Ret (browser (srv s)), s).
Definition get_page : M St (option PageH) := fun s => (Ret (page (srv s)), s).
Definition get_actions : M St (list value) := fun s => (Ret (actions (srv s)), s).
Definition get_world : M St World := fun s => (Ret (world s), s).

Definition set_browser (b : option BrowserH) : M St unit :=
  fun s => (Ret tt, {| srv := {| browser := b; page := page (srv s);
                                 actions := actions (srv s) |};
                       world := world s |}).
Definition set_page (p : option PageH) : M St unit :=
  fun s => (Ret tt, {| srv := {| browser := browser (srv s); page := p;
                                 actions := actions (srv s) |};
                       world := world s |}).
Definition set_actions (l : list value) : M St unit :=
  fun s => (Ret tt, {| srv := {| browser := browser (srv s); page := page (srv s);
                                 actions := l |};
                       world := world s |}).

(** [this.actions.push(record)] *)
Definition push_action (record : value) : M St unit :=
  l <- get_actions ;; set_actions (l ++ [record]).

(** [if (!this.page) throw new Error('Browser not launched. ...')] *)
Definition not_launched : string := "Browser not launched. Call launch_browser first.".

Definition require_page : M St PageH :=
  p <- get_page ;;
  match p with
  | None => throw not_launched
  | Some pg => ret pg
  end.

(** ToNumber where the result is an integer: numbers, [null] and booleans.
    [undefined] (NaN), strings and objects are left to the runtime. *)
Definition to_integer (v : value) : option Z :=
  match v with
  | VNum z => Some z
  | VNull => Some 0%Z
  | VBool true => Some 1%Z
  | VBool false => Some 0%Z
  | _ => None
  end.

(** [Math.min(a, b)] and [a > b]: computed on integers; a comparison with
    NaN is false; the other coercions are the runtime's. *)
Definition Math_min (a b : value) : value :=
  match to_integer a, to_integer b with
  | Some x, Some y => VNum (Z.min x y)
  | _, _ => coerced_min E a b
  end.

Definition gt (a b : value) : bool :=
  match a, b with
  | VUndef, _ | _, VUndef => false
  | _, _ =>
      match to_integer a, to_integer b with
      | Some x, Some y => (y <? x)%Z
      | _, _ => coerced_gt E a b
      end
  end.

Definition mode (headless : value) : string :=
  if truthy headless then "headless" else "headed".

Definition launchBrowser (headless0 : value) : M St result :=
  let headless := default_arg headless0 (VBool false) in
  b <- get_browser ;;
  match b with
  | Some _ => ret (text_result ("Browser already running in " +:+ mode headless +:+ " mode"))
  | None =>
      br <- lift (chromium_launch E headless) ;;
      set_browser (Some br) ;;;
      pg <- lift (browser_newPage E br) ;;
      set_page (Some pg) ;;;
      set_actions [] ;;;
      ret (text_result ("Browser launched in " +:+ mode headless +:+ " mode"))
  end.

Definition navigate_record (url : value) : value :=
  VObj [("type", VStr "navigate"); ("url", url);
        ("code", VStr ("await page.goto('" +:+ to_string url +:+ "');"))].

Definition navigateTo (url : value) : M St result :=
  p <- require_page ;;
  lift (page_goto E p url) ;;;
  push_action (navigate_record url) ;;;
  ret (text_result ("Navigated to " +:+ to_string url)).

(** *** click_element *)

Definition quoted (s : string) : string := dq +:+ s +:+ dq.

(** [alternativeSelectors.github] of [clickElement] *)
Definition click_github : list value :=
  [ VStr ("[data-target=" +:+ quoted "query-builder.input" +:+ "]");
    VStr ("input[name=" +:+ quoted "q" +:+ "]");
    VStr "#query-builder-test";
    VStr ("input[placeholder*=" +:+ quoted "Search" +:+ "]");
    VStr ("input[aria-label*=" +:+ quoted "Search" +:+ "]");
    VStr ("button[type=" +:+ quoted "submit" +:+ "]");
    VStr ("[data-testid=" +:+ quoted "search-button" +:+ "]") ].

Definition click_selectorsToTry (url : string) (selector : value) : list value :=
  if includes url "github.com" then click_github ++ [selector] else [selector].

(** The body of the [try] of the candidate loop, up to the click. *)
Definition click_attempt (p : PageH) (timeout : value) (currentSelector : value)
  : M World unit :=
  page_waitForSelector E p currentSelector
    {| timeout := Math_min timeout (VNum 5000); state := Some "visible" |} ;;;
  isVisible <- locator_isVisible E p currentSelector ;;
  isEnabled <- locator_isEnabled E p currentSelector ;;
  if negb isVisible then
    throw ("Element " +:+ to_string currentSelector +:+ " is not visible")
  else if negb isEnabled then
    throw ("Element " +:+ to_string currentSelector +:+ " is not enabled/clickable")
  else
    locator_scrollIntoViewIfNeeded E p currentSelector ;;;
    locator_click E p currentSelector.

Definition click_record (currentSelector : value) : value :=
  VObj [("type", VStr "click"); ("selector", currentSelector);
        ("code", VStr ("await page.click('" +:+ to_string currentSelector +:+ "');"))].

Definition click_success (currentSelector : value) : result :=
  text_result ("Successfully clicked element: " +:+ to_string currentSelector).

(** [for (const currentSelector of selectorsToTry) { try {...; return ...}
    catch (error) { lastError = error; continue; } }]: [inl] is the value
    returned from inside the loop, [inr] the [lastError] it ends with. *)
Fixpoint click_loop (p : PageH) (timeout : value) (selectorsToTry : list value)
    (lastError : option string) : M St (result + option string) :=
  match selectorsToTry with
  | [] => ret (inr lastError)
  | currentSelector :: rest =>
      try_catch
        (lift (click_attempt p timeout currentSelector) ;;;
         push_action (click_record currentSelector) ;;;
         ret (inl (click_success currentSelector)))
        (fun error => click_loop p timeout rest (Some error))
  end.

(** [lastError.message] *)
Definition error_message {S} (lastError : option string) : M S string :=
  match lastError with
  | Some m => ret m
  | None => throw "Cannot read properties of null (reading 'message')"
  end.

Definition clickable_query : string :=
  "button, input[type=" +:+ quoted "submit" +:+ "], input[type=" +:+ quoted "button"
  +:+ "], a, [onclick], [data-target]".

Definition click_aggregate (selectorsToTry : list value) (m : string) (elements : value)
  : string :=
  "Failed to click element with any selector: " +:+ join ", " selectorsToTry
  +:+ ". Last error: " +:+ m
  +:+ ". Available clickable elements: " +:+ JSON_stringify E elements.

Definition click_combined (selector : value) (m evalError : string) : string :=
  "Failed to click element " +:+ to_string selector +:+ ": " +:+ m
  +:+ ". Could not inspect available elements: " +:+ evalError.

(** The [try { $$eval; throw ... } catch (evalError) { throw ... }] after the
    loop: the aggregated error is thrown inside the [try]. *)
Definition click_exhausted (p : PageH) (selector : value) (selectorsToTry : list value)
    (lastError : option string) : M St result :=
  try_catch
    (clickableElements <- lift (page_evalAll E p clickable_query ClickableFields) ;;
     m <- error_message lastError ;;
     throw (click_aggregate selectorsToTry m clickableElements))
    (fun evalError =>
       m <- error_message lastError ;;
       throw (click_combined selector m evalError)).

Definition clickElement (selector timeout0 : value) : M St result :=
  let timeout := default_arg timeout0 (VNum 30000) in
  p <- require_page ;;
  w <- get_world ;;
  let url := page_url E p w in
  let selectorsToTry := click_selectorsToTry url selector in
  r <- click_loop p timeout selectorsToTry None ;;
  match r with
  | inl res => ret res
  | inr lastError => click_exhausted p selector selectorsToTry lastError
  end.

(** *** fill_input *)

Definition fill_github : list value :=
  [ VStr ("[data-target=" +:+ quoted "query-builder.input" +:+ "]");
    VStr ("input[name=" +:+ quoted "q" +:+ "]");
    VStr "#query-builder-test";
    VStr ("input[placeholder*=" +:+ quoted "Search" +:+ "]");
    VStr ("input[aria-label*=" +:+ quoted "Search" +:+ "]") ].

Definition fill_google : list value :=
  [ VStr ("input[name=" +:+ quoted "q" +:+ "]");
    VStr ("textarea[name=" +:+ quoted "q" +:+ "]");
    VStr ("input[title=" +:+ quoted "Search" +:+ "]") ].

Definition fill_selectorsToTry (url : string) (selector : value) : list value :=
  if includes url "github.com" then fill_github ++ [selector]
  else if includes url "google.com" then fill_google ++ [selector]
  else [selector].

(** The body of the [try] up to the read-back; it returns [filledValue]. *)
Definition fill_attempt (p : PageH) (currentSelector text : value) : M World string :=
  page_waitForSelector E p currentSelector
    {| timeout := VNum 5000; state := Some "visible" |} ;;;
  isVisible <- locator_isVisible E p currentSelector ;;
  if negb isVisible then
    throw ("Element " +:+ to_string currentSelector +:+ " is not visible")
  else
    page_fill E p currentSelector (VStr "") ;;;
    page_fill E p currentSelector text ;;;
    page_inputValue E p currentSelector.

Definition fill_record (currentSelector text : value) (filledValue : string) : value :=
  VObj [("type", VStr "fill"); ("selector", currentSelector); ("text", text);
        ("actualValue", VStr filledValue);
        ("code", VStr ("await page.fill('" +:+ to_string currentSelector +:+ "', '"
                       +:+ to_string text +:+ "');"))].

Definition fill_success (currentSelector text : value) (filledValue : string) : result :=
  text_result ("Successfully filled input " +:+ to_string currentSelector +:+ " with: "
               +:+ to_string text +:+ " (actual value: " +:+ filledValue +:+ ")").

Fixpoint fill_loop (p : PageH) (text : value) (selectorsToTry : list value)
    (lastError : option string) : M St (result + option string) :=
  match selectorsToTry with
  | [] => ret (inr lastError)
  | currentSelector :: rest =>
      try_catch
        (filledValue <- lift (fill_attempt p currentSelector text) ;;
         push_action (fill_record currentSelector text filledValue) ;;;
         ret (inl (fill_success currentSelector text filledValue)))
        (fun error => fill_loop p text rest (Some error))
  end.

Definition input_query : string := "input, textarea, select".

Definition fill_aggregate (selectorsToTry : list value) (m : string) (inputs : value)
  : string :=
  "Failed to fill input with any selector: " +:+ join ", " selectorsToTry
  +:+ ". Last error: " +:+ m
  +:+ ". Available inputs: " +:+ JSON_stringify E inputs.

Definition fill_combined (selector : value) (m evalError : string) : string :=
  "Failed to fill input " +:+ to_string selector +:+ ": " +:+ m
  +:+ ". Could not inspect available inputs: " +:+ evalError.

Definition fill_exhausted (p : PageH) (selector : value) (selectorsToTry : list value)
    (lastError : option string) : M St result :=
  try_catch
    (inputs <- lift (page_evalAll E p input_query InputFields) ;;
     m <- error_message lastError ;;
     throw (fill_aggregate selectorsToTry m inputs))
    (fun evalError =>
       m <- error_message lastError ;;
       throw (fill_combined selector m evalError)).

Definition fillInput (selector text : value) : M St result :=
  p <- require_page ;;
  w <- get_world ;;
  let url := page_url E p w in
  let selectorsToTry := fill_selectorsToTry url selector in
  r <- fill_loop p text selectorsToTry None ;;
  match r with
  | inl res => ret res
  | inr lastError => fill_exhausted p selector selectorsToTry lastError
  end.

(** *** wait_for_element, take_screenshot *)

Definition wait_record (selector : value) : value :=
  VObj [("type", VStr "wait"); ("selector", selector);
        ("code", VStr ("await page.waitForSelector('" +:+ to_string selector +:+ "');"))].

Definition waitForElement (selector timeout0 : value) : M St result :=
  let timeout := default_arg timeout0 (VNum 30000) in
  p <- require_page ;;
  lift (page_waitForSelector E p selector {| timeout := timeout; state := None |}) ;;;
  push_action (wait_record selector) ;;;
  ret (text_result ("Element found: " +:+ to_string selector)).

Definition screenshot_record (filename : value) : value :=
  VObj [("type", VStr "screenshot"); ("filename", filename);
        ("code", VStr ("await page.screenshot({ path: '" +:+ to_string filename +:+ "' });"))].

Definition takeScreenshot (filename0 : value) : M St result :=
  let filename := default_arg filename0 (VStr "screenshot.png") in
  p <- require_page ;;
  lift (page_screenshot E p filename) ;;;
  push_action (screenshot_record filename) ;;;
  ret (text_result ("Screenshot saved as " +:+ to_string filename)).

(** *** github_search *)

Definition searchSelectors : list string :=
  [ "[data-target=" +:+ quoted "query-builder.input" +:+ "]";
    "input[name=" +:+ quoted "q" +:+ "]";
    "#query-builder-test";
    "input[placeholder*=" +:+ quoted "Search" +:+ "]";
    "input[aria-label*=" +:+ quoted "Search" +:+ "]";
    ".js-site-search-focus" ].

(** Strategy 1: the first search input that is visible. An input that is
    waited for but reported invisible is skipped without an error. *)
Fixpoint search_input_loop (p : PageH) (query : value) (selectors : list string)
  : M World string :=
  match selectors with
  | [] => throw "No search input found"
  | selector :: rest =>
      r <- try_catch
             (page_waitForSelector E p (VStr selector)
                {| timeout := VNum 3000; state := Some "visible" |} ;;;
              visible <- locator_isVisible E p (VStr selector) ;;
              if visible then
                locator_click E p (VStr selector) ;;;
                locator_fill E p (VStr selector) query ;;;
                locator_press E p (VStr selector) "Enter" ;;;
                ret (Some selector)
              else ret None)
             (fun _ => ret None) ;;
      match r with
      | Some used => ret used
      | None => search_input_loop p query rest
      end
  end.

Definition searchStrategies (p : PageH) (query : value) : list (M World string) :=
  [ search_input_loop p query searchSelectors;
    (keyboard_press E p "s" ;;;
     page_waitForTimeout E p 500 ;;;
     keyboard_type E p query ;;;
     keyboard_press E p "Enter" ;;;
     ret "keyboard-shortcut");
    (page_goto E p
       (VStr ("https://github.com/search?q=" +:+ encodeURIComponent E (to_string query))) ;;;
     ret "direct-url") ].

(** The strategy loop; it yields [usedStrategy] and [lastError]. *)
Fixpoint run_strategies (strategies : list (M World string)) (lastError : option string)
  : M World (option string * option string) :=
  match strategies with
  | [] => ret (None, lastError)
  | strategy :: rest =>
      r <- try_catch (used <- strategy ;; ret (inl used)) (fun error => ret (inr error)) ;;
      match r with
      | inl used => ret (Some used, lastError)
      | inr error => run_strategies rest (Some error)
      end
  end.

Definition results_query : string :=
  "[data-testid=" +:+ quoted "results-list" +:+ "], .repo-list, .search-results".

Definition search_record (query : value) (usedStrategy : string) : value :=
  VObj [("type", VStr "github_search"); ("query", query); ("strategy", VStr usedStrategy);
        ("code", VStr ("// GitHub search for: " +:+ to_string query
                       +:+ " using strategy: " +:+ usedStrategy))].

(** [!usedStrategy] holds for [null] and for the empty string. *)
Definition used_strategy (u : option string) : option string :=
  match u with
  | Some used => if String.eqb used "" then None else Some used
  | None => None
  end.

Definition githubSearch (query : value) : M St result :=
  p <- require_page ;;
  try_catch
    (r <- lift (run_strategies (searchStrategies p query) None) ;;
     match used_strategy (fst r) with
     | None =>
         m <- error_message (snd r) ;;
         throw ("All GitHub search strategies failed. Last error: " +:+ m)
     | Some usedStrategy =>
         lift (try_catch
                 (page_waitForSelector E p (VStr results_query)
                    {| timeout := VNum 10000; state := None |})
                 (fun _ => page_waitForTimeout E p 2000)) ;;;
         push_action (search_record query usedStrategy) ;;;
         ret (text_result ("Successfully performed GitHub search for "
                           +:+ quoted (to_string query)
                           +:+ " using strategy: " +:+ usedStrategy))
     end)
    (fun error =>
       w <- get_world ;;
       let currentUrl := page_url E p w in
       pageTitle <- lift (page_title E p) ;;
       throw ("GitHub search failed: " +:+ error +:+ ". Current URL: " +:+ currentUrl
              +:+ ", Page title: " +:+ pageTitle)).

(** *** inspect_page, get_page_content *)

Definition inspectPage (elementType0 : value) : M St result :=
  let elementType := default_arg elementType0 (VStr "all") in
  p <- require_page ;;
  inspection <- lift (page_evaluate_inspect E p elementType) ;;
  forms <- get_prop inspection "forms" ;;
  nforms <- get_prop forms "length" ;;
  inputs <- get_prop inspection "inputs" ;;
  ninputs <- get_prop inputs "length" ;;
  buttons <- get_prop inspection "buttons" ;;
  nbuttons <- get_prop buttons "length" ;;
  ret (text_result ("Page inspection complete. Found " +:+ to_string nforms
                    +:+ " forms, " +:+ to_string ninputs +:+ " inputs, "
                    +:+ to_string nbuttons +:+ " buttons." +:+ nl +:+ nl
                    +:+ "Detailed inspection:" +:+ nl
                    +:+ JSON_stringify_indent E inspection 2)).

Definition getPageContent : M St result :=
  p <- require_page ;;
  title <- lift (page_title E p) ;;
  w <- get_world ;;
  let url := page_url E p w in
  content <- lift (page_content E p) ;;
  ret (text_result ("Page Title: " +:+ title +:+ nl +:+ "URL: " +:+ url +:+ nl
                    +:+ "Content Length: "
                    +:+ string_of_Z (Z.of_nat (String.length content))
                    +:+ " characters")).

(** *** generate_test *)

Definition query_builder_input : string :=
  "[data-target=" +:+ quoted "query-builder.input" +:+ "]".

(** [switch (action.name)]: a [case] matches by strict equality, so only a
    string name can select one; the result is [null] or a source line. *)
Definition convertActionToPlaywrightCode {S} (action : value) : M S value :=
  name <- get_prop action "name" ;;
  match name with
  | VStr n =>
      if String.eqb n "launch_browser" then ret VNull
      else if String.eqb n "navigate_to" then
        args <- get_prop action "arguments" ;;
        url <- get_prop args "url" ;;
        ret (VStr ("await page.goto('" +:+ to_string url +:+ "');"))
      else if String.eqb n "click_element" then
        args <- get_prop action "arguments" ;;
        selector <- get_prop args "selector" ;;
        ret (VStr ("await page.click('" +:+ to_string selector +:+ "');"))
      else if String.eqb n "fill_input" then
        args <- get_prop action "arguments" ;;
        selector <- get_prop args "selector" ;;
        args' <- get_prop action "arguments" ;;
        text <- get_prop args' "text" ;;
        ret (VStr ("await page.fill('" +:+ to_string selector +:+ "', '"
                   +:+ to_string text +:+ "');"))
      else if String.eqb n "wait_for_element" then
        args <- get_prop action "arguments" ;;
        selector <- get_prop args "selector" ;;
        ret (VStr ("await page.waitForSelector('" +:+ to_string selector +:+ "');"))
      else if String.eqb n "take_screenshot" then
        args <- get_prop action "arguments" ;;
        f <- get_prop args "filename" ;;
        let filename := or_else f (VStr "screenshot.png") in
        ret (VStr ("await page.screenshot({ path: '" +:+ to_string filename +:+ "' });"))
      else if String.eqb n "github_search" then
        args <- get_prop action "arguments" ;;
        query <- get_prop args "query" ;;
        ret (VStr ("await page.fill('" +:+ query_builder_input +:+ "', '"
                   +:+ to_string query +:+ "');" +:+ nl
                   +:+ "  await page.press('" +:+ query_builder_input +:+ "', 'Enter');"))
      else if String.eqb n "inspect_page" then ret VNull
      else if String.eqb n "get_page_content" then ret VNull
      else if String.eqb n "close_browser" then ret VNull
      else ret (VStr ("// Unsupported action: " +:+ to_string name))
  | _ => ret (VStr ("// Unsupported action: " +:+ to_string name))
  end.

(** The callback of [actions.forEach]; [testCode] is the text so far. *)
Definition emit_action {S} (testCode : string) (action : value) : M S string :=
  code <- get_prop action "code" ;;
  if truthy code then ret (testCode +:+ "  " +:+ to_string code +:+ nl)
  else
    name <- get_prop action "name" ;;
    cond <- (if truthy name then get_prop action "arguments" else ret name) ;;
    if truthy cond then
      playwrightCode <- convertActionToPlaywrightCode action ;;
      if truthy playwrightCode then
        ret (testCode +:+ "  " +:+ to_string playwrightCode +:+ nl)
      else ret testCode
    else ret testCode.

Fixpoint forEach_emit {S} (testCode : string) (items : list value) : M S string :=
  match items with
  | [] => ret testCode
  | action :: rest =>
      testCode' <- emit_action testCode action ;;
      forEach_emit testCode' rest
  end.

Definition test_header (testDescription : value) : string :=
  "import { test, expect } from '@playwright/test';" +:+ nl +:+ nl
  +:+ "test('" +:+ to_string testDescription +:+ "', async ({ page }) => {" +:+ nl.

Definition generatePlaywrightTest {S} (testName description actions : value)
  : M S string :=
  let testDescription := or_else description testName in
  let testCode := test_header testDescription in
  testCode' <-
    (if truthy actions then
       len <- get_prop actions "length" ;;
       if gt len (VNum 0) then
         match actions with
         | VArr items => forEach_emit testCode items
         | _ => throw "actions.forEach is not a function"
         end
       else ret testCode
     else ret testCode) ;;
  ret (testCode' +:+ "});" +:+ nl).

Definition generateTest (testName description0 providedActions0 : value) : M St result :=
  let description := default_arg description0 (VStr "") in
  let providedActions := default_arg providedActions0 VNull in
  log <- get_actions ;;
  let actionsToUse := or_else providedActions (VArr log) in
  testCode <- generatePlaywrightTest testName description actionsToUse ;;
  ret (text_result testCode).

(** *** close_browser *)

Definition closeBrowser : M St result :=
  b <- get_browser ;;
  match b with
  | Some br =>
      lift (browser_close E br) ;;;
      set_browser None ;;;
      set_page None ;;;
      set_actions [] ;;;
      ret (text_result "Browser closed successfully")
  | None => ret (text_result "No browser to close")
  end.

(** *** The request router *)

(** The [switch (name)] inside the [try] of the [CallToolRequestSchema]
    handler; [args] is [request.params.arguments]. *)
Definition dispatch (name : string) (args : value) : M St result :=
  if String.eqb name "launch_browser" then
    headless <- get_prop_opt args "headless" ;;
    launchBrowser (nullish_or headless (VBool false))
  else if String.eqb name "navigate_to" then
    url <- get_prop args "url" ;;
    navigateTo url
  else if String.eqb name "click_element" then
    selector <- get_prop args "selector" ;;
    timeout <- get_prop args "timeout" ;;
    clickElement selector timeout
  else if String.eqb name "fill_input" then
    selector <- get_prop args "selector" ;;
    text <- get_prop args "text" ;;
    fillInput selector text
  else if String.eqb name "wait_for_element" then
    selector <- get_prop args "selector" ;;
    timeout <- get_prop args "timeout" ;;
    waitForElement selector timeout
  else if String.eqb name "take_screenshot" then
    filename <- get_prop_opt args "filename" ;;
    takeScreenshot filename
  else if String.eqb name "github_search" then
    query <- get_prop args "query" ;;
    githubSearch query
  else if String.eqb name "inspect_page" then
    elementType <- get_prop_opt args "elementType" ;;
    inspectPage (or_else elementType (VStr "all"))
  else if String.eqb name "get_page_content" then getPageContent
  else if String.eqb name "generate_test" then
    testName <- get_prop args "testName" ;;
    description <- get_prop args "description" ;;
    acts <- get_prop args "actions" ;;
    generateTest testName description acts
  else if String.eqb name "close_browser" then closeBrowser
  else throw ("Unknown tool: " +:+ name).

Definition error_result (name message : string) : result :=
  text_result ("Error executing " +:+ name +:+ ": " +:+ message).

(** The handler itself: [try { switch ... } catch (error) { return {...} }]. *)
Definition callTool (name : string) (args : value) : M St result :=
  try_catch (dispatch name args) (fun message => ret (error_result name message)).

(** The names of the tool catalog ([ListToolsRequestSchema] handler). *)
Definition tool_names : list string :=
  [ "launch_browser"; "navigate_to"; "click_element"; "fill_input";
    "wait_for_element"; "take_screenshot"; "get_page_content"; "github_search";
    "inspect_page"; "generate_test"; "close_browser" ].

End WithEnv.

End Driver.

(** ** The bridge: [sendMCPRequest] of [src/ai-integration.js]

    The event loop is modelled by its events: a call of [sendMCPRequest], a
    ['data'] event on the child's stdout, and the passing of time, which
    fires the armed timers that are due. *)

Module Bridge.

(** The promise a call returned. *)
Inductive promise :=
  | Pending
  | Resolved (result : value)
  | Rejected (message : string).

Record request := {
  jsonrpc : string;
  id : nat;
  method : string;
  params : value;
}.

(** [messageId] and [isConnected] are the fields of the class; [listeners]
    are the [onData] closures registered on stdout, each named by the
    [request.id] it closes over, in registration order; [timers] are the
    armed timeouts with the time they are due; [promises] are the promises
    handed out, by request id; [stdin] is what was written to the child. *)
Record Bridge := {
  isConnected : bool;
  messageId : nat;
  now : Z;
  timers : list (nat * Z);
  listeners : list nat;
  promises : gmap nat promise;
  stdin : list request;
}.

(** [constructor(apiKey)], then the startup line seen on stderr. *)
Definition new_bridge : Bridge :=
  {| isConnected := false; messageId := 0; now := 0; timers := [];
     listeners := []; promises := ∅; stdin := [] |}.

Definition connected (b : Bridge) : Bridge :=
  {| isConnected := true; messageId := messageId b; now := now b;
     timers := timers b; listeners := listeners b; promises := promises b;
     stdin := stdin b |}.

(** [resolve] and [reject] of a promise act on a pending promise only. *)
Definition settle (i : nat) (p : promise) (b : Bridge) : Bridge :=
  match promises b !! i with
  | Some Pending =>
      {| isConnected := isConnected b; messageId := messageId b; now := now b;
         timers := timers b; listeners := listeners b;
         promises := <[i := p]> (promises b); stdin := stdin b |}
  | _ => b
  end.

Definition resolve (i : nat) (v : value) : M Bridge unit :=
  fun b => (Ret tt, settle i (Resolved v) b).

Definition reject (i : nat) (message : string) : M Bridge unit :=
  fun b => (Ret tt, settle i (Rejected message) b).

(** [clearTimeout(timeout)] *)
Definition clearTimeout (i : nat) : M Bridge unit :=
  fun b => (Ret tt,
    {| isConnected := isConnected b; messageId := messageId b; now := now b;
       timers := filter (fun t => t.1 ≠ i) (timers b); listeners := listeners b;
       promises := promises b; stdin := stdin b |}).

(** [this.mcpProcess.stdout.off('data', onData)] *)
Definition off (i : nat) : M Bridge unit :=
  fun b => (Ret tt,
    {| isConnected := isConnected b; messageId := messageId b; now := now b;
       timers := timers b; listeners := filter (fun j => j ≠ i) (listeners b);
       promises := promises b; stdin := stdin b |}).

Definition timeout_ms : Z := 30000.

(** The body of [sendMCPRequest]: it throws when not connected, and
    otherwise returns the id under which the new promise is recorded. *)
Definition sendMCPRequest (method : string) (params : value) : M Bridge nat :=
  fun b =>
    if negb (isConnected b) then (Throw "MCP server not connected", b)
    else
      let i := S (messageId b) in
      let req := {| jsonrpc := "2.0"; id := i; method := method; params := params |} in
      (Ret i,
       {| isConnected := isConnected b; messageId := i; now := now b;
          timers := timers b ++ [(i, (now b + timeout_ms)%Z)];
          listeners := listeners b ++ [i];
          promises := <[i := Pending]> (promises b);
          stdin := stdin b ++ [req] |}).

(** [JSON.parse(data.toString())]: the chunk is given by what parsing it
    yields, [None] when [JSON.parse] throws. *)
Definition JSON_parse (data : option value) : M Bridge value :=
  match data with
  | Some v => ret v
  | None => throw "Unexpected end of JSON input"
  end.

(** [v === n] for a number [n] *)
Definition strict_eq_id (v : value) (n : nat) : bool :=
  match v with
  | VNum z => (z =? Z.of_nat n)%Z
  | _ => false
  end.

(** The message of [new Error(m)] *)
Definition Error_message (m : value) : string :=
  match m with
  | VUndef => ""
  | _ => to_string m
  end.

(** The closure [onData] of the call with id [i]. *)
Definition onData (i : nat) (data : option value) : M Bridge unit :=
  try_catch
    (response <- JSON_parse data ;;
     rid <- get_prop response "id" ;;
     if strict_eq_id rid i then
       clearTimeout i ;;;
       off i ;;;
       error <- get_prop response "error" ;;
       if truthy error then
         m <- get_prop error "message" ;;
         reject i (Error_message m)
       else
         r <- get_prop response "result" ;;
         resolve i r
     else ret tt)
    (fun _ => ret tt).

(** A ['data'] event: every listener registered when it is emitted runs. *)
Definition emit_data (data : option value) (b : Bridge) : Bridge :=
  fold_left (fun b' i => (onData i data b').2) (listeners b) b.

(** The callback of [setTimeout]: it rejects, and does nothing else. *)
Definition on_timeout (i : nat) : M Bridge unit :=
  reject i "MCP request timeout".

(** Time passes by [dt]: the armed timers that are due fire, in order, and
    are disarmed. *)
Definition elapse (dt : N) (b : Bridge) : Bridge :=
  let t := (now b + Z.of_N dt)%Z in
  let due := filter (fun tm => (tm.2 ≤ t)%Z) (timers b) in
  let b1 := fold_left (fun b' tm => (on_timeout tm.1 b').2) due b in
  {| isConnected := isConnected b1; messageId := messageId b1; now := t;
     timers := filter (fun tm => ¬ (tm.2 ≤ t)%Z) (timers b1);
     listeners := listeners b1; promises := promises b1; stdin := stdin b1 |}.

(** The events of the loop and their runs. *)
Inductive event :=
  | Call (method : string) (params : value)
  | Data (data : option value)
  | Elapse (dt : N).

Definition step (b : Bridge) (e : event) : Bridge :=
  match e with
  | Call method params => (sendMCPRequest method params b).2
  | Data data => emit_data data b
  | Elapse dt => elapse dt b
  end.

Definition run (es : list event) (b : Bridge) : Bridge := fold_left step es b.

(** A well-formed response frame. *)
Definition response_ok (i : nat) (r : value) : value :=
  VObj [("jsonrpc", VStr "2.0"); ("id", VNum (Z.of_nat i)); ("result", r)].

(** What the response object with the own properties [fields] settles its
    call with. *)
Definition settlement (fields : list (string * value)) : promise :=
  let error := lookup_field "error" fields in
  if truthy error then Rejected (Error_message (field "message" error))
  else Resolved (lookup_field "result" fields).

(** The listener of call [i] after it matched a response: the timer is
    cleared, the listener is taken off, the promise is settled. *)
Definition unlisten (i : nat) (b : Bridge) : Bridge :=
  (off i (clearTimeout i b).2).2.

Definition deliver (i : nat) (p : promise) (b : Bridge) : Bridge :=
  settle i p (unlisten i b).

(** The calls made in a run of events, and the ids written to the child. *)
Fixpoint calls (es : list event) : nat :=
  match es with
  | [] => 0
  | Call _ _ :: rest => S (calls rest)
  | _ :: rest => calls rest
  end.


End Bridge.

(** ** The orchestrator: [AIPlaywrightIntegration] of [src/ai-integration.js]

    The methods are modelled at the level of their [await]s, for one call
    at a time: awaiting the promise of [sendMCPRequest] gives the result of
    the response or the error of the rejection. *)

Module Orchestrator.

Local Abbreviation ascii := Ascii.ascii.

(** *** [extractTestName]

    Strings are byte strings, the UTF-8 of the text. [\w] is ASCII in a
    regular expression without the [u] flag, and a byte outside ASCII, being
    no word character, becomes a space like the character it belongs to. A
    character outside ASCII whose lower case is outside ASCII as well is
    left as it is by [toLowerCase] below: either way the next step turns it
    into spaces. *)

Definition char_code (c : ascii) : nat := Ascii.nat_of_ascii c.

Definition between (lo hi : nat) (c : ascii) : bool :=
  Nat.leb lo (char_code c) && Nat.leb (char_code c) hi.

Definition is_upper : ascii → bool := between 65 90.
Definition is_lower : ascii → bool := between 97 122.
Definition is_digit : ascii → bool := between 48 57.
Definition is_underscore (c : ascii) : bool := Nat.eqb (char_code c) 95.

(** [\w] and [\s] *)
Definition is_word (c : ascii) : bool :=
  is_upper c || is_lower c || is_digit c || is_underscore c.

Definition is_space (c : ascii) : bool :=
  between 9 13 c || Nat.eqb (char_code c) 32.

Definition lower (c : ascii) : ascii :=
  if is_upper c then Ascii.ascii_of_nat (char_code c + 32) else c.

Fixpoint map_string (f : ascii → ascii) (s : string) : string :=
  match s with
  | EmptyString => EmptyString
  | String c rest => String (f c) (map_string f rest)
  end.

(** [toLowerCase]: the ASCII letters, and the two characters outside
    ASCII whose lower case holds an ASCII letter: U+212A, the bytes 226 132
    170, becomes k, and U+0130, the bytes 196 176, becomes i followed by
    U+0307, the bytes 204 135. *)
Fixpoint toLowerCase (s : string) : string :=
  match s with
  | EmptyString => EmptyString
  | String c rest =>
      if Nat.eqb (char_code c) 226 then
        match rest with
        | String c2 (String c3 rest') =>
            if Nat.eqb (char_code c2) 132 && Nat.eqb (char_code c3) 170
            then String (Ascii.ascii_of_nat 107) (toLowerCase rest')
            else String c (toLowerCase rest)
        | _ => String c (toLowerCase rest)
        end
      else if Nat.eqb (char_code c) 196 then
        match rest with
        | String c2 rest' =>
            if Nat.eqb (char_code c2) 176
            then String (Ascii.ascii_of_nat 105)
                   (String (Ascii.ascii_of_nat 204)
                      (String (Ascii.ascii_of_nat 135) (toLowerCase rest')))
            else String c (toLowerCase rest)
        | EmptyString => String c (toLowerCase rest)
        end
      else String (lower c) (toLowerCase rest)
  end.

(** [.replace(/[^\w\s]/g, ' ')] *)
Definition blank (c : ascii) : ascii :=
  if is_word c || is_space c then c else Ascii.ascii_of_nat 32.

(** [.split(/\s+/)]: [word] is the piece being read, [in_gap] tells that
    the last character was a separator. A separator at either end gives an
    empty piece there. *)
Fixpoint split_spaces (in_gap : bool) (word : string) (s : string) : list string :=
  match s with
  | EmptyString => [word]
  | String c rest =>
      if is_space c then
        if in_gap then split_spaces true word rest
        else word :: split_spaces true "" rest
      else split_spaces false (word +:+ String c "") rest
  end.

Definition extractTestName (prompt : string) : string :=
  let words :=
    join_strings "_"
      (take 4 (filter (fun word => 2 < String.length word)
                 (split_spaces false "" (map_string blank (toLowerCase prompt))))) in
  if String.eqb words "" then "generated_test" else words.

(** *** The object and what it talks to *)

Set Implicit Arguments.

(** What the class calls and does not define. [answer] is what awaiting the
    promise of [sendMCPRequest] gives once the request is written to the
    child; [chat] is [openai.chat.completions.create], told by the system
    prompt whether a browser is running; [fenced] is the first group of the
    match of the fence pattern, [None] when there is no match; [JSON_parse]
    is [JSON.parse] on a string; [actionExecuted] are the listeners that
    [emit] runs; [kill] is [mcpProcess.kill()]. *)
Record Env (Outside : Type) := {
  answer : Bridge.request → M Outside value;
  chat : bool → string → M Outside value;
  fenced : string → option string;
  JSON_parse : string → outcome value;
  actionExecuted : value → value → M Outside unit;
  kill : M Outside unit;
}.

Unset Implicit Arguments.

(** The fields of [this]; [mcpProcess] tells whether the field holds a
    child process or [null]. *)
Record Integration := {
  mcpProcess : bool;
  isConnected : bool;
  messageId : nat;
  browserLaunched : bool;
}.

(** [constructor(apiKey)] *)
Definition new_integration : Integration :=
  {| mcpProcess := false; isConnected := false; messageId := 0;
     browserLaunched := false |}.

Section WithEnv.

Context {Outside : Type}.
Variable E : Env Outside.

(** [stdin] is what was written to the child, in order. *)
Record St := {
  this : Integration;
  stdin : list Bridge.request;
  outside : Outside;
}.

Definition lift {A} (c : M Outside A) : M St A :=
  fun s => let (r, o) := c (outside s) in
           (r, {| this := this s; stdin := stdin s; outside := o |}).

Definition get_this : M St Integration := fun s => (Ret (this s), s).

Definition set_browserLaunched (b : bool) : M St unit :=
  fun s => (Ret tt,
    {| this := {| mcpProcess := mcpProcess (this s); isConnected := isConnected (this s);
                  messageId := messageId (this s); browserLaunched := b |};
       stdin := stdin s; outside := outside s |}).

(** [sendMCPRequest(method, params = {})], awaited. The id is taken before
    the listener is registered on the child's stdout. *)
Definition sendMCPRequest (method : string) (params : value) : M St value :=
  fun s =>
    if negb (isConnected (this s)) then (Throw "MCP server not connected", s)
    else
      let i := S (messageId (this s)) in
      let request := {| Bridge.jsonrpc := "2.0"; Bridge.id := i; Bridge.method := method;
                        Bridge.params := default_arg params (VObj []) |} in
      let this' := {| mcpProcess := mcpProcess (this s); isConnected := isConnected (this s);
                      messageId := i; browserLaunched := browserLaunched (this s) |} in
      if negb (mcpProcess (this s)) then
        (Throw "Cannot read properties of null (reading 'stdout')",
         {| this := this'; stdin := stdin s; outside := outside s |})
      else
        let (r, o) := answer E request (outside s) in
        (r, {| this := this'; stdin := stdin s ++ [request]; outside := o |}).

(** [v[0]] *)
Definition first_item {S} (v : value) : M S value :=
  match v with
  | VUndef => throw "Cannot read properties of undefined (reading '0')"
  | VNull => throw "Cannot read properties of null (reading '0')"
  | VArr items => ret (match items with x :: _ => x | [] => VUndef end)
  | VStr s => ret (match s with String c _ => VStr (String c "") | EmptyString => VUndef end)
  | VObj fields => ret (lookup_field "0" fields)
  | VBool _ | VNum _ => ret VUndef
  end.

(** [actionsText.match(pattern)], then the choice of the text to parse. *)
Definition json_text {S} (actionsText : value) : M S string :=
  match actionsText with
  | VStr text =>
      ret (match fenced E text with
           | Some inner => inner
           | None => text
           end)
  | VUndef => throw "Cannot read properties of undefined (reading 'match')"
  | VNull => throw "Cannot read properties of null (reading 'match')"
  | _ => throw "actionsText.match is not a function"
  end.

Definition analyzePrompt (prompt : string) : M St value :=
  me <- get_this ;;
  completion <- lift (chat E (browserLaunched me) prompt) ;;
  try_catch
    (choices <- get_prop completion "choices" ;;
     choice <- first_item choices ;;
     message <- get_prop choice "message" ;;
     actionsText <- get_prop message "content" ;;
     jsonText <- json_text actionsText ;;
     fun s => (JSON_parse E jsonText, s))
    (fun error => throw ("Failed to parse AI response: " +:+ error)).

(** [name === 'launch_browser'] and the like. *)
Definition is_name (name : value) (n : string) : bool :=
  match name with
  | VStr s => String.eqb s n
  | _ => false
  end.

Definition tool_call (name args : value) : value :=
  VObj [("name", name); ("arguments", args)].

Definition executeAction (action : value) : M St value :=
  try_catch
    (name <- get_prop action "name" ;;
     args <- get_prop action "arguments" ;;
     result <- sendMCPRequest "tools/call" (tool_call name args) ;;
     (if is_name name "launch_browser" then set_browserLaunched true
      else if is_name name "close_browser" then set_browserLaunched false
      else ret tt) ;;;
     ret result)
    (fun error =>
       name <- get_prop action "name" ;;
       throw ("Failed to execute action " +:+ to_string name +:+ ": " +:+ error)).

(** [for (const action of actions)]: an array gives its elements, a string
    its characters; nothing else that [JSON.parse] returns is iterable. *)
Definition for_of {S} (actions : value) : M S (list value) :=
  match actions with
  | VArr items => ret items
  | VStr s => ret (map (fun c => VStr (String c "")) (String.list_ascii_of_string s))
  | _ => throw "actions is not iterable"
  end.

(** The body of the loop, with [results] so far. *)
Fixpoint run_actions (items : list value) (results : list value) : M St (list value) :=
  match items with
  | [] => ret results
  | action :: rest =>
      result <- executeAction action ;;
      lift (actionExecuted E action result) ;;;
      run_actions rest (results ++ [result])
  end.

Definition generate_test_call (prompt : string) (actions : value) : value :=
  tool_call (VStr "generate_test")
    (VObj [("testName", VStr (extractTestName prompt));
           ("description", VStr prompt);
           ("actions", actions)]).

Definition success_report (prompt : string) (actions : value) (results : list value)
  : value :=
  VObj [("success", VBool true); ("prompt", VStr prompt); ("actions", actions);
        ("results", VArr results);
        ("message", VStr "Actions executed successfully and test generated")].

Definition failure_report (prompt error : string) : value :=
  VObj [("success", VBool false); ("error", VStr error); ("prompt", VStr prompt)].

(** [processPrompt(prompt)] for the text [prompt]. *)
Definition processPrompt (prompt : string) : M St value :=
  try_catch
    (actions <- analyzePrompt prompt ;;
     items <- for_of actions ;;
     results <- run_actions items [] ;;
     results' <- (if Nat.ltb 0 (length items) then
                    testResult <- sendMCPRequest "tools/call"
                                    (generate_test_call prompt actions) ;;
                    ret (results ++ [testResult])
                  else ret results) ;;
     ret (success_report prompt actions results'))
    (fun error => ret (failure_report prompt error)).

Definition shut (s : St) : St :=
  {| this := {| mcpProcess := false; isConnected := false;
                messageId := messageId (this s); browserLaunched := false |};
     stdin := stdin s; outside := outside s |}.

Definition close_call : value := tool_call (VStr "close_browser") (VObj []).

(** [cleanup()]; the warning printed for a failed close changes nothing. *)
Definition cleanup : M St unit :=
  me <- get_this ;;
  (if mcpProcess me && browserLaunched me then
     try_catch (sendMCPRequest "tools/call" close_call ;;; ret tt) (fun _ => ret tt)
   else ret tt) ;;;
  me' <- get_this ;;
  if mcpProcess me' then
    lift (kill E) ;;;
    (fun s => (Ret tt, shut s))
  else ret tt.

(** The actions of [items] are executed and announced one after the other
    from [s], none failing; the result is the results and the state after
    the last. *)
Fixpoint actions_done (items : list value) (results : list value) (s : St)
  : option (list value * St) :=
  match items with
  | [] => Some (results, s)
  | action :: rest =>
      match executeAction action s with
      | (Ret result, s1) =>
          match lift (actionExecuted E action result) s1 with
          | (Ret _, s2) => actions_done rest (results ++ [result]) s2
          | (Throw _, _) => None
          end
      | (Throw _, _) => None
      end
  end.

(** The request written for an action. *)
Definition request_of (i : nat) (call : value) : Bridge.request :=
  {| Bridge.jsonrpc := "2.0"; Bridge.id := i; Bridge.method := "tools/call";
     Bridge.params := call |}.

Definition call_of (action : value) : value :=
  tool_call (field "name" action) (field "arguments" action).

Fixpoint requests_from (i : nat) (calls : list value) : list Bridge.request :=
  match calls with
  | [] => []
  | call :: rest => request_of i call :: requests_from (S i) rest
  end.

(** [browserLaunched] after the request for the action named [name] was
    answered. *)
Definition tracked (name : value) (launched : bool) : bool :=
  if is_name name "launch_browser" then true
  else if is_name name "close_browser" then false
  else launched.

(** An action with a string for its name, as the tool catalog has them. *)
Definition named (action : value) : Prop :=
  ∃ fields n, action = VObj fields ∧ lookup_field "name" fields = VStr n.

(** The child is running and was seen to be ready. *)
Definition live (s : St) : Prop :=
  isConnected (this s) = true ∧ mcpProcess (this s) = true.

(** The requests that follow the [n] already in [stdin]. *)
Definition written_since (s s' : St) : list Bridge.request :=
  drop (length (stdin s)) (stdin s').

(** What [processPrompt] asks of the driver for the plan [actions]: every
    action, then the script. *)
Definition calls_of (prompt : string) (actions : value) (items : list value)
  : list value :=
  map call_of items
  ++ (if Nat.ltb 0 (length items) then [generate_test_call prompt actions] else []).

End WithEnv.

(** A name made of lower-case letters, digits and underscores. *)
Definition is_name_char (c : ascii) : bool := is_lower c || is_digit c || is_underscore c.

Fixpoint string_forall (P : ascii → bool) (s : string) : bool :=
  match s with
  | EmptyString => true
  | String c rest => P c && string_forall P rest
  end.

End Orchestrator.

(** ** Start-up: [startMCPServer] of [src/ai-integration.js]

    The promise it returns is settled by the events of the child: a chunk
    on stderr that holds the banner, or the ['error'] event. *)

Module Startup.

Definition banner : string := "Playwright MCP server running".

Inductive event :=
  | Stderr (chunk : string)
  | Failed (message : string).

(** [isConnected], and the promise that [startMCPServer] returned. *)
Record Start := {
  isConnected : bool;
  started : Bridge.promise;
}.

(** After [spawn], before any event. *)
Definition spawned : Start :=
  {| isConnected := false; started := Bridge.Pending |}.

(** [resolve] and [reject] act on a pending promise only. *)
Definition settle (p x : Bridge.promise) : Bridge.promise :=
  match x with
  | Bridge.Pending => p
  | _ => x
  end.

Definition step (c : Start) (e : event) : Start :=
  match e with
  | Stderr chunk =>
      if includes chunk banner then
        {| isConnected := true; started := settle (Bridge.Resolved VUndef) (started c) |}
      else c
  | Failed message =>
      {| isConnected := isConnected c;
         started := settle (Bridge.Rejected message) (started c) |}
  end.

Definition run (es : list event) (c : Start) : Start := fold_left step es c.

(** A chunk of stderr that does not hold the banner. *)
Definition idle_chunk (e : event) : Prop :=
  ∃ chunk, e = Stderr chunk ∧ includes chunk banner = false.

End Startup.

(** ** The driver behind the bridge

    A transport that hands the [name] and [arguments] of every [tools/call]
    request to the driver's router and answers with what the router returns. *)

Module Relay.

Import Driver.

Definition item_value (c : content_item) : value :=
  VObj [("type", VStr (type c)); ("text", VStr (text c))].

Definition result_value (r : result) : value :=
  VObj [("content", VArr (map item_value (content r)))].

Section WithEnv.

Context {World BrowserH PageH : Type}.
Variable D : Env World BrowserH PageH.

Definition relay (request : Bridge.request) : M (@St World BrowserH PageH) value :=
  if String.eqb (Bridge.method request) "tools/call" then
    match field "name" (Bridge.params request) with
    | VStr name =>
        fun s => match callTool D name (field "arguments" (Bridge.params request)) s with
                 | (Ret r, s') => (Ret (result_value r), s')
                 | (Throw m, s') => (Throw m, s')
                 end
    | _ => throw "Invalid request parameters"
    end
  else throw "Method not found".

(** The orchestrator's surroundings: the driver behind [relay], a language
    model whose answer parses as [plan] (or fails to parse) whatever it is
    asked, no listeners. *)
Definition env (plan : outcome value) : Orchestrator.Env (@St World BrowserH PageH) := {|
  Orchestrator.answer := relay;
  Orchestrator.chat := fun _ _ =>
    ret (VObj [("choices", VArr [VObj [("message", VObj [("content", VStr "plan")])]])]);
  Orchestrator.fenced := fun _ => None;
  Orchestrator.JSON_parse := fun _ => plan;
  Orchestrator.actionExecuted := fun _ _ => ret tt;
  Orchestrator.kill := ret tt;
|}.

(** The orchestrator connected to a driver in the state [s]. *)
Definition connected (launched : bool) (s : @St World BrowserH PageH)
  : Orchestrator.St :=
  {| Orchestrator.this :=
       {| Orchestrator.mcpProcess := true; Orchestrator.isConnected := true;
          Orchestrator.messageId := 0; Orchestrator.browserLaunched := launched |};
     Orchestrator.stdin := [];
     Orchestrator.outside := s |}.

End WithEnv.

(** The calls the router receives for the plan [items] of a prompt: one for
    each action, then the one for the script. *)
Definition planned (prompt : string) (items : list value) : list (string * value) :=
  map (fun action => (to_string (field "name" action), field "arguments" action)) items
  ++ (if Nat.ltb 0 (length items) then
        [("generate_test",
          VObj [("testName", VStr (Orchestrator.extractTestName prompt));
                ("description", VStr prompt);
                ("actions", VArr items)])]
      else []).

(** The title [processPrompt] makes the script carry. *)
Definition title_for (prompt : string) : string :=
  if String.eqb prompt "" then "generated_test" else prompt.

End Relay.

(** ** The built-ins of the scripted page

    [JSON.stringify] and [encodeURIComponent] on the values of this
    development: integers below 10^21 in magnitude, byte strings that are
    well-formed UTF-8, and records whose keys are distinct and are not
    array indices (their members are written in the order they were
    added). *)

Module Json.

Definition bs : string := String (Ascii.ascii_of_nat 92) EmptyString.

Definition hex_lower (n : nat) : string :=
  String.substring n 1 "0123456789abcdef".

Definition hex_upper (n : nat) : string :=
  String.substring n 1 "0123456789ABCDEF".

(** QuoteJSONString on one character. *)
Definition escape_char (c : Ascii.ascii) : string :=
  let n := Ascii.nat_of_ascii c in
  if Nat.eqb n 34 then bs +:+ dq
  else if Nat.eqb n 92 then bs +:+ bs
  else if Nat.eqb n 8 then bs +:+ "b"
  else if Nat.eqb n 12 then bs +:+ "f"
  else if Nat.eqb n 10 then bs +:+ "n"
  else if Nat.eqb n 13 then bs +:+ "r"
  else if Nat.eqb n 9 then bs +:+ "t"
  else if Nat.ltb n 32 then
    bs +:+ "u00" +:+ hex_lower (Nat.div n 16) +:+ hex_lower (Nat.modulo n 16)
  else String c EmptyString.

Fixpoint escape (s : string) : string :=
  match s with
  | EmptyString => EmptyString
  | String c rest => escape_char c +:+ escape rest
  end.

Definition quote (s : string) : string := dq +:+ escape s +:+ dq.

(** SerializeJSONProperty without a gap; [None] is [undefined]. *)
Fixpoint compact (v : value) : option string :=
  match v with
  | VUndef => None
  | VNull => Some "null"
  | VBool true => Some "true"
  | VBool false => Some "false"
  | VNum z => Some (string_of_Z z)
  | VStr s => Some (quote s)
  | VArr items =>
      Some ("[" +:+ join_strings ","
                      (map (fun x => match compact x with
                                     | Some t => t
                                     | None => "null"
                                     end) items)
            +:+ "]")
  | VObj fields =>
      let fix members (l : list (string * value)) : list string :=
        match l with
        | [] => []
        | (k, x) :: rest =>
            match compact x with
            | Some t => (quote k +:+ ":" +:+ t) :: members rest
            | None => members rest
            end
        end in
      Some ("{" +:+ join_strings "," (members fields) +:+ "}")
  end.

(** The same with the gap [gap], at the indentation [indent]. *)
Fixpoint pretty (gap indent : string) (v : value) : option string :=
  match v with
  | VArr items =>
      match items with
      | [] => Some "[]"
      | _ =>
          Some ("[" +:+ nl +:+ indent +:+ gap
                +:+ join_strings ("," +:+ nl +:+ indent +:+ gap)
                      (map (fun x => match pretty gap (indent +:+ gap) x with
                                     | Some t => t
                                     | None => "null"
                                     end) items)
                +:+ nl +:+ indent +:+ "]")
      end
  | VObj fields =>
      let fix members (l : list (string * value)) : list string :=
        match l with
        | [] => []
        | (k, x) :: rest =>
            match pretty gap (indent +:+ gap) x with
            | Some t => (quote k +:+ ": " +:+ t) :: members rest
            | None => members rest
            end
        end in
      match members fields with
      | [] => Some "{}"
      | texts =>
          Some ("{" +:+ nl +:+ indent +:+ gap
                +:+ join_strings ("," +:+ nl +:+ indent +:+ gap) texts
                +:+ nl +:+ indent +:+ "}")
      end
  | _ => compact v
  end.

Fixpoint spaces (n : nat) : string :=
  match n with
  | 0 => EmptyString
  | S n' => String (Ascii.ascii_of_nat 32) (spaces n')
  end.

(** What a template literal shows of [JSON.stringify(v)] and of
    [JSON.stringify(v, null, n)]. *)
Definition shown (t : option string) : string :=
  match t with
  | Some text => text
  | None => "undefined"
  end.

Definition stringify (v : value) : string := shown (compact v).

Definition stringify_indent (v : value) (n : Z) : string :=
  if (n <? 1)%Z then shown (compact v)
  else shown (pretty (spaces (Z.to_nat (Z.min n 10))) "" v).

(** [encodeURIComponent]: every byte but those of the unreserved
    characters is written as a percent sign and two hexadecimal digits. *)
Definition unreserved (c : Ascii.ascii) : bool :=
  let n := Ascii.nat_of_ascii c in
  (Nat.leb 65 n && Nat.leb n 90) || (Nat.leb 97 n && Nat.leb n 122)
  || (Nat.leb 48 n && Nat.leb n 57)
  || bool_decide (n ∈ [45; 95; 46; 33; 126; 42; 39; 40; 41]).

Fixpoint encodeURIComponent (s : string) : string :=
  match s with
  | EmptyString => EmptyString
  | String c rest =>
      (if unreserved c then String c EmptyString
       else "%" +:+ hex_upper (Nat.div (Ascii.nat_of_ascii c) 16)
                +:+ hex_upper (Nat.modulo (Ascii.nat_of_ascii c) 16))
      +:+ encodeURIComponent rest
  end.

End Json.

(** ** A scripted page

    A small browser on which the driver can be run: a page has a url, the
    selectors that match a visible and enabled element, and the value of each
    field. It is used to evaluate the driver on concrete inputs. *)

Module Scripted.

Import Driver.

Record World := {
  url : string;
  present : list string;
  values : list (string * string);
}.

Definition is_present (selector : value) (w : World) : bool :=
  bool_decide (to_string selector ∈ present w).

Definition need (selector : value) : M World unit :=
  fun w => if is_present selector w then (Ret tt, w)
           else (Throw ("Timeout exceeded waiting for " +:+ to_string selector), w).

Fixpoint read (k : string) (l : list (string * string)) : string :=
  match l with
  | [] => ""
  | (k', v) :: rest => if String.eqb k k' then v else read k rest
  end.

(** The id an id selector names. *)
Definition id_of (sel : string) : string :=
  match sel with
  | String c rest => if Ascii.eqb c (Ascii.ascii_of_nat 35) then rest else ""
  | EmptyString => ""
  end.

(** What the callbacks of [page.$$eval] return for the element a selector
    of the page matches: the fields the callback of [clickElement] reads,
    and those the callback of [fillInput] reads. The element is a button,
    or a text input, with the id the selector names. *)
Definition element (fields : projection) (sel : string) : value :=
  match fields with
  | ClickableFields =>
      VObj [("tag", VStr "BUTTON"); ("type", VStr "submit"); ("text", VStr "");
            ("id", VStr (id_of sel)); ("class", VStr ""); ("name", VStr "");
            ("data-target", VStr ""); ("aria-label", VStr "")]
  | InputFields =>
      VObj [("tag", VStr "INPUT"); ("type", VStr "text"); ("name", VStr "");
            ("id", VStr (id_of sel)); ("placeholder", VStr ""); ("data-target", VStr "");
            ("aria-label", VStr ""); ("required", VBool false)]
  end.

Definition describe (fields : projection) (w : World) : value :=
  VArr (map (element fields) (present w)).

Definition env : Env World unit unit := {|
  chromium_launch := fun _ => ret tt;
  browser_newPage := fun _ => ret tt;
  browser_close := fun _ => ret tt;
  page_goto := fun _ u w =>
    (Ret tt, {| url := to_string u; present := present w; values := values w |});
  page_url := fun _ w => url w;
  page_title := fun _ => ret "Scripted page";
  page_content := fun _ => ret "<html></html>";
  page_waitForSelector := fun _ selector _ => need selector;
  page_waitForTimeout := fun _ _ => ret tt;
  page_fill := fun _ selector text =>
    need selector ;;;
    (fun w => (Ret tt, {| url := url w; present := present w;
                          values := (to_string selector, to_string text) :: values w |}));
  page_inputValue := fun _ selector =>
    need selector ;;; (fun w => (Ret (read (to_string selector) (values w)), w));
  page_screenshot := fun _ _ => ret tt;
  page_evalAll := fun _ _ fields w => (Ret (describe fields w), w);
  page_evaluate_inspect := fun _ _ w =>
    (Ret (VObj [("forms", VArr []); ("inputs", describe InputFields w);
                ("buttons", VArr [])]), w);
  keyboard_press := fun _ _ => ret tt;
  keyboard_type := fun _ _ => ret tt;
  locator_isVisible := fun _ selector w => (Ret (is_present selector w), w);
  locator_isEnabled := fun _ selector w => (Ret (is_present selector w), w);
  locator_scrollIntoViewIfNeeded := fun _ selector => need selector;
  locator_click := fun _ selector => need selector;
  locator_fill := fun _ selector text => need selector;
  locator_press := fun _ selector _ => need selector;
  coerced_min := fun _ b => b;
  coerced_gt := fun _ _ => false;
  encodeURIComponent := Json.encodeURIComponent;
  JSON_stringify := Json.stringify;
  JSON_stringify_indent := Json.stringify_indent;
|}.

(** The scripted page with the network down and no keyboard: navigation and
    key presses fail, the rest is as in [env]. *)
Definition offline : Env World unit unit := {|
  chromium_launch := chromium_launch env;
  browser_newPage := browser_newPage env;
  browser_close := browser_close env;
  page_goto := fun _ _ => throw "net::ERR_INTERNET_DISCONNECTED";
  page_url := page_url env;
  page_title := page_title env;
  page_content := page_content env;
  page_waitForSelector := page_waitForSelector env;
  page_waitForTimeout := page_waitForTimeout env;
  page_fill := page_fill env;
  page_inputValue := page_inputValue env;
  page_screenshot := page_screenshot env;
  page_evalAll := page_evalAll env;
  page_evaluate_inspect := page_evaluate_inspect env;
  keyboard_press := fun _ _ => throw "Keyboard is not attached";
  keyboard_type := keyboard_type env;
  locator_isVisible := locator_isVisible env;
  locator_isEnabled := locator_isEnabled env;
  locator_scrollIntoViewIfNeeded := locator_scrollIntoViewIfNeeded env;
  locator_click := locator_click env;
  locator_fill := locator_fill env;
  locator_press := locator_press env;
  coerced_min := coerced_min env;
  coerced_gt := coerced_gt env;
  encodeURIComponent := encodeURIComponent env;
  JSON_stringify := JSON_stringify env;
  JSON_stringify_indent := JSON_stringify_indent env;
|}.

(** The scripted browser that starts and cannot open a page. *)
Definition no_pages : Env World unit unit := {|
  chromium_launch := chromium_launch env;
  browser_newPage := fun _ => throw "Target page, context or browser has been closed";
  browser_close := browser_close env;
  page_goto := page_goto env;
  page_url := page_url env;
  page_title := page_title env;
  page_content := page_content env;
  page_waitForSelector := page_waitForSelector env;
  page_waitForTimeout := page_waitForTimeout env;
  page_fill := page_fill env;
  page_inputValue := page_inputValue env;
  page_screenshot := page_screenshot env;
  page_evalAll := page_evalAll env;
  page_evaluate_inspect := page_evaluate_inspect env;
  keyboard_press := keyboard_press env;
  keyboard_type := keyboard_type env;
  locator_isVisible := locator_isVisible env;
  locator_isEnabled := locator_isEnabled env;
  locator_scrollIntoViewIfNeeded := locator_scrollIntoViewIfNeeded env;
  locator_click := locator_click env;
  locator_fill := locator_fill env;
  locator_press := locator_press env;
  coerced_min := coerced_min env;
  coerced_gt := coerced_gt env;
  encodeURIComponent := encodeURIComponent env;
  JSON_stringify := JSON_stringify env;
  JSON_stringify_indent := JSON_stringify_indent env;
|}.

Definition page_at (u : string) (sels : list string) : World :=
  {| url := u; present := sels; values := [] |}.

(** The driver before [launch_browser], and with a page open. *)
Definition idle (w : World) : @St World unit unit :=
  {| srv := new_server; world := w |}.

Definition launched (log : list value) (w : World) : @St World unit unit :=
  {| srv := {| browser := Some tt; page := Some tt; actions := log |}; world := w |}.

End Scripted.

(** ** Runs on the scripted page *)

Module Scenario.

Import Driver Scripted.

(** A GitHub page on which the third site selector and the caller's own
    selector match, one on which nothing matches, and a form with one text
    field. *)
Definition github : World :=
  page_at "https://github.com/search" ["#query-builder-test"; "#go"].

Definition bare_github : World := page_at "https://github.com/" [].


Definition form : World := page_at "https://example.test/form" ["#name"].

Definition visited : list value := [navigate_record (VStr "https://github.com/")].

Definition on_github : St := launched visited github.
Definition on_bare_github : St := launched visited bare_github.
Definition on_form : St := launched [] form.
Definition before_launch : St := idle form.

Definition go : value := VObj [("selector", VStr "#go")].

Definition fill_quux : value := VObj [("selector", VStr "#name"); ("text", VStr "quux")].

Definition the_message {A} (r : outcome A) : string :=
  match r with
  | Throw m => m
  | Ret _ => ""
  end.

(** The error of a click that finds no candidate on [bare_github]. *)
Definition click_failure : string :=
  Eval vm_compute in the_message (dispatch env "click_element" go on_bare_github).1.

(** The error of the last candidate the click on [github] tries in vain. *)
Definition second_error : option string :=
  Eval vm_compute in Some (the_message (need (VStr ("input[name=" +:+ quoted "q" +:+ "]")) github).1).



Definition launch_action : list (string * value) :=
  [("name", VStr "launch_browser"); ("arguments", VObj [("headless", VBool false)])].


(** The search for a repository, and the records of the session so far. *)
Definition playwright : value := VStr "microsoft/playwright".

Definition search_action : value :=
  VObj [("name", VStr "github_search"); ("arguments", VObj [("query", playwright)])].

Definition click_action : value :=
  VObj [("name", VStr "click_element"); ("arguments", go)].

(** The driver after [launch_browser] and a visit of the form. *)
Definition after_visit : St :=
  Eval vm_compute in
    (callTool env "navigate_to" (VObj [("url", VStr "https://example.test/form")])
       (callTool env "launch_browser" (VObj []) before_launch).2).2.

(** The plan of a prompt: a click on an element that the bare page lacks. *)
Definition one_click : list value := [click_action].

(** The orchestrator before [startMCPServer] has seen the child ready. *)
Definition waiting : @Orchestrator.St St :=
  {| Orchestrator.this := Orchestrator.new_integration;
     Orchestrator.stdin := [];
     Orchestrator.outside := before_launch |}.

(** A bridge with the calls 1 and 2 outstanding. *)
Definition two_calls : Bridge.Bridge :=
  Bridge.run [Bridge.Call "tools/call" (VObj []); Bridge.Call "tools/call" (VObj [])]
    (Bridge.connected Bridge.new_bridge).

Definition failed_response (i : nat) (m : string) : list (string * value) :=
  [("jsonrpc", VStr "2.0"); ("id", VNum (Z.of_nat i));
   ("error", VObj [("code", VNum (-32603)); ("message", VStr m)])].

End Scenario.

(** ** What an operation may do to the fields of the server *)

Module Effects.

Import Driver.

Section WithEnv.

Context {World BrowserH PageH : Type}.
Variable E : Env World BrowserH PageH.

Local Abbreviation St := (@St World BrowserH PageH).

(** The states the driver goes through: it starts as the constructor leaves
    it, serves one call after the other, and the browser may move by itself
    between two calls. *)
Inductive reachable : St → Prop :=
  | reachable_new (w : World) : reachable {| srv := new_server; world := w |}
  | reachable_call (s : St) (name : string) (args : value) (r : outcome result)
      (s' : St) :
      reachable s → callTool E name args s = (r, s') → reachable s'
  | reachable_world (s : St) (w : World) :
      reachable s → reachable {| srv := srv s; world := w |}.

(** [c] leaves its state as it found it. *)
Definition pure {S A} (c : M S A) : Prop :=
  ∀ s r s', c s = (r, s') → s' = s.

(** [c] may act on the browser but leaves [this] as it found it. *)
Definition silent {A} (c : M St A) : Prop :=
  ∀ s r s', c s = (r, s') → srv s' = srv s.

(** [c] keeps [this.browser] and [this.page], leaves the log alone when it
    throws and when it returns a value in [quiet], and otherwise only
    extends the log. *)
Definition logs {A} (c : M St A) (quiet : A → Prop) : Prop :=
  ∀ s r s', c s = (r, s') →
    browser (srv s') = browser (srv s) ∧ page (srv s') = page (srv s) ∧
    match r with
    | Throw _ => actions (srv s') = actions (srv s)
    | Ret a => actions (srv s) `prefix_of` actions (srv s')
               ∧ (quiet a → actions (srv s') = actions (srv s))
    end.

Definition appends {A} (c : M St A) : Prop := logs c (fun _ => False).

(** [c] starts with the check of [this.page]. *)
Definition needs_page {A} (c : M St A) : Prop :=
  ∀ s, page (srv s) = None → c s = (Throw not_launched, s).

(** The candidate loop ended without returning. *)
Definition fell_through {A B} (r : A + B) : Prop :=
  match r with
  | inl _ => False
  | inr _ => True
  end.

(** The tools that start with the check of [this.page], and those among
    them whose arguments are read without optional chaining. *)
Definition page_tools : list string :=
  [ "navigate_to"; "click_element"; "fill_input"; "wait_for_element";
    "take_screenshot"; "github_search"; "inspect_page"; "get_page_content" ].

Definition strict_args_tools : list string :=
  [ "navigate_to"; "click_element"; "fill_input"; "wait_for_element";
    "github_search" ].



(** Every candidate of [cands] fails its attempt [att], one after the other
    from the world [w]; the result is the world the failures leave and the
    last error. *)
Fixpoint fail_all {A} (att : value → M World A) (cands : list value) (w : World)
    (lastError : option string) : option (World * option string) :=
  match cands with
  | [] => Some (w, lastError)
  | c :: rest =>
      match att c w with
      | (Ret _, _) => None
      | (Throw m, w1) => fail_all att rest w1 (Some m)
      end
  end.

(** The shape the candidate loops of [clickElement] and [fillInput] share:
    [att] is the attempt on the page, [record] the record pushed and
    [success] the result returned for the candidate that worked. *)
Fixpoint candidate_loop {A} (att : value → M World A) (record : value → A → value)
    (success : value → A → result) (cands : list value) (lastError : option string)
  : M St (result + option string) :=
  match cands with
  | [] => ret (inr lastError)
  | c :: rest =>
      try_catch
        (a <- lift (att c) ;;
         push_action (record c a) ;;;
         ret (inl (success c a)))
        (fun error => candidate_loop att record success rest (Some error))
  end.

(** The state after [record] is pushed and the browser has moved to [w]. *)
Definition pushed (s : St) (record : value) (w : World) : St :=
  {| srv := {| browser := browser (srv s); page := page (srv s);
               actions := actions (srv s) ++ [record] |};
     world := w |}.

Definition moved (s : St) (w : World) : St :=
  {| srv := srv s; world := w |}.

End WithEnv.

End Effects.

(** ** Further vocabulary for the driver's behaviour *)

Module Behaviour.

Import Driver Effects.

Section WithEnv.

Context {World BrowserH PageH : Type}.
Variable E : Env World BrowserH PageH.

Local Abbreviation St := (@St World BrowserH PageH).

(** A record in the driver's own format: an object whose [code] is a
    non-empty string. *)
Definition coded (record : value) : Prop :=
  ∃ code, field "code" record = VStr code ∧ code ≠ "" ∧ ∃ fields, record = VObj fields.

(** The line [generatePlaywrightTest] writes for a coded record. *)
Definition line_of (record : value) : string :=
  "  " +:+ to_string (field "code" record) +:+ nl.

Fixpoint script_lines (log : list value) : string :=
  match log with
  | [] => ""
  | record :: rest => line_of record +:+ script_lines rest
  end.

(** What the callback of [forEach] adds to the text for one action, when it
    returns. *)
Definition piece (action : value) : option string :=
  match @emit_action unit "" action tt with
  | (Ret added, _) => Some added
  | (Throw _, _) => None
  end.

Fixpoint pieces (items : list value) : option string :=
  match items with
  | [] => Some ""
  | action :: rest =>
      match piece action, pieces rest with
      | Some a, Some b => Some (a +:+ b)
      | _, _ => None
      end
  end.

(** [args?.headless ?? false], the argument the router gives [launchBrowser]. *)
Definition headless_of (args : value) : value :=
  nullish_or (match args with
              | VObj fields => lookup_field "headless" fields
              | _ => VUndef
              end) (VBool false).

(** The driver after a launch whose browser started and whose page did not
    open: [this.browser] is set, [this.page] is not. *)
Definition half_launched (s : St) (br : BrowserH) (w : World) : St :=
  {| srv := {| browser := Some br; page := page (srv s); actions := actions (srv s) |};
     world := w |}.

(** The results of [githubSearch]'s strategies. *)
Definition search_labels : list string :=
  searchSelectors ++ ["keyboard-shortcut"; "direct-url"].

(** The text of a successful search, and the report of a failed one. *)
Definition search_success (query : value) (used : string) : result :=
  text_result ("Successfully performed GitHub search for " +:+ quoted (to_string query)
               +:+ " using strategy: " +:+ used).

Definition search_report (cause currentUrl pageTitle : string) : string :=
  "GitHub search failed: " +:+ cause +:+ ". Current URL: " +:+ currentUrl
  +:+ ", Page title: " +:+ pageTitle.

(** What the [catch] of [githubSearch] throws for the error [cause], from
    the world [w]: the report with the url and the title of the page, or the
    error of [page.title()] when the title cannot be read. *)
Definition reported (p : PageH) (cause : string) (w : World) (m : string) (w' : World)
  : Prop :=
  page_title E p w = (Throw m, w')
  ∨ ∃ title, page_title E p w = (Ret title, w')
             ∧ m = search_report cause (page_url E p w) title.

(** The wait for the results after a search, with its fallback delay. *)
Definition results_wait (p : PageH) : M World unit :=
  try_catch
    (page_waitForSelector E p (VStr results_query)
       {| timeout := VNum 10000; state := None |})
    (fun _ => page_waitForTimeout E p 2000).

(** The strategies of [strategies] throw one after the other from [w]; the
    result is the world they leave and the last error. *)
Fixpoint strategies_fail (strategies : list (M World string)) (w : World)
    (lastError : option string) : option (World * option string) :=
  match strategies with
  | [] => Some (w, lastError)
  | strategy :: rest =>
      match strategy w with
      | (Ret _, _) => None
      | (Throw m, w1) => strategies_fail rest w1 (Some m)
      end
  end.

(** Tool calls made one after the other; the results are kept in order. *)
Fixpoint run_calls (calls : list (string * value)) (s : St)
  : list (outcome result) * St :=
  match calls with
  | [] => ([], s)
  | (name, args) :: rest =>
      let (r, s1) := callTool E name args s in
      let (rs, s2) := run_calls rest s1 in
      (r :: rs, s2)
  end.

(** A computation written for any state type that neither reads nor
    changes the state: it is given by what it does on the one-point state. *)
Definition free {A} (c : ∀ S, M S A) : Prop :=
  ∀ S (s : S), c S s = ((c unit tt).1, s).


(** The tools that neither touch the log nor the session. *)
Definition read_only_tools : list string :=
  [ "inspect_page"; "get_page_content"; "generate_test" ].

End WithEnv.

(** *** The site of a page, by its origin

    The words "the site-specific selectors for the current page's origin"
    read as a definition: the host of the url is the text between the
    scheme and the first of [/ ? # :], and a url is on a site when its host
    is the site's domain or ends with a dot and that domain. *)

Fixpoint after_scheme (url : string) : string :=
  match url with
  | EmptyString => EmptyString
  | String c rest =>
      if starts_with "://" url then String.substring 3 (String.length url) url
      else after_scheme rest
  end.

Definition ends_host (c : Ascii.ascii) : bool :=
  bool_decide (Ascii.nat_of_ascii c ∈ [47; 63; 35; 58]).

Fixpoint host_part (text : string) : string :=
  match text with
  | EmptyString => EmptyString
  | String c rest => if ends_host c then EmptyString else String c (host_part rest)
  end.

Definition host_of (url : string) : string := host_part (after_scheme url).

Fixpoint ends_with (s suffix : string) : bool :=
  String.eqb s suffix
  || match s with
     | EmptyString => false
     | String _ rest => ends_with rest suffix
     end.

Definition on_site (site url : string) : bool :=
  String.eqb (host_of url) site || ends_with (host_of url) ("." +:+ site).

Definition click_candidates_by_origin (url : string) (selector : value) : list value :=
  (if on_site "github.com" url then click_github else []) ++ [selector].

Definition fill_candidates_by_origin (url : string) (selector : value) : list value :=
  (if on_site "github.com" url then fill_github
   else if on_site "google.com" url then fill_google else []) ++ [selector].

(** *** Reading a generated line

    What the statement [await page.goto('...');] navigates to: the string
    its single-quoted literal denotes. The literal ends at the first quote
    that no backslash precedes and may not hold a line break; of the
    escapes, the single-character ones and the line continuation are read,
    a hexadecimal, Unicode or octal escape is not. [None] says that the
    line is not such a statement, or holds an escape that is not read. *)









(** *** The bridge *)



(** No listener registered on [b] finds its own id in the chunk. *)
Definition unclaimed (data : option value) (b : Bridge.Bridge) : Prop :=
  ∀ j fields, j ∈ Bridge.listeners b → data = Some (VObj fields) →
              lookup_field "id" fields ≠ VNum (Z.of_nat j).

End Behaviour.

Import Driver Effects Behaviour.

(** * Lemmas *)

(** ** Strings *)

Lemma append_assoc (a b c : string) : (a +:+ b) +:+ c = a +:+ (b +:+ c).
Proof.
  induction a as [|x a IH]; [reflexivity|].
  change (String x ((a +:+ b) +:+ c) = String x (a +:+ (b +:+ c))).
  now rewrite IH.
Qed.

Lemma append_empty_r (a : string) : a +:+ "" = a.
Proof.
  induction a as [|x a IH]; [reflexivity|].
  change (String x (a +:+ "") = String x a). now rewrite IH.
Qed.







Lemma string_forall_app (P : Ascii.ascii → bool) (a b : string) :
  Orchestrator.string_forall P (a +:+ b)
  = Orchestrator.string_forall P a && Orchestrator.string_forall P b.
Proof.
  induction a as [|x a IH]; [reflexivity|].
  change (P x && Orchestrator.string_forall P (a +:+ b)
          = P x && Orchestrator.string_forall P a && Orchestrator.string_forall P b).
  rewrite IH. now destruct (P x).
Qed.

Lemma string_length_app (a b : string) :
  String.length (a +:+ b) = String.length a + String.length b.
Proof.
  induction a as [|x a IH]; [reflexivity|].
  change (S (String.length (a +:+ b)) = S (String.length a + String.length b)).
  now rewrite IH.
Qed.

Lemma starts_with_app (p post : string) : starts_with p (p +:+ post) = true.
Proof.
  induction p as [|c p IH]; [reflexivity|].
  change (starts_with (String c p) (String c (p +:+ post)) = true).
  simpl. now rewrite Ascii.eqb_refl.
Qed.

Lemma starts_with_split (p s : string) :
  starts_with p s = true → ∃ post, s = p +:+ post.
Proof.
  revert s. induction p as [|c p IH]; intros s; [exists s; reflexivity|].
  destruct s as [|d s]; simpl; [discriminate|].
  destruct (Ascii.eqb_spec c d) as [<- | _]; [| discriminate].
  intros H. destruct (IH s H) as [post ->]. exists post. reflexivity.
Qed.

(** [includes] is the search for a substring anywhere in the text. *)
Lemma includes_contains (s needle : string) :
  includes s needle = true ↔ contains s needle.
Proof.
  split.
  - induction s as [|c s IH]; simpl.
    + destruct (starts_with needle "") eqn:Hs; [| discriminate].
      intros _. apply starts_with_split in Hs as [post Hs]. exists "", post. exact Hs.
    + destruct (starts_with needle (String c s)) eqn:Hs.
      * intros _. apply starts_with_split in Hs as [post Hs]. exists "", post. exact Hs.
      * intros H. destruct (IH H) as (pre & post & ->).
        exists (String c pre), post. reflexivity.
  - intros (pre & post & ->). induction pre as [|c pre IH].
    + change ("" +:+ needle +:+ post) with (needle +:+ post).
      destruct (needle +:+ post) eqn:Heq; simpl; rewrite <- Heq;
        now rewrite starts_with_app.
    + change (String c pre +:+ needle +:+ post)
        with (String c (pre +:+ needle +:+ post)).
      simpl. rewrite IH. now destruct (starts_with needle _).
Qed.

Lemma includes_not_contains (s needle : string) :
  includes s needle = false ↔ ¬ contains s needle.
Proof.
  rewrite <- includes_contains. destruct (includes s needle); split; congruence.
Qed.

(** *** Reading the literal of a generated line *)







(** ** The effect of the driver's operations on [this] *)

Section DriverProperties.

Context {World BrowserH PageH : Type}.
Variable E : Env World BrowserH PageH.

Local Abbreviation St := (@St World BrowserH PageH).

Lemma pure_ret {S A} (a : A) : pure (@ret S A a).
Proof. intros s r s' H. now inversion H. Qed.

Lemma pure_throw {S A} (m : string) : pure (@throw S A m).
Proof. intros s r s' H. now inversion H. Qed.

Lemma pure_bind {S A B} (c : M S A) (k : A → M S B) :
  pure c → (∀ a, pure (k a)) → pure (bind c k).
Proof.
  intros Hc Hk s r s' H. unfold bind in H.
  destruct (c s) as [[a|m] s1] eqn:Hcs.
  - apply Hk in H. apply Hc in Hcs. congruence.
  - inversion H; subst. eapply Hc, Hcs.
Qed.

Lemma pure_get_prop {S} (v : value) (k : string) : pure (@get_prop S v k).
Proof. destruct v; simpl; auto using pure_ret, pure_throw. Qed.

Lemma pure_error_message {S} (e : option string) : pure (@error_message S e).
Proof. destruct e; simpl; auto using pure_ret, pure_throw. Qed.

Ltac pure_tac :=
  repeat first
    [ apply pure_ret | apply pure_throw | apply pure_get_prop
    | apply pure_error_message
    | apply pure_bind; [| intros ?]
    | match goal with
      | |- pure (if ?b then _ else _) => destruct b
      | |- pure (match ?x with _ => _ end) => destruct x
      end ].

Lemma pure_convert {S} (action : value) :
  pure (@convertActionToPlaywrightCode S action).
Proof. unfold convertActionToPlaywrightCode. pure_tac. Qed.

Lemma pure_emit_action {S} (testCode : string) (action : value) :
  pure (@emit_action S testCode action).
Proof. unfold emit_action. pure_tac. Qed.

Lemma pure_forEach_emit {S} (items : list value) (testCode : string) :
  pure (@forEach_emit S testCode items).
Proof.
  revert testCode. induction items as [|a items IH]; intros testCode; simpl.
  - apply pure_ret.
  - apply pure_bind; [apply pure_emit_action | intros; apply IH].
Qed.

Lemma pure_generatePlaywrightTest {S} (testName description acts : value) :
  pure (@generatePlaywrightTest _ _ _ E S testName description acts).
Proof.
  unfold generatePlaywrightTest.
  apply pure_bind; [| intros; apply pure_ret].
  destruct (truthy acts); [| apply pure_ret].
  apply pure_bind; [apply pure_get_prop | intros len].
  destruct (gt E len (VNum 0)); [| apply pure_ret].
  destruct acts; auto using pure_throw, pure_forEach_emit.
Qed.

Lemma silent_pure {A} (c : M St A) : pure c → silent c.
Proof. intros H s r s' Hc. now rewrite (H _ _ _ Hc). Qed.

Lemma silent_lift {A} (c : M World A) : silent (lift c : M St A).
Proof.
  intros s r s' H. unfold lift in H.
  destruct (c (world s)). now inversion H.
Qed.

Lemma silent_bind {A B} (c : M St A) (k : A → M St B) :
  silent c → (∀ a, silent (k a)) → silent (bind c k).
Proof.
  intros Hc Hk s r s' H. unfold bind in H.
  destruct (c s) as [[a|m] s1] eqn:Hcs.
  - apply Hk in H. apply Hc in Hcs. congruence.
  - inversion H; subst. eapply Hc, Hcs.
Qed.

Lemma silent_try_catch {A} (c : M St A) (h : string → M St A) :
  silent c → (∀ m, silent (h m)) → silent (try_catch c h).
Proof.
  intros Hc Hh s r s' H. unfold try_catch in H.
  destruct (c s) as [[a|m] s1] eqn:Hcs.
  - inversion H; subst. eapply Hc, Hcs.
  - apply Hh in H. apply Hc in Hcs. congruence.
Qed.

Lemma silent_get_page : silent (@get_page World BrowserH PageH).
Proof. intros s r s' H. now inversion H. Qed.

Lemma silent_get_browser : silent (@get_browser World BrowserH PageH).
Proof. intros s r s' H. now inversion H. Qed.

Lemma silent_get_actions : silent (@get_actions World BrowserH PageH).
Proof. intros s r s' H. now inversion H. Qed.

Lemma silent_get_world : silent (@get_world World BrowserH PageH).
Proof. intros s r s' H. now inversion H. Qed.

Lemma silent_require_page : silent (@require_page World BrowserH PageH).
Proof.
  unfold require_page. apply silent_bind; [apply silent_get_page|].
  intros [p|]; apply silent_pure; auto using pure_ret, pure_throw.
Qed.

Ltac silent_tac :=
  repeat first
    [ apply silent_lift | apply silent_require_page | apply silent_get_world
    | apply silent_get_actions | apply silent_get_browser | apply silent_get_page
    | apply silent_bind; [| intros ?]
    | apply silent_try_catch; [| intros ?]
    | match goal with
      | |- silent (if ?b then _ else _) => destruct b
      | |- silent (match ?x with _ => _ end) => destruct x
      end
    | solve [apply silent_pure; pure_tac] ].

(** *** Rules for [logs] *)

Lemma logs_silent {A} (c : M St A) (quiet : A → Prop) : silent c → logs c quiet.
Proof.
  intros H s r s' Hc. rewrite (H _ _ _ Hc).
  destruct r; repeat split; auto.
Qed.

Lemma logs_bind_silent {A B} (c : M St A) (k : A → M St B) (quiet : B → Prop) :
  silent c → (∀ a, logs (k a) quiet) → logs (bind c k) quiet.
Proof.
  intros Hc Hk s r s' H. unfold bind in H.
  destruct (c s) as [[a|m] s1] eqn:Hcs.
  - apply Hk in H. apply Hc in Hcs. now rewrite Hcs in H.
  - inversion H; subst. rewrite (Hc _ _ _ Hcs). auto.
Qed.

Lemma logs_try_catch {A} (c : M St A) (h : string → M St A) (quiet : A → Prop) :
  logs c quiet → (∀ m, logs (h m) quiet) → logs (try_catch c h) quiet.
Proof.
  intros Hc Hh s r s' H. unfold try_catch in H.
  destruct (c s) as [[a|m] s1] eqn:Hcs.
  - inversion H; subst. exact (Hc _ _ _ Hcs).
  - apply Hh in H. apply Hc in Hcs.
    destruct Hcs as (Hb & Hp & Ha). rewrite Hb, Hp, Ha in H. exact H.
Qed.

Lemma logs_push_ret {A} (record : value) (a : A) (quiet : A → Prop) :
  ¬ quiet a → logs (push_action record ;;; ret a : M St A) quiet.
Proof.
  intros Hq s r s' H. inversion H; subst; simpl.
  repeat split; [by eexists | tauto].
Qed.

(** A loop that pushed returns at once; one that did not leaves the rest of
    the operation to go on. *)
Lemma logs_bind_quiet {A B} (c : M St A) (k : A → M St B)
    (quiet : A → Prop) (quiet' : B → Prop) :
  logs c quiet →
  (∀ a, quiet a → logs (k a) quiet') →
  (∀ a, ¬ quiet a → ∃ b, k a = ret b ∧ ¬ quiet' b) →
  (∀ a, quiet a ∨ ¬ quiet a) →
  logs (bind c k) quiet'.
Proof.
  intros Hc Hq Hn Hdec s r s' H. unfold bind in H.
  destruct (c s) as [[a|m] s1] eqn:Hcs.
  - apply Hc in Hcs. destruct Hcs as (Hb & Hp & Hpre & Hsame).
    destruct (Hdec a) as [Hqa | Hqa].
    + apply (Hq a Hqa) in H. rewrite Hb, Hp, (Hsame Hqa) in H. exact H.
    + destruct (Hn a Hqa) as (b & Hk & Hb'). rewrite Hk in H.
      inversion H; subst. repeat split; auto. tauto.
  - inversion H; subst. apply Hc in Hcs. tauto.
Qed.

Ltac logs_tac :=
  repeat first
    [ solve [apply logs_silent; silent_tac]
    | apply logs_push_ret; tauto
    | apply logs_bind_silent; [solve [silent_tac] | intros ?]
    | apply logs_try_catch; [| intros ?]
    | match goal with
      | |- logs (match ?x with _ => _ end) _ => destruct x
      end ].

(** *** The operations that need a page *)

Lemma fell_through_dec {A B} (r : A + B) : fell_through r ∨ ¬ fell_through r.
Proof. destruct r; simpl; tauto. Qed.

Lemma navigateTo_appends (url : value) : appends (navigateTo E url).
Proof. unfold appends, navigateTo. logs_tac. Qed.

Lemma click_loop_logs (p : PageH) (timeout : value) (cands : list value)
    (lastError : option string) :
  logs (click_loop E p timeout cands lastError) fell_through.
Proof.
  revert lastError. induction cands as [|c cands IH]; intros lastError; simpl.
  - apply logs_silent, silent_pure, pure_ret.
  - apply logs_try_catch; [| intros m; apply IH].
    apply logs_bind_silent; [apply silent_lift | intros _].
    apply logs_push_ret. simpl. tauto.
Qed.

Lemma click_exhausted_silent (p : PageH) (selector : value) (cands : list value)
    (lastError : option string) :
  silent (click_exhausted E p selector cands lastError).
Proof. unfold click_exhausted. silent_tac. Qed.

Lemma clickElement_appends (selector timeout : value) :
  appends (clickElement E selector timeout).
Proof.
  unfold appends, clickElement.
  apply logs_bind_silent; [apply silent_require_page | intros p].
  apply logs_bind_silent; [apply silent_get_world | intros w].
  eapply logs_bind_quiet.
  - apply click_loop_logs.
  - intros [res|e] Hq; [destruct Hq|].
    apply logs_silent, click_exhausted_silent.
  - intros [res|e] Hq; [| simpl in Hq; tauto]. eexists. split; [reflexivity | tauto].
  - apply fell_through_dec.
Qed.

Lemma fill_loop_logs (p : PageH) (text : value) (cands : list value)
    (lastError : option string) :
  logs (fill_loop E p text cands lastError) fell_through.
Proof.
  revert lastError. induction cands as [|c cands IH]; intros lastError; simpl.
  - apply logs_silent, silent_pure, pure_ret.
  - apply logs_try_catch; [| intros m; apply IH].
    apply logs_bind_silent; [apply silent_lift | intros v].
    apply logs_push_ret. simpl. tauto.
Qed.

Lemma fill_exhausted_silent (p : PageH) (selector : value) (cands : list value)
    (lastError : option string) :
  silent (fill_exhausted E p selector cands lastError).
Proof. unfold fill_exhausted. silent_tac. Qed.

Lemma fillInput_appends (selector text : value) :
  appends (fillInput E selector text).
Proof.
  unfold appends, fillInput.
  apply logs_bind_silent; [apply silent_require_page | intros p].
  apply logs_bind_silent; [apply silent_get_world | intros w].
  eapply logs_bind_quiet.
  - apply fill_loop_logs.
  - intros [res|e] Hq; [destruct Hq|].
    apply logs_silent, fill_exhausted_silent.
  - intros [res|e] Hq; [| simpl in Hq; tauto]. eexists. split; [reflexivity | tauto].
  - apply fell_through_dec.
Qed.

Lemma waitForElement_appends (selector timeout : value) :
  appends (waitForElement E selector timeout).
Proof. unfold appends, waitForElement. logs_tac. Qed.

Lemma takeScreenshot_appends (filename : value) :
  appends (takeScreenshot E filename).
Proof. unfold appends, takeScreenshot. logs_tac. Qed.

Lemma githubSearch_appends (query : value) : appends (githubSearch E query).
Proof. unfold appends, githubSearch. logs_tac. Qed.

Lemma inspectPage_silent (elementType : value) : silent (inspectPage E elementType).
Proof. unfold inspectPage. silent_tac. Qed.

Lemma getPageContent_silent : silent (getPageContent E).
Proof. unfold getPageContent. silent_tac. Qed.

Lemma generateTest_silent (testName description acts : value) :
  silent (generateTest E testName description acts).
Proof.
  unfold generateTest. apply silent_bind; [apply silent_get_actions | intros log].
  apply silent_bind; [| intros; apply silent_pure, pure_ret].
  apply silent_pure, pure_generatePlaywrightTest.
Qed.

(** *** Launch and close *)

Lemma launchBrowser_spec (headless : value) (s : St) (r : outcome result) (s' : St) :
  launchBrowser E headless s = (r, s') →
  match browser (srv s) with
  | Some _ => s' = s ∧ ∃ res, r = Ret res
  | None =>
      (∃ br pg, r = Ret (text_result ("Browser launched in "
                                      +:+ mode (default_arg headless (VBool false))
                                      +:+ " mode"))
                ∧ srv s' = {| browser := Some br; page := Some pg; actions := [] |})
      ∨ (∃ m, r = Throw m ∧ page (srv s') = page (srv s)
              ∧ actions (srv s') = actions (srv s))
  end.
Proof.
  unfold launchBrowser, bind, get_browser, lift, set_browser, set_page,
    set_actions, ret.
  destruct (browser (srv s)) as [b|] eqn:Hb; intros H.
  - inversion H; subst. eauto.
  - destruct (chromium_launch E _ (world s)) as [[br|m] w1]; simpl in H.
    + destruct (browser_newPage E br w1) as [[pg|m] w2]; simpl in H;
        inversion H; subst; simpl; eauto 8.
    + inversion H; subst; simpl; eauto 8.
Qed.

Lemma closeBrowser_spec (s : St) (r : outcome result) (s' : St) :
  closeBrowser E s = (r, s') →
  match browser (srv s) with
  | Some _ =>
      (r = Ret (text_result "Browser closed successfully") ∧ srv s' = new_server)
      ∨ (∃ m, r = Throw m ∧ srv s' = srv s)
  | None => s' = s ∧ r = Ret (text_result "No browser to close")
  end.
Proof.
  unfold closeBrowser, bind, get_browser, lift, set_browser, set_page,
    set_actions, ret.
  destruct (browser (srv s)) as [b|] eqn:Hb; intros H.
  - destruct (browser_close E b (world s)) as [[[]|m] w1]; simpl in H;
      inversion H; subst; simpl; eauto.
  - inversion H; subst. eauto.
Qed.

(** *** The router *)

Ltac in_list := apply (bool_decide_unpack _); vm_compute; exact I.

Ltac case_name name :=
  repeat match goal with
         | |- context [String.eqb name ?c] =>
             destruct (String.eqb_spec name c); [subst name |]
         | H : context [String.eqb name ?c] |- _ =>
             destruct (String.eqb_spec name c); [subst name |]
         end.

Lemma silent_get_prop_opt (v : value) (k : string) :
  silent (get_prop_opt v k : M St value).
Proof. destruct v; simpl; silent_tac. Qed.

Lemma dispatch_appends (name : string) (args : value) :
  name ≠ "launch_browser" → name ≠ "close_browser" →
  appends (dispatch E name args).
Proof.
  intros Hl Hc. unfold appends, dispatch. case_name name; try congruence.
  - apply logs_bind_silent; [silent_tac | intros]. apply navigateTo_appends.
  - do 2 (apply logs_bind_silent; [silent_tac | intros]). apply clickElement_appends.
  - do 2 (apply logs_bind_silent; [silent_tac | intros]). apply fillInput_appends.
  - do 2 (apply logs_bind_silent; [silent_tac | intros]). apply waitForElement_appends.
  - apply logs_bind_silent; [apply silent_get_prop_opt | intros].
    apply takeScreenshot_appends.
  - apply logs_bind_silent; [silent_tac | intros]. apply githubSearch_appends.
  - apply logs_bind_silent; [apply silent_get_prop_opt | intros].
    apply logs_silent, inspectPage_silent.
  - apply logs_silent, getPageContent_silent.
  - do 3 (apply logs_bind_silent; [silent_tac | intros]).
    apply logs_silent, generateTest_silent.
  - apply logs_silent, silent_pure, pure_throw.
Qed.

Lemma dispatch_launch (args : value) (s : St) :
  dispatch E "launch_browser" args s
  = launchBrowser E (nullish_or (match args with
                                 | VObj fields => lookup_field "headless" fields
                                 | _ => VUndef
                                 end) (VBool false)) s.
Proof. destruct args; reflexivity. Qed.

Lemma dispatch_close (args : value) (s : St) :
  dispatch E "close_browser" args s = closeBrowser E s.
Proof. reflexivity. Qed.

Lemma dispatch_unknown (name : string) (args : value) (s : St) :
  name ∉ tool_names →
  dispatch E name args s = (Throw ("Unknown tool: " +:+ name), s).
Proof.
  intros Hn. unfold dispatch. case_name name; try (exfalso; apply Hn; in_list).
  reflexivity.
Qed.

Lemma callTool_dispatch (name : string) (args : value) (s : St)
    (r : outcome result) (s' : St) :
  callTool E name args s = (r, s') →
  ∃ r0, dispatch E name args s = (r0, s')
        ∧ r = match r0 with
              | Ret res => Ret res
              | Throw m => Ret (error_result name m)
              end.
Proof.
  unfold callTool, try_catch. intros H.
  destruct (dispatch E name args s) as [[res|m] s1]; inversion H; subst; eauto.
Qed.

(** *** Without a page *)

Lemma require_page_none (s : St) :
  page (srv s) = None → require_page s = (Throw not_launched, s).
Proof. intros H. unfold require_page, bind, get_page. now rewrite H. Qed.

Lemma bind_require_page_none {A} (k : PageH → M St A) (s : St) :
  page (srv s) = None → bind require_page k s = (Throw not_launched, s).
Proof. intros H. unfold bind. now rewrite require_page_none. Qed.

Lemma get_prop_cases {S} (v : value) (k : string) (s : S) :
  (∃ x, get_prop v k s = (Ret x, s))
  ∨ (∃ m, get_prop v k s = (Throw m, s) ∧ (v = VUndef ∨ v = VNull)).
Proof. destruct v; simpl; unfold ret, throw; eauto. Qed.

Lemma get_prop_opt_returns {S} (v : value) (k : string) (s : S) :
  ∃ x, get_prop_opt v k s = (Ret x, s).
Proof. destruct v; simpl; unfold ret; eauto. Qed.

Lemma needs_page_strict1 {A} (args : value) (k : string) (op : value → M St A)
    (s : St) :
  (∀ x, needs_page (op x)) → page (srv s) = None →
  ∃ m, bind (get_prop args k) op s = (Throw m, s)
       ∧ (args ≠ VUndef ∧ args ≠ VNull → m = not_launched).
Proof.
  intros Hop Hp. unfold bind.
  destruct (get_prop_cases args k s) as [[x ->] | (m & -> & Hv)].
  - rewrite (Hop x s Hp). eauto.
  - exists m. split; [reflexivity|]. intros [? ?]. destruct Hv; congruence.
Qed.

Lemma needs_page_strict2 {A} (args : value) (k1 k2 : string)
    (op : value → value → M St A) (s : St) :
  (∀ x y, needs_page (op x y)) → page (srv s) = None →
  ∃ m, bind (get_prop args k1) (fun x => bind (get_prop args k2) (op x)) s
       = (Throw m, s)
       ∧ (args ≠ VUndef ∧ args ≠ VNull → m = not_launched).
Proof.
  intros Hop Hp. unfold bind at 1.
  destruct (get_prop_cases args k1 s) as [[x ->] | (m & -> & Hv)].
  - apply needs_page_strict1; auto.
  - exists m. split; [reflexivity|]. intros [? ?]. destruct Hv; congruence.
Qed.

Lemma needs_page_opt {A} (args : value) (k : string) (op : value → M St A)
    (s : St) :
  (∀ x, needs_page (op x)) → page (srv s) = None →
  bind (get_prop_opt args k) op s = (Throw not_launched, s).
Proof.
  intros Hop Hp. unfold bind.
  destruct (get_prop_opt_returns args k s) as [x ->]. apply Hop, Hp.
Qed.

Ltac needs_page_tac := intros s Hp; apply bind_require_page_none, Hp.

Lemma navigateTo_needs_page (url : value) : needs_page (navigateTo E url).
Proof. needs_page_tac. Qed.

Lemma clickElement_needs_page (selector timeout : value) :
  needs_page (clickElement E selector timeout).
Proof. needs_page_tac. Qed.

Lemma fillInput_needs_page (selector text : value) :
  needs_page (fillInput E selector text).
Proof. needs_page_tac. Qed.

Lemma waitForElement_needs_page (selector timeout : value) :
  needs_page (waitForElement E selector timeout).
Proof. needs_page_tac. Qed.

Lemma takeScreenshot_needs_page (filename : value) :
  needs_page (takeScreenshot E filename).
Proof. needs_page_tac. Qed.

Lemma githubSearch_needs_page (query : value) : needs_page (githubSearch E query).
Proof. needs_page_tac. Qed.

Lemma inspectPage_needs_page (elementType : value) :
  needs_page (inspectPage E elementType).
Proof. needs_page_tac. Qed.

Lemma getPageContent_needs_page : needs_page (getPageContent E).
Proof. needs_page_tac. Qed.

Lemma dispatch_no_page (name : string) (args : value) (s : St) :
  page (srv s) = None → name ∈ page_tools →
  ∃ m, dispatch E name args s = (Throw m, s)
       ∧ ((args ≠ VUndef ∧ args ≠ VNull) ∨ name ∉ strict_args_tools
          → m = not_launched).
Proof.
  intros Hp Hin. unfold page_tools in Hin.
  assert (Hstrict : ∀ m : string,
             name ∈ strict_args_tools →
             (args ≠ VUndef ∧ args ≠ VNull → m = not_launched) →
             (args ≠ VUndef ∧ args ≠ VNull) ∨ name ∉ strict_args_tools →
             m = not_launched).
  { intros m Hs Hm [Ha | Hn]; [auto | contradiction]. }
  repeat (apply elem_of_cons in Hin as [-> | Hin]); [.. | inversion Hin].
  - destruct (needs_page_strict1 args "url" (navigateTo E) s
                navigateTo_needs_page Hp) as (m & Hm & Hnl).
    exists m. split; [exact Hm | apply Hstrict; [in_list | exact Hnl]].
  - destruct (needs_page_strict2 args "selector" "timeout" (clickElement E) s
                clickElement_needs_page Hp) as (m & Hm & Hnl).
    exists m. split; [exact Hm | apply Hstrict; [in_list | exact Hnl]].
  - destruct (needs_page_strict2 args "selector" "text" (fillInput E) s
                fillInput_needs_page Hp) as (m & Hm & Hnl).
    exists m. split; [exact Hm | apply Hstrict; [in_list | exact Hnl]].
  - destruct (needs_page_strict2 args "selector" "timeout" (waitForElement E) s
                waitForElement_needs_page Hp) as (m & Hm & Hnl).
    exists m. split; [exact Hm | apply Hstrict; [in_list | exact Hnl]].
  - exists not_launched. split; [| reflexivity].
    apply (needs_page_opt args "filename" (takeScreenshot E) s
             takeScreenshot_needs_page Hp).
  - destruct (needs_page_strict1 args "query" (githubSearch E) s
                githubSearch_needs_page Hp) as (m & Hm & Hnl).
    exists m. split; [exact Hm | apply Hstrict; [in_list | exact Hnl]].
  - exists not_launched. split; [| reflexivity].
    apply (needs_page_opt args "elementType"
             (fun t => inspectPage E (or_else t (VStr "all"))) s
             (fun t => inspectPage_needs_page _) Hp).
  - exists not_launched. split; [| reflexivity].
    apply getPageContent_needs_page, Hp.
Qed.

(** *** The states the driver goes through *)

Lemma dispatch_page_tool_or_not (name : string) :
  name ∈ page_tools ∨ name = "launch_browser" ∨ name = "close_browser"
  ∨ name = "generate_test" ∨ name ∉ tool_names.
Proof.
  destruct (decide (name ∈ page_tools)) as [|Hn]; [now left | right].
  destruct (decide (name = "launch_browser")); [now left | right].
  destruct (decide (name = "close_browser")); [now left | right].
  destruct (decide (name = "generate_test")); [now left | right].
  intros Hin. unfold tool_names in Hin.
  repeat (apply elem_of_cons in Hin as [-> | Hin]);
    try congruence; try (apply Hn; in_list).
  inversion Hin.
Qed.

Lemma dispatch_keeps_log_without_page (name : string) (args : value) (s : St)
    (r : outcome result) (s' : St) :
  page (srv s) = None → name ≠ "launch_browser" → name ≠ "close_browser" →
  dispatch E name args s = (r, s') → srv s' = srv s.
Proof.
  intros Hp Hl Hc H.
  destruct (dispatch_page_tool_or_not name) as [Hin | [? | [? | [-> | Hn]]]];
    try congruence.
  - destruct (dispatch_no_page name args s Hp Hin) as (m & Hm & _).
    rewrite Hm in H. now inversion H.
  - revert H. unfold dispatch. simpl String.eqb. cbv iota.
    change (dispatch E "generate_test" args s = (r, s') → srv s' = srv s).
    assert (Hs : silent (dispatch E "generate_test" args)).
    { change (silent (testName <- get_prop args "testName" ;;
                      description <- get_prop args "description" ;;
                      acts <- get_prop args "actions" ;;
                      generateTest E testName description acts)).
      do 3 (apply silent_bind; [silent_tac | intros]).
      apply generateTest_silent. }
    apply Hs.
  - rewrite (dispatch_unknown name args s Hn) in H. now inversion H.
Qed.

Lemma reachable_invariant (s : St) :
  reachable E s →
  browser (srv s) = None → page (srv s) = None ∧ actions (srv s) = [].
Proof.
  induction 1 as [w | s name args r s' Hr IH Hcall | s w Hr IH]; simpl; auto.
  apply callTool_dispatch in Hcall as (r0 & Hd & _).
  destruct (decide (name = "launch_browser")) as [-> | Hl].
  { rewrite dispatch_launch in Hd. apply launchBrowser_spec in Hd.
    destruct (browser (srv s)) as [b|] eqn:Hb.
    - destruct Hd as [-> _]. rewrite Hb. discriminate.
    - destruct Hd as [(br & pg & _ & ->) | (m & _ & Hp & Ha)]; [discriminate|].
      rewrite Hp, Ha. intros _. now apply IH. }
  destruct (decide (name = "close_browser")) as [-> | Hc].
  { rewrite dispatch_close in Hd. apply closeBrowser_spec in Hd.
    destruct (browser (srv s)) as [b|] eqn:Hb.
    - destruct Hd as [[_ ->] | (m & _ & ->)]; [simpl; auto|].
      rewrite Hb. discriminate.
    - destruct Hd as [-> _]. rewrite Hb. intros _. now apply IH. }
  intros Hb'.
  destruct (dispatch_appends name args Hl Hc s r0 s' Hd) as (Hb & Hp & _).
  rewrite Hb in Hb'. destruct (IH Hb') as [Hpage Hlog].
  rewrite (dispatch_keeps_log_without_page name args s r0 s' Hpage Hl Hc Hd).
  auto.
Qed.

(** * The claims about the driver *)

(** C10. Whatever tool is dispatched, with whatever arguments and in
    whatever state, if the operation throws (the missing-page check, the
    exhaustion of the candidate selectors, or an error of the browser), the
    action log is the one the operation started with: a record is pushed
    only after the browser action it records has succeeded. *)
Theorem failure_leaves_log_unchanged (name : string) (args : value) (s : St)
    (m : string) (s' : St) :
  dispatch E name args s = (Throw m, s') →
  actions (srv s') = actions (srv s).
Proof.
  intros H.
  destruct (decide (name = "launch_browser")) as [-> | Hl].
  { rewrite dispatch_launch in H. apply launchBrowser_spec in H.
    destruct (browser (srv s)).
    - destruct H as [_ [res Hres]]. discriminate.
    - destruct H as [(br & pg & Hr & _) | (m' & _ & _ & Ha)];
        [discriminate | exact Ha]. }
  destruct (decide (name = "close_browser")) as [-> | Hc].
  { rewrite dispatch_close in H. apply closeBrowser_spec in H.
    destruct (browser (srv s)).
    - destruct H as [[Hr _] | (m' & _ & Hs)]; [discriminate | now rewrite Hs].
    - destruct H as [_ Hr]. discriminate. }
  apply (dispatch_appends name args Hl Hc s (Throw m) s' H).
Qed.

(** C6. A call of a tool other than [launch_browser] and [close_browser]
    keeps the session and only extends the log: the records already there
    stay, in place and unchanged. [launch_browser] with a browser running
    changes nothing (relaunch is idempotent); without one, when the browser
    starts and its page opens, it answers that the browser was launched and
    the server holds that browser, that page and an empty log; when either
    step fails it answers with the error and leaves the log alone.
    [close_browser] with a browser whose close succeeds answers that the
    browser was closed and resets the server to no session and an empty log;
    when the close fails it answers with the error and leaves the server
    alone; without a browser it changes nothing, and in every state the
    driver can reach the log is empty after a close that did not fail. *)
Theorem log_is_append_only_between_launch_and_close (name : string)
    (args : value) (s : St) (r : outcome result) (s' : St) :
  callTool E name args s = (r, s') →
  (name ≠ "launch_browser" → name ≠ "close_browser" →
   browser (srv s') = browser (srv s) ∧ page (srv s') = page (srv s)
   ∧ actions (srv s) `prefix_of` actions (srv s'))
  ∧ (name = "launch_browser" →
     match browser (srv s) with
     | Some _ => s' = s
     | None =>
         (∃ br pg, srv s' = {| browser := Some br; page := Some pg; actions := [] |})
         ∨ (actions (srv s') = actions (srv s) ∧ ∃ m, r = Ret (error_result name m))
     end)
  ∧ (name = "launch_browser" → browser (srv s) = None →
     ∀ br w1 pg w2,
       chromium_launch E (headless_of args) (world s) = (Ret br, w1) →
       browser_newPage E br w1 = (Ret pg, w2) →
       r = Ret (text_result ("Browser launched in " +:+ mode (headless_of args)
                             +:+ " mode"))
       ∧ s' = {| srv := {| browser := Some br; page := Some pg; actions := [] |};
                 world := w2 |})
  ∧ (name = "close_browser" →
     match browser (srv s) with
     | Some _ =>
         srv s' = new_server
         ∨ (srv s' = srv s ∧ ∃ m, r = Ret (error_result name m))
     | None => s' = s
     end)
  ∧ (name = "close_browser" →
     ∀ b w1,
       browser (srv s) = Some b →
       browser_close E b (world s) = (Ret tt, w1) →
       r = Ret (text_result "Browser closed successfully")
       ∧ s' = {| srv := new_server; world := w1 |})
  ∧ (name = "close_browser" → reachable E s →
     (∀ m, r ≠ Ret (error_result name m)) → actions (srv s') = []).
Proof.
  intros Hcall. pose proof Hcall as Hwhole.
  apply callTool_dispatch in Hcall as (r0 & Hd & Hr).
  assert (Hclose : name = "close_browser" →
            match browser (srv s) with
            | Some _ =>
                srv s' = new_server
                ∨ (srv s' = srv s ∧ ∃ m, r = Ret (error_result name m))
            | None => s' = s
            end).
  { intros ->. rewrite dispatch_close in Hd. apply closeBrowser_spec in Hd.
    destruct (browser (srv s)).
    - destruct Hd as [[_ Hs] | (m & -> & Hs)]; [now left | right; eauto].
    - tauto. }
  split; [| split; [| split; [| split; [| split]]]]; auto.
  - intros Hl Hc.
    destruct (dispatch_appends name args Hl Hc s r0 s' Hd) as (Hb & Hp & Ha).
    repeat split; auto.
    destruct r0; [tauto | rewrite Ha; reflexivity].
  - intros ->. rewrite dispatch_launch in Hd. apply launchBrowser_spec in Hd.
    destruct (browser (srv s)).
    + tauto.
    + destruct Hd as [(br & pg & _ & Hs) | (m & -> & _ & Ha)]; [left | right]; eauto.
  - intros -> Hb br w1 pg w2 Hlaunch Hpage.
    assert (Hdef : default_arg (headless_of args) (VBool false) = headless_of args).
    { unfold headless_of. destruct args; try reflexivity.
      simpl. destruct (lookup_field "headless" fields); reflexivity. }
    revert Hwhole. unfold callTool, try_catch. rewrite dispatch_launch.
    fold (headless_of args). unfold launchBrowser. rewrite Hdef.
    unfold bind, get_browser, lift, set_browser, set_page, set_actions, ret.
    rewrite Hb. cbn [world srv]. rewrite Hlaunch. cbn [world srv]. rewrite Hpage.
    cbn [world srv browser page actions]. intros H. inversion H. auto.
  - intros -> b w1 Hb Hclosed.
    revert Hwhole. unfold callTool, try_catch. rewrite dispatch_close.
    unfold closeBrowser, bind, get_browser, lift, set_browser, set_page, set_actions,
      ret.
    rewrite Hb. rewrite Hclosed. cbn [world srv]. intros H. inversion H. auto.
  - intros Hn Hreach Hok. specialize (Hclose Hn).
    destruct (browser (srv s)) eqn:Hb.
    + destruct Hclose as [-> | (_ & m & Hm)]; [reflexivity|].
      exfalso. exact (Hok m Hm).
    + subst s'. now apply reachable_invariant.
Qed.

(** C3 (as amended). With no page held, a call of navigate_to,
    click_element, fill_input, wait_for_element, take_screenshot,
    github_search, inspect_page or get_page_content returns an error result
    and leaves the state as it was. The message is the one of the missing
    session when the arguments are an object, and also when they are not but
    the tool reads them with optional chaining; close_browser with no
    browser returns its nothing-to-close result, which is not an error. *)
Theorem page_tools_need_a_session (name : string) (args : value) (s : St) :
  page (srv s) = None → name ∈ page_tools →
  (∃ m, callTool E name args s = (Ret (error_result name m), s))
  ∧ ((args ≠ VUndef ∧ args ≠ VNull) ∨ name ∉ strict_args_tools →
     callTool E name args s
     = (Ret (text_result ("Error executing " +:+ name +:+ ": "
                          +:+ "Browser not launched. Call launch_browser first.")), s))
  ∧ (browser (srv s) = None →
     callTool E "close_browser" args s = (Ret (text_result "No browser to close"), s)).
Proof.
  intros Hp Hin.
  destruct (dispatch_no_page name args s Hp Hin) as (m & Hm & Hnl).
  assert (Hcall : callTool E name args s = (Ret (error_result name m), s)).
  { unfold callTool, try_catch. now rewrite Hm. }
  split; [eauto | split].
  - intros Hargs. rewrite Hcall, (Hnl Hargs). reflexivity.
  - intros Hb. unfold callTool, try_catch. rewrite dispatch_close.
    unfold closeBrowser, bind, get_browser. now rewrite Hb.
Qed.

(** C2 (as amended). [callTool] never throws: it always returns a result.
    When the dispatched operation throws an error with message [m], the
    result is the envelope with the single item of type text and the text
    Error executing <tool>: <m>; a tool name outside the catalog is such a
    case, with the message Unknown tool: <name>. *)
Theorem callTool_returns_error_envelope (name : string) (args : value) (s : St) :
  (∃ r s', callTool E name args s = (Ret r, s'))
  ∧ (∀ m s', dispatch E name args s = (Throw m, s') →
     callTool E name args s
     = (Ret {| content := [ {| type := "text";
                               text := "Error executing " +:+ name +:+ ": " +:+ m |} ] |},
        s'))
  ∧ (name ∉ tool_names →
     callTool E name args s
     = (Ret {| content := [ {| type := "text";
                               text := "Error executing " +:+ name +:+ ": "
                                       +:+ "Unknown tool: " +:+ name |} ] |},
        s)).
Proof.
  unfold callTool, try_catch. split; [| split].
  - destruct (dispatch E name args s) as [[res|m] s1]; eauto.
  - intros m s' ->. reflexivity.
  - intros Hn. rewrite (dispatch_unknown name args s Hn). reflexivity.
Qed.

(** ** Selector resolution *)

Lemma moved_same (s : St) : moved s (world s) = s.
Proof. destruct s; reflexivity. Qed.

Section CandidateLoop.

Context {A : Type}.
Variable att : value → M World A.
Variable record : value → A → value.
Variable success : value → A → result.


Lemma candidate_loop_first_success (pre : list value) (cur : value)
    (post : list value) (lastError : option string) (s : St) (w1 : World)
    (e : option string) (a : A) (w2 : World) :
  fail_all att pre (world s) lastError = Some (w1, e) →
  att cur w1 = (Ret a, w2) →
  candidate_loop att record success (pre ++ cur :: post) lastError s
  = (Ret (inl (success cur a)), pushed s (record cur a) w2).
Proof.
  revert lastError s. induction pre as [|c pre IH]; intros lastError s; simpl.
  - intros H Ha. inversion H; subst.
    unfold try_catch, bind, lift. rewrite Ha. reflexivity.
  - unfold try_catch, bind, lift.
    destruct (att c (world s)) as [[a'|m] w'] eqn:Hc; [discriminate|].
    intros H Ha. apply (IH (Some m) (moved s w') H Ha).
Qed.

Lemma candidate_loop_returned (cands : list value) (lastError : option string)
    (s : St) (res : result) (s' : St) :
  candidate_loop att record success cands lastError s = (Ret (inl res), s') →
  ∃ pre cur post w1 e a,
    cands = pre ++ cur :: post
    ∧ fail_all att pre (world s) lastError = Some (w1, e)
    ∧ att cur w1 = (Ret a, world s')
    ∧ res = success cur a
    ∧ s' = pushed s (record cur a) (world s').
Proof.
  revert lastError s. induction cands as [|c cands IH]; intros lastError s; simpl.
  - intros H. inversion H.
  - unfold try_catch, bind, lift.
    destruct (att c (world s)) as [[a|m] w'] eqn:Hc.
    + intros H. inversion H; subst.
      exists [], c, cands, (world s), lastError, a. simpl. auto.
    + intros H. apply IH in H as (pre & cur & post & w1 & e & a & -> & Hf & Ha & Hr & Hs).
      exists (c :: pre), cur, post, w1, e, a. simpl. rewrite Hc. auto.
Qed.

Lemma candidate_loop_fell_through (cands : list value) (lastError : option string)
    (s : St) (e : option string) (s' : St) :
  candidate_loop att record success cands lastError s = (Ret (inr e), s') →
  fail_all att cands (world s) lastError = Some (world s', e) ∧ s' = moved s (world s').
Proof.
  revert lastError s. induction cands as [|c cands IH]; intros lastError s; simpl.
  - intros H. inversion H; subst. now rewrite moved_same.
  - unfold try_catch, bind, lift.
    destruct (att c (world s)) as [[a|m] w'] eqn:Hc.
    + intros H. inversion H.
    + intros H. apply IH in H. exact H.
Qed.

Lemma candidate_loop_returns (cands : list value) (lastError : option string) (s : St) :
  ∃ r s', candidate_loop att record success cands lastError s = (Ret r, s').
Proof.
  revert lastError s. induction cands as [|c cands IH]; intros lastError s; simpl.
  - unfold ret. eauto.
  - unfold try_catch, bind, lift.
    destruct (att c (world s)) as [[a|m] w'] eqn:Hc; simpl; eauto.
Qed.


End CandidateLoop.

Lemma click_loop_shape (p : PageH) (timeout : value) (cands : list value)
    (lastError : option string) (s : St) :
  click_loop E p timeout cands lastError s
  = candidate_loop (click_attempt E p timeout) (fun c _ => click_record c)
      (fun c _ => click_success c) cands lastError s.
Proof.
  revert lastError s. induction cands as [|c cands IH]; intros lastError s; simpl;
    [reflexivity|].
  unfold try_catch.
  destruct ((lift (click_attempt E p timeout c) ;;;
             push_action (click_record c) ;;; ret (inl (click_success c))) s)
    as [[r|m] s1]; [reflexivity | apply IH].
Qed.

Lemma fill_loop_shape (p : PageH) (text : value) (cands : list value)
    (lastError : option string) (s : St) :
  fill_loop E p text cands lastError s
  = candidate_loop (fun c => fill_attempt E p c text) (fun c v => fill_record c text v)
      (fun c v => fill_success c text v) cands lastError s.
Proof.
  revert lastError s. induction cands as [|c cands IH]; intros lastError s; simpl;
    [reflexivity|].
  unfold try_catch.
  destruct ((filledValue <- lift (fill_attempt E p c text) ;;
             push_action (fill_record c text filledValue) ;;;
             ret (inl (fill_success c text filledValue))) s)
    as [[r|m] s1]; [reflexivity | apply IH].
Qed.



Lemma click_exhausted_throws (p : PageH) (selector : value) (cands : list value)
    (e : option string) (s : St) :
  ∃ m s', click_exhausted E p selector cands e s = (Throw m, s').
Proof.
  unfold click_exhausted, try_catch, bind, lift, error_message, throw, ret.
  destruct (page_evalAll E p clickable_query ClickableFields (world s))
    as [[els|m] w2]; destruct e; eauto.
Qed.

Lemma fill_exhausted_throws (p : PageH) (selector : value) (cands : list value)
    (e : option string) (s : St) :
  ∃ m s', fill_exhausted E p selector cands e s = (Throw m, s').
Proof.
  unfold fill_exhausted, try_catch, bind, lift, error_message, throw, ret.
  destruct (page_evalAll E p input_query InputFields (world s))
    as [[els|m] w2]; destruct e; eauto.
Qed.

(** [clickElement] and [fillInput] once the page is there. *)
Lemma clickElement_with_page (selector timeout : value) (s : St) (p : PageH) :
  page (srv s) = Some p →
  clickElement E selector timeout s
  = (let cands := click_selectorsToTry (page_url E p (world s)) selector in
     match candidate_loop (click_attempt E p (default_arg timeout (VNum 30000)))
             (fun c _ => click_record c) (fun c _ => click_success c) cands None s with
     | (Ret (inl res), s1) => (Ret res, s1)
     | (Ret (inr e), s1) => click_exhausted E p selector cands e s1
     | (Throw m, s1) => (Throw m, s1)
     end).
Proof.
  intros Hp. unfold clickElement, bind at 1, require_page, bind at 1, get_page.
  rewrite Hp. unfold ret at 1, bind at 1, get_world, bind at 1.
  rewrite click_loop_shape. cbv zeta.
  destruct (candidate_loop _ _ _ _ _ s) as [[[res|e]|m] s1]; reflexivity.
Qed.

Lemma fillInput_with_page (selector text : value) (s : St) (p : PageH) :
  page (srv s) = Some p →
  fillInput E selector text s
  = (let cands := fill_selectorsToTry (page_url E p (world s)) selector in
     match candidate_loop (fun c => fill_attempt E p c text)
             (fun c v => fill_record c text v) (fun c v => fill_success c text v)
             cands None s with
     | (Ret (inl res), s1) => (Ret res, s1)
     | (Ret (inr e), s1) => fill_exhausted E p selector cands e s1
     | (Throw m, s1) => (Throw m, s1)
     end).
Proof.
  intros Hp. unfold fillInput, bind at 1, require_page, bind at 1, get_page.
  rewrite Hp. unfold ret at 1, bind at 1, get_world, bind at 1.
  rewrite fill_loop_shape. cbv zeta.
  destruct (candidate_loop _ _ _ _ _ s) as [[[res|e]|m] s1]; reflexivity.
Qed.

Lemma clickElement_page (selector timeout : value) (s : St) (res : result) (s' : St) :
  clickElement E selector timeout s = (Ret res, s') → ∃ p, page (srv s) = Some p.
Proof.
  destruct (page (srv s)) as [p|] eqn:Hp; [eauto|].
  rewrite (clickElement_needs_page selector timeout s Hp). discriminate.
Qed.

Lemma fillInput_page (selector text : value) (s : St) (res : result) (s' : St) :
  fillInput E selector text s = (Ret res, s') → ∃ p, page (srv s) = Some p.
Proof.
  destruct (page (srv s)) as [p|] eqn:Hp; [eauto|].
  rewrite (fillInput_needs_page selector text s Hp). discriminate.
Qed.

(** C1, as the code has it. The site of the page is told by a search of
    the text of its url: when github.com occurs anywhere in the url the
    candidates of a click and of a fill are GitHub's selectors followed by
    the caller's selector; otherwise the click has the caller's selector
    alone, and the fill has Google's selectors before it when google.com
    occurs anywhere in the url. If the candidates before [cur] fail one
    after the other and the attempt on [cur] succeeds, the operation returns
    the success of [cur], the browser is left where that attempt left it
    (no later candidate is tried), and the one record appended names [cur].
    Conversely the operation returns in no other way. *)
Theorem first_working_candidate_is_recorded :
  (∀ url selector,
     (contains url "github.com" →
      click_selectorsToTry url selector = click_github ++ [selector]
      ∧ fill_selectorsToTry url selector = fill_github ++ [selector])
     ∧ (¬ contains url "github.com" →
        click_selectorsToTry url selector = [selector]
        ∧ (contains url "google.com" →
           fill_selectorsToTry url selector = fill_google ++ [selector])
        ∧ (¬ contains url "google.com" →
           fill_selectorsToTry url selector = [selector])))
  ∧ (∀ selector timeout (s : St) p pre cur post w1 e w2,
       page (srv s) = Some p →
       click_selectorsToTry (page_url E p (world s)) selector = pre ++ cur :: post →
       fail_all (click_attempt E p (default_arg timeout (VNum 30000))) pre (world s) None
       = Some (w1, e) →
       click_attempt E p (default_arg timeout (VNum 30000)) cur w1 = (Ret tt, w2) →
       clickElement E selector timeout s
       = (Ret (click_success cur), pushed s (click_record cur) w2)
       ∧ field "selector" (click_record cur) = cur)
  ∧ (∀ selector text (s : St) p pre cur post w1 e v w2,
       page (srv s) = Some p →
       fill_selectorsToTry (page_url E p (world s)) selector = pre ++ cur :: post →
       fail_all (fun c => fill_attempt E p c text) pre (world s) None = Some (w1, e) →
       fill_attempt E p cur text w1 = (Ret v, w2) →
       fillInput E selector text s
       = (Ret (fill_success cur text v), pushed s (fill_record cur text v) w2)
       ∧ field "selector" (fill_record cur text v) = cur)
  ∧ (∀ selector timeout (s : St) res s',
       clickElement E selector timeout s = (Ret res, s') →
       ∃ p pre cur post w1 e,
         page (srv s) = Some p
         ∧ click_selectorsToTry (page_url E p (world s)) selector = pre ++ cur :: post
         ∧ fail_all (click_attempt E p (default_arg timeout (VNum 30000))) pre (world s) None
           = Some (w1, e)
         ∧ click_attempt E p (default_arg timeout (VNum 30000)) cur w1 = (Ret tt, world s')
         ∧ res = click_success cur
         ∧ s' = pushed s (click_record cur) (world s'))
  ∧ (∀ selector text (s : St) res s',
       fillInput E selector text s = (Ret res, s') →
       ∃ p pre cur post w1 e v,
         page (srv s) = Some p
         ∧ fill_selectorsToTry (page_url E p (world s)) selector = pre ++ cur :: post
         ∧ fail_all (fun c => fill_attempt E p c text) pre (world s) None = Some (w1, e)
         ∧ fill_attempt E p cur text w1 = (Ret v, world s')
         ∧ res = fill_success cur text v
         ∧ s' = pushed s (fill_record cur text v) (world s')).
Proof.
  split; [| split; [| split; [| split]]].
  - intros url selector. unfold click_selectorsToTry, fill_selectorsToTry. split.
    + intros Hg. apply includes_contains in Hg. rewrite Hg. split; reflexivity.
    + intros Hg. apply includes_not_contains in Hg. rewrite Hg.
      split; [reflexivity | split].
      * intros Ho. apply includes_contains in Ho. now rewrite Ho.
      * intros Ho. apply includes_not_contains in Ho. now rewrite Ho.
  - intros selector timeout s p pre cur post w1 e w2 Hp Hc Hf Ha.
    split; [| reflexivity].
    rewrite (clickElement_with_page _ _ _ _ Hp). cbv zeta. rewrite Hc.
    rewrite (candidate_loop_first_success _ _ _ pre cur post None s w1 e tt w2 Hf Ha).
    reflexivity.
  - intros selector text s p pre cur post w1 e v w2 Hp Hc Hf Ha.
    split; [| reflexivity].
    rewrite (fillInput_with_page _ _ _ _ Hp). cbv zeta. rewrite Hc.
    rewrite (candidate_loop_first_success _ _ _ pre cur post None s w1 e v w2 Hf Ha).
    reflexivity.
  - intros selector timeout s res s' H.
    destruct (clickElement_page _ _ _ _ _ H) as [p Hp].
    rewrite (clickElement_with_page _ _ _ _ Hp) in H. cbv zeta in H.
    destruct (candidate_loop _ _ _ _ _ s) as [[[res1|e1]|m] s1] eqn:Hl.
    + inversion H; subst.
      apply candidate_loop_returned in Hl
        as (pre & cur & post & w1 & e & [] & Hc & Hf & Ha & Hr & Hs).
      exists p, pre, cur, post, w1, e. repeat split; auto.
    + destruct (click_exhausted_throws p selector
                  (click_selectorsToTry (page_url E p (world s)) selector) e1 s1)
        as (m & s2 & Hm).
      rewrite Hm in H. discriminate.
    + discriminate.
  - intros selector text s res s' H.
    destruct (fillInput_page _ _ _ _ _ H) as [p Hp].
    rewrite (fillInput_with_page _ _ _ _ Hp) in H. cbv zeta in H.
    destruct (candidate_loop _ _ _ _ _ s) as [[[res1|e1]|m] s1] eqn:Hl.
    + inversion H; subst.
      apply candidate_loop_returned in Hl
        as (pre & cur & post & w1 & e & v & Hc & Hf & Ha & Hr & Hs).
      exists p, pre, cur, post, w1, e, v. repeat split; auto.
    + destruct (fill_exhausted_throws p selector
                  (fill_selectorsToTry (page_url E p (world s)) selector) e1 s1)
        as (m & s2 & Hm).
      rewrite Hm in H. discriminate.
    + discriminate.
Qed.











(** ** The read-back of a fill *)

Lemma fill_attempt_returned (p : PageH) (cur text : value) (w : World) (v : string)
    (w' : World) :
  fill_attempt E p cur text w = (Ret v, w') →
  ∃ wa wb wc wd,
    page_waitForSelector E p cur {| timeout := VNum 5000; state := Some "visible" |} w
    = (Ret tt, wa)
    ∧ locator_isVisible E p cur wa = (Ret true, wb)
    ∧ page_fill E p cur (VStr "") wb = (Ret tt, wc)
    ∧ page_fill E p cur text wc = (Ret tt, wd)
    ∧ page_inputValue E p cur wd = (Ret v, w').
Proof.
  unfold fill_attempt, bind, throw.
  destruct (page_waitForSelector E p cur _ w) as [[[]|m] wa] eqn:H0; [| discriminate].
  destruct (locator_isVisible E p cur wa) as [[[|]|m] wb] eqn:H1; simpl;
    try discriminate.
  destruct (page_fill E p cur (VStr "") wb) as [[[]|m] wc] eqn:H2; [| discriminate].
  destruct (page_fill E p cur text wc) as [[[]|m] wd] eqn:H3; [| discriminate].
  intros H. exists wa, wb, wc, wd. repeat split; assumption.
Qed.

(** C8. Whenever [fillInput] returns, it has written the text into the
    field of the candidate [cur] (after clearing it), then read the field
    again, and the value [v] it read is the [actualValue] of the one record
    it appended: if the field holds the text that was written, that value is
    the text. *)
Theorem fill_records_the_value_read_back (selector text : value) (s : St)
    (res : result) (s' : St) :
  fillInput E selector text s = (Ret res, s') →
  ∃ p cur wb wc wd v,
    page (srv s) = Some p
    ∧ cur ∈ fill_selectorsToTry (page_url E p (world s)) selector
    ∧ page_fill E p cur (VStr "") wb = (Ret tt, wc)
    ∧ page_fill E p cur text wc = (Ret tt, wd)
    ∧ page_inputValue E p cur wd = (Ret v, world s')
    ∧ actions (srv s') = actions (srv s) ++ [fill_record cur text v]
    ∧ field "actualValue" (fill_record cur text v) = VStr v
    ∧ field "text" (fill_record cur text v) = text.
Proof.
  intros H.
  destruct (fillInput_page _ _ _ _ _ H) as [p Hp].
  rewrite (fillInput_with_page _ _ _ _ Hp) in H. cbv zeta in H.
  destruct (candidate_loop _ _ _ _ _ s) as [[[res1|e1]|m] s1] eqn:Hl.
  - inversion H; subst.
    apply candidate_loop_returned in Hl
      as (pre & cur & post & w1 & e & v & Hc & Hf & Ha & Hr & Hs).
    apply fill_attempt_returned in Ha as (wa & wb & wc & wd & _ & _ & H1 & H2 & H3).
    exists p, cur, wb, wc, wd, v. repeat split; auto.
    + rewrite Hc. apply elem_of_app. right. apply list_elem_of_here.
    + rewrite Hs. reflexivity.
  - destruct (fill_exhausted_throws p selector
                (fill_selectorsToTry (page_url E p (world s)) selector) e1 s1)
      as (m & s2 & Hm).
    rewrite Hm in H. discriminate.
  - discriminate.
Qed.

(** ** Script generation *)


(** * Further properties of the driver *)

(** ** The records of the log and the script made from them *)

Lemma append_nonempty (a : Ascii.ascii) (s x : string) : String a s +:+ x ≠ "".
Proof. change (String a (s +:+ x) ≠ ""). discriminate. Qed.








Ltac coded_tac :=
  eexists; split; [reflexivity | split; [apply append_nonempty | eexists; reflexivity]].

Lemma navigate_record_coded (url : value) : coded (navigate_record url).
Proof. coded_tac. Qed.




Lemma screenshot_record_coded (filename : value) : coded (screenshot_record filename).
Proof. coded_tac. Qed.







Lemma emit_action_coded {S} (testCode : string) (record : value) (s : S) :
  coded record → emit_action testCode record s = (Ret (testCode +:+ line_of record), s).
Proof.
  intros (code & Hc & Hne & fields & ->). simpl in Hc.
  unfold emit_action, bind, get_prop, ret, line_of. simpl field. rewrite Hc.
  unfold truthy. destruct (String.eqb_spec code "") as [-> | _]; [congruence|].
  reflexivity.
Qed.

Lemma forEach_emit_coded {S} (log : list value) (testCode : string) (s : S) :
  Forall coded log →
  forEach_emit testCode log s = (Ret (testCode +:+ script_lines log), s).
Proof.
  revert testCode. induction log as [|r log IH]; intros testCode Hlog; simpl.
  - now rewrite append_empty_r.
  - inversion Hlog as [|? ? Hr Hrest]; subst.
    unfold bind. rewrite (emit_action_coded testCode r s Hr).
    rewrite (IH _ Hrest). now rewrite append_assoc.
Qed.

Lemma generatePlaywrightTest_coded {S} (testName description : value)
    (log : list value) (s : S) :
  Forall coded log →
  generatePlaywrightTest E testName description (VArr log) s
  = (Ret (test_header (or_else description testName) +:+ script_lines log
          +:+ "});" +:+ nl), s).
Proof.
  intros Hlog. unfold generatePlaywrightTest.
  change (truthy (VArr log)) with true. cbv iota.
  unfold bind at 1. unfold bind at 1. unfold get_prop, ret at 1.
  change (String.eqb "length" "length") with true. cbv iota.
  destruct log as [|r log].
  - change (gt E (VNum (Z.of_nat (length (@nil value)))) (VNum 0)) with false.
    cbv iota. unfold ret. simpl script_lines.
    change ("" +:+ "});" +:+ nl) with ("});" +:+ nl). reflexivity.
  - assert (Hgt : gt E (VNum (Z.of_nat (length (r :: log)))) (VNum 0) = true).
    { unfold gt, to_integer. apply Z.ltb_lt. simpl length. lia. }
    rewrite Hgt. rewrite (forEach_emit_coded (r :: log) _ s Hlog).
    unfold ret. now rewrite append_assoc.
Qed.


(** *** The generator does not look at the state *)

Lemma free_ret {A} (a : A) : free (fun S => @ret S A a).
Proof. intros S s. reflexivity. Qed.

Lemma free_throw {A} (m : string) : free (fun S => @throw S A m).
Proof. intros S s. reflexivity. Qed.

Lemma free_get_prop (v : value) (k : string) : free (fun S => @get_prop S v k).
Proof. intros S s. destruct v; reflexivity. Qed.

Lemma free_bind {A B} (c : ∀ S, M S A) (k : A → ∀ S, M S B) :
  free c → (∀ a, free (k a)) → free (fun S => bind (c S) (fun a => k a S)).
Proof.
  intros Hc Hk S s. unfold bind. rewrite (Hc S s), (Hc unit tt).
  destruct (c unit tt).1 as [a|m]; [| reflexivity].
  simpl. rewrite (Hk a S s). reflexivity.
Qed.

Ltac free_tac :=
  repeat first
    [ apply free_ret | apply free_throw | apply free_get_prop
    | apply free_bind; [| intros ?]
    | match goal with
      | |- free (fun S => if ?b then _ else _) => destruct b
      | |- free (fun S => match ?x with _ => _ end) => destruct x
      end ].

Lemma free_emit_action (testCode : string) (action : value) :
  free (fun S => @emit_action S testCode action).
Proof. unfold emit_action, convertActionToPlaywrightCode. free_tac. Qed.

Lemma free_forEach_emit (items : list value) (testCode : string) :
  free (fun S => @forEach_emit S testCode items).
Proof.
  revert testCode. induction items as [|a items IH]; intros testCode.
  - apply free_ret.
  - apply (free_bind (fun S => @emit_action S testCode a)
             (fun t S => @forEach_emit S t items));
      [apply free_emit_action | intros t; apply IH].
Qed.

Lemma free_generatePlaywrightTest (testName description acts : value) :
  free (fun S => @generatePlaywrightTest _ _ _ E S testName description acts).
Proof.
  unfold generatePlaywrightTest. apply free_bind; [| intros; apply free_ret].
  destruct (truthy acts); [| apply free_ret].
  apply free_bind; [apply free_get_prop | intros len].
  destruct (gt E len (VNum 0)); [| apply free_ret].
  destruct acts; try apply free_throw. apply free_forEach_emit.
Qed.

(** A list of actions passed to [generateTest] replaces the log even when it
    is empty (an empty array is truthy): the result is computed from the
    list alone, whatever the log holds, and for the empty list the script is
    the header and the closing line. Without a list, or with [null], the
    script is the one of the log. *)
Theorem provided_actions_replace_the_log (testName description : value) (s : St) :
  (∀ items,
     generateTest E testName description (VArr items) s
     = (match (@generatePlaywrightTest _ _ _ E unit testName
                 (default_arg description (VStr "")) (VArr items) tt).1 with
        | Ret testCode => Ret (text_result testCode)
        | Throw m => Throw m
        end, s))
  ∧ generateTest E testName description (VArr []) s
    = (Ret (text_result
              (test_header (or_else (default_arg description (VStr "")) testName)
               +:+ "});" +:+ nl)), s)
  ∧ generateTest E testName description VUndef s
    = generateTest E testName description (VArr (actions (srv s))) s
  ∧ generateTest E testName description VNull s
    = generateTest E testName description (VArr (actions (srv s))) s.
Proof.
  assert (Hlist : ∀ items,
     generateTest E testName description (VArr items) s
     = (match (@generatePlaywrightTest _ _ _ E unit testName
                 (default_arg description (VStr "")) (VArr items) tt).1 with
        | Ret testCode => Ret (text_result testCode)
        | Throw m => Throw m
        end, s)).
  { intros items. unfold generateTest, bind at 1, get_actions.
    change (or_else (default_arg (VArr items) VNull) (VArr (actions (srv s))))
      with (VArr items).
    unfold bind.
    rewrite (free_generatePlaywrightTest testName _ (VArr items) _ s).
    destruct (generatePlaywrightTest E testName _ (VArr items) tt).1; reflexivity. }
  split; [exact Hlist | split; [| split; reflexivity]].
  rewrite Hlist.
  rewrite (generatePlaywrightTest_coded _ _ [] tt (List.Forall_nil _)).
  reflexivity.
Qed.

(** *** One piece of text per action *)

Lemma emit_action_piece {S} (testCode : string) (action : value) (s : S) :
  emit_action testCode action s
  = match piece action with
    | Some added => (Ret (testCode +:+ added), s)
    | None => ((@emit_action unit "" action tt).1, s)
    end.
Proof.
  rewrite (free_emit_action testCode action S s). unfold piece.
  unfold emit_action, bind.
  destruct (get_prop action "code" tt) as [[code|m] []]; [| reflexivity].
  destruct (truthy code); [reflexivity|].
  destruct (get_prop action "name" tt) as [[name|m] []]; [| reflexivity].
  destruct ((if truthy name then get_prop action "arguments" else ret name) tt)
    as [[cond|m] []]; [| reflexivity].
  destruct (truthy cond); [| simpl; now rewrite append_empty_r].
  destruct (convertActionToPlaywrightCode action tt) as [[pc|m] []]; [| reflexivity].
  destruct (truthy pc); [reflexivity | simpl; now rewrite append_empty_r].
Qed.

Lemma piece_none_throws (action : value) :
  piece action = None → ∃ m, (@emit_action unit "" action tt).1 = Throw m.
Proof.
  unfold piece. destruct (emit_action "" action tt) as [[x|m] []]; [discriminate|].
  eauto.
Qed.

Lemma pieces_app (l1 l2 : list value) :
  pieces (l1 ++ l2)
  = match pieces l1, pieces l2 with
    | Some a, Some b => Some (a +:+ b)
    | _, _ => None
    end.
Proof.
  induction l1 as [|x l1 IH]; simpl.
  - destruct (pieces l2); reflexivity.
  - rewrite IH. destruct (piece x); [| reflexivity].
    destruct (pieces l1); [| reflexivity].
    destruct (pieces l2); [| reflexivity].
    now rewrite append_assoc.
Qed.

(** Script generation goes through the actions in order and only ever adds
    to the text: the text for a list is the text so far followed by the
    piece of each action, in the order of the list and with repetitions
    kept; the pieces of a concatenation are the pieces of its parts, one
    after the other; and if some action has no piece (reading it throws)
    the whole generation throws. *)
Theorem script_text_is_the_concatenation_of_pieces {S : Type} (s : S)
    (testCode : string) (items : list value) :
  (∀ body, pieces items = Some body →
           forEach_emit testCode items s = (Ret (testCode +:+ body), s))
  ∧ (pieces items = None → ∃ m, forEach_emit testCode items s = (Throw m, s))
  ∧ (∀ more a b, pieces items = Some a → pieces more = Some b →
                 forEach_emit testCode (items ++ more) s
                 = (Ret (testCode +:+ a +:+ b), s)).
Proof.
  assert (Hsome : ∀ l t body, pieces l = Some body →
                    @forEach_emit S t l s = (Ret (t +:+ body), s)).
  { induction l as [|x l IH]; intros t body Hb; simpl in *.
    - inversion Hb; subst. now rewrite append_empty_r.
    - unfold bind. rewrite emit_action_piece.
      destruct (piece x) as [a|]; [| discriminate].
      destruct (pieces l) as [b|]; [| discriminate].
      inversion Hb; subst. rewrite (IH _ b eq_refl). now rewrite append_assoc. }
  split; [apply Hsome | split].
  - revert testCode. induction items as [|x l IH]; intros t Hn; simpl in *;
      [discriminate|].
    unfold bind. rewrite emit_action_piece.
    destruct (piece x) as [a|] eqn:Hx.
    + destruct (pieces l) as [b|]; [discriminate|]. apply IH. reflexivity.
    + destruct (piece_none_throws x Hx) as [m ->]. eauto.
  - intros more a b Ha Hb. apply Hsome. rewrite pieces_app, Ha, Hb. reflexivity.
Qed.

(** What an element of the list contributes: a record with a truthy [code]
    gives that code on a line, whatever else it holds; an object with no
    truthy [code] that lacks a truthy [name] or truthy [arguments] gives
    nothing, and so does a number, a boolean, a string or an array;
    [null] and [undefined] have no piece, so they make the generation
    throw. *)
Theorem piece_of_each_kind_of_element :
  (∀ fields, truthy (lookup_field "code" fields) = true →
             piece (VObj fields)
             = Some ("  " +:+ to_string (lookup_field "code" fields) +:+ nl))
  ∧ (∀ fields, truthy (lookup_field "code" fields) = false →
               truthy (lookup_field "name" fields) = false
               ∨ truthy (lookup_field "arguments" fields) = false →
               piece (VObj fields) = Some "")
  ∧ (∀ b, piece (VBool b) = Some "")
  ∧ (∀ z, piece (VNum z) = Some "")
  ∧ (∀ text, piece (VStr text) = Some "")
  ∧ (∀ items, piece (VArr items) = Some "")
  ∧ piece VNull = None ∧ piece VUndef = None.
Proof.
  repeat split; try reflexivity.
  - intros fields Hc. unfold piece, emit_action, bind, get_prop, ret.
    rewrite Hc. reflexivity.
  - intros fields Hc Hn. unfold piece, emit_action, bind, get_prop, ret.
    rewrite Hc. destruct (truthy (lookup_field "name" fields)) eqn:Hname.
    + destruct Hn as [Hn | Hn]; [discriminate|]. rewrite Hn. reflexivity.
    + rewrite Hname. reflexivity.
Qed.

(** ** Tools that only read *)

(** [inspect_page], [get_page_content] and [generate_test] never change
    the session or the log, whatever their arguments, whatever the browser
    does and whether they succeed or fail. *)
Theorem read_only_tools_leave_the_server_alone (name : string) (args : value)
    (s : St) (r : outcome result) (s' : St) :
  name ∈ read_only_tools →
  callTool E name args s = (r, s') →
  srv s' = srv s.
Proof.
  intros Hin Hcall. apply callTool_dispatch in Hcall as (r0 & Hd & _).
  revert Hd. unfold read_only_tools in Hin.
  repeat (apply elem_of_cons in Hin as [-> | Hin]); [.. | inversion Hin].
  - assert (Hs : silent (elementType <- get_prop_opt args "elementType" ;;
                         inspectPage E (or_else elementType (VStr "all")))).
    { apply silent_bind; [apply silent_get_prop_opt | intros; apply inspectPage_silent]. }
    apply Hs.
  - apply getPageContent_silent.
  - assert (Hs : silent (testName <- get_prop args "testName" ;;
                         description <- get_prop args "description" ;;
                         acts <- get_prop args "actions" ;;
                         generateTest E testName description acts)).
    { do 3 (apply silent_bind; [silent_tac | intros]). apply generateTest_silent. }
    apply Hs.
Qed.

(** ** After a close *)

(** Once [close_browser] has reported success the server is as the
    constructor left it: a second close reports that there is nothing to
    close and changes nothing, and every tool that needs a page returns an
    error result and changes nothing, until the next launch. *)
Theorem after_a_close_the_server_is_as_new (args : value) (s s1 : St) :
  callTool E "close_browser" args s
  = (Ret (text_result "Browser closed successfully"), s1) →
  srv s1 = new_server
  ∧ (∀ args', callTool E "close_browser" args' s1
              = (Ret (text_result "No browser to close"), s1))
  ∧ (∀ name args', name ∈ page_tools →
       ∃ m, callTool E name args' s1 = (Ret (error_result name m), s1)).
Proof.
  intros Hcall. apply callTool_dispatch in Hcall as (r0 & Hd & Hr).
  rewrite dispatch_close in Hd. apply closeBrowser_spec in Hd.
  assert (Hnew : srv s1 = new_server).
  { destruct (browser (srv s)).
    - destruct Hd as [[_ Hs] | (m & -> & _)]; [exact Hs|].
      inversion Hr.
    - destruct Hd as [_ ->]. discriminate Hr. }
  split; [exact Hnew | split].
  - intros args'. unfold callTool, try_catch. rewrite dispatch_close.
    unfold closeBrowser, bind, get_browser. rewrite Hnew. reflexivity.
  - intros name args' Hin.
    assert (Hp : page (srv s1) = None) by now rewrite Hnew.
    destruct (dispatch_no_page name args' s1 Hp Hin) as (m & Hm & _).
    exists m. unfold callTool, try_catch. now rewrite Hm.
Qed.

(** ** A screenshot without a file name *)

Lemma takeScreenshot_returns (filename : value) (s : St) (p : PageH) (w : World) :
  page (srv s) = Some p →
  page_screenshot E p (default_arg filename (VStr "screenshot.png")) (world s)
  = (Ret tt, w) →
  takeScreenshot E filename s
  = (Ret (text_result ("Screenshot saved as "
                       +:+ to_string (default_arg filename (VStr "screenshot.png")))),
     pushed s (screenshot_record (default_arg filename (VStr "screenshot.png"))) w).
Proof.
  intros Hp Hshot. unfold takeScreenshot.
  unfold bind at 1, require_page, bind at 1, get_page. rewrite Hp.
  unfold ret at 1, bind at 1, lift. rewrite Hshot. reflexivity.
Qed.

Lemma navigateTo_returns (url : value) (s : St) (p : PageH) (w : World) :
  page (srv s) = Some p →
  page_goto E p url (world s) = (Ret tt, w) →
  navigateTo E url s
  = (Ret (text_result ("Navigated to " +:+ to_string url)),
     pushed s (navigate_record url) w).
Proof.
  intros Hp Hgo. unfold navigateTo.
  unfold bind at 1, require_page, bind at 1, get_page. rewrite Hp.
  unfold ret at 1, bind at 1, lift. rewrite Hgo. reflexivity.
Qed.

(** [take_screenshot] called with no arguments, or with arguments that hold
    no [filename], captures to screenshot.png and records that name. A
    [filename] that is [null] is not replaced by the default: the capture
    is asked for the path [null]. *)
Theorem screenshot_without_a_name (args : value) (s : St) (p : PageH) (w : World) :
  page (srv s) = Some p →
  (args = VUndef ∨ args = VNull
   ∨ ∃ fields, args = VObj fields ∧ lookup_field "filename" fields = VUndef) →
  (page_screenshot E p (VStr "screenshot.png") (world s) = (Ret tt, w) →
   callTool E "take_screenshot" args s
   = (Ret (text_result "Screenshot saved as screenshot.png"),
      pushed s (screenshot_record (VStr "screenshot.png")) w))
  ∧ (page_screenshot E p VNull (world s) = (Ret tt, w) →
     callTool E "take_screenshot" (VObj [("filename", VNull)]) s
     = (Ret (text_result "Screenshot saved as null"),
        pushed s (screenshot_record VNull) w)).
Proof.
  intros Hp Hargs.
  split; intros Hshot; unfold callTool, try_catch.
  - assert (Hd : dispatch E "take_screenshot" args s = takeScreenshot E VUndef s).
    { destruct Hargs as [-> | [-> | (fields & -> & Hf)]]; try reflexivity.
      change (dispatch E "take_screenshot" (VObj fields) s)
        with (takeScreenshot E (lookup_field "filename" fields) s).
      now rewrite Hf. }
    rewrite Hd. rewrite (takeScreenshot_returns VUndef s p w Hp Hshot).
    reflexivity.
  - change (dispatch E "take_screenshot" (VObj [("filename", VNull)]) s)
      with (takeScreenshot E VNull s).
    rewrite (takeScreenshot_returns VNull s p w Hp Hshot). reflexivity.
Qed.

(** ** Navigate, capture, generate *)

Lemma script_lines_app (l1 l2 : list value) :
  script_lines (l1 ++ l2) = script_lines l1 +:+ script_lines l2.
Proof.
  induction l1 as [|r l1 IH]; [reflexivity|].
  change (line_of r +:+ script_lines (l1 ++ l2)
          = (line_of r +:+ script_lines l1) +:+ script_lines l2).
  now rewrite IH, append_assoc.
Qed.

(** From a state with a page whose log holds coded records: if the
    navigation to [u] and then the capture to [f] succeed, the three calls
    navigate_to, take_screenshot, generate_test return their results in
    that order and the script is the header, the lines of the records that
    were already logged, the navigation line for [u], the capture line for
    [f] and the closing line. *)
Theorem navigate_capture_generate (s : St) (p : PageH) (u f n : string)
    (w1 w2 : World) :
  Forall coded (actions (srv s)) →
  page (srv s) = Some p →
  page_goto E p (VStr u) (world s) = (Ret tt, w1) →
  page_screenshot E p (VStr f) w1 = (Ret tt, w2) →
  run_calls E
    [ ("navigate_to", VObj [("url", VStr u)]);
      ("take_screenshot", VObj [("filename", VStr f)]);
      ("generate_test", VObj [("testName", VStr n)]) ] s
  = ( [ Ret (text_result ("Navigated to " +:+ u));
        Ret (text_result ("Screenshot saved as " +:+ f));
        Ret (text_result
               (test_header (VStr n) +:+ script_lines (actions (srv s))
                +:+ ("  " +:+ ("await page.goto('" +:+ u +:+ "');") +:+ nl)
                +:+ ("  " +:+ ("await page.screenshot({ path: '" +:+ f +:+ "' });") +:+ nl)
                +:+ "});" +:+ nl)) ],
      pushed (pushed s (navigate_record (VStr u)) w1)
        (screenshot_record (VStr f)) w2 ).
Proof.
  intros Hlog Hp Hgo Hshot.
  assert (H1 : callTool E "navigate_to" (VObj [("url", VStr u)]) s
               = (Ret (text_result ("Navigated to " +:+ u)),
                  pushed s (navigate_record (VStr u)) w1)).
  { unfold callTool, try_catch.
    change (dispatch E "navigate_to" (VObj [("url", VStr u)]) s)
      with (navigateTo E (VStr u) s).
    now rewrite (navigateTo_returns (VStr u) s p w1 Hp Hgo). }
  set (s1 := pushed s (navigate_record (VStr u)) w1) in *.
  assert (H2 : callTool E "take_screenshot" (VObj [("filename", VStr f)]) s1
               = (Ret (text_result ("Screenshot saved as " +:+ f)),
                  pushed s1 (screenshot_record (VStr f)) w2)).
  { unfold callTool, try_catch.
    change (dispatch E "take_screenshot" (VObj [("filename", VStr f)]) s1)
      with (takeScreenshot E (VStr f) s1).
    now rewrite (takeScreenshot_returns (VStr f) s1 p w2 Hp Hshot). }
  set (s2 := pushed s1 (screenshot_record (VStr f)) w2) in *.
  assert (Hlog2 : Forall coded (actions (srv s2))).
  { change (actions (srv s2))
      with ((actions (srv s) ++ [navigate_record (VStr u)])
            ++ [screenshot_record (VStr f)]).
    repeat (apply Forall_app; split); auto; repeat constructor;
      [apply navigate_record_coded | apply screenshot_record_coded]. }
  assert (Hlines : script_lines (actions (srv s2))
                   = script_lines (actions (srv s))
                     +:+ ("  " +:+ ("await page.goto('" +:+ u +:+ "');") +:+ nl)
                     +:+ ("  " +:+ ("await page.screenshot({ path: '" +:+ f +:+ "' });")
                          +:+ nl)).
  { change (actions (srv s2))
      with ((actions (srv s) ++ [navigate_record (VStr u)])
            ++ [screenshot_record (VStr f)]).
    rewrite !script_lines_app.
    change (script_lines [navigate_record (VStr u)])
      with (("  " +:+ ("await page.goto('" +:+ u +:+ "');") +:+ nl) +:+ "").
    change (script_lines [screenshot_record (VStr f)])
      with (("  " +:+ ("await page.screenshot({ path: '" +:+ f +:+ "' });") +:+ nl)
            +:+ "").
    now rewrite !append_empty_r, !append_assoc. }
  assert (H3 : callTool E "generate_test" (VObj [("testName", VStr n)]) s2
               = (Ret (text_result
                         (test_header (VStr n) +:+ script_lines (actions (srv s2))
                          +:+ "});" +:+ nl)), s2)).
  { unfold callTool, try_catch.
    change (dispatch E "generate_test" (VObj [("testName", VStr n)]) s2)
      with (generateTest E (VStr n) VUndef VUndef s2).
    unfold generateTest, bind at 1, get_actions.
    change (or_else (default_arg VUndef VNull) (VArr (actions (srv s2))))
      with (VArr (actions (srv s2))).
    unfold bind. rewrite (generatePlaywrightTest_coded _ _ _ s2 Hlog2).
    reflexivity. }
  unfold run_calls. rewrite H1. fold s1. rewrite H2. fold s2. rewrite H3.
  rewrite Hlines. rewrite !append_assoc. reflexivity.
Qed.

(** ** A launch that stops half way *)

(** When the browser starts and its page cannot be opened, the launch
    is answered with the error and the driver keeps the browser without a
    page; from then on a launch answers that the browser is already
    running and changes nothing, every tool that needs a page answers with
    an error and changes nothing, and a close that succeeds resets the
    server. *)
Theorem a_launch_without_a_page_leaves_the_driver_stuck (args : value) (s : St)
    (br : BrowserH) (w1 w2 : World) (m : string) :
  browser (srv s) = None →
  page (srv s) = None →
  chromium_launch E (headless_of args) (world s) = (Ret br, w1) →
  browser_newPage E br w1 = (Throw m, w2) →
  callTool E "launch_browser" args s
  = (Ret (error_result "launch_browser" m), half_launched s br w2)
  ∧ (∀ args',
       callTool E "launch_browser" args' (half_launched s br w2)
       = (Ret (text_result ("Browser already running in "
                            +:+ mode (headless_of args') +:+ " mode")),
          half_launched s br w2))
  ∧ (∀ name args', name ∈ page_tools →
       ∃ m', callTool E name args' (half_launched s br w2)
             = (Ret (error_result name m'), half_launched s br w2))
  ∧ (∀ args' w3, browser_close E br w2 = (Ret tt, w3) →
       callTool E "close_browser" args' (half_launched s br w2)
       = (Ret (text_result "Browser closed successfully"),
          {| srv := new_server; world := w3 |})).
Proof.
  intros Hb Hp Hlaunch Hpage.
  assert (Hdef : ∀ a, default_arg (headless_of a) (VBool false) = headless_of a).
  { intros a. unfold headless_of. destruct a; try reflexivity.
    simpl. destruct (lookup_field "headless" fields); reflexivity. }
  split; [| split; [| split]].
  - unfold callTool, try_catch. rewrite dispatch_launch. fold (headless_of args).
    unfold launchBrowser. rewrite Hdef.
    unfold bind at 1, get_browser. rewrite Hb.
    unfold bind at 1, lift at 1. rewrite Hlaunch.
    unfold bind at 1, set_browser. unfold bind at 1, lift at 1. cbn [world srv].
    rewrite Hpage. reflexivity.
  - intros args'. unfold callTool, try_catch. rewrite dispatch_launch.
    fold (headless_of args'). unfold launchBrowser. rewrite Hdef. reflexivity.
  - intros name args' Hin.
    destruct (dispatch_no_page name args' (half_launched s br w2) Hp Hin)
      as (m' & Hd & _).
    exists m'. unfold callTool, try_catch. rewrite Hd. reflexivity.
  - intros args' w3 Hclose. unfold callTool, try_catch. rewrite dispatch_close.
    unfold closeBrowser, bind, get_browser, lift, set_browser, set_page, set_actions,
      ret, half_launched. cbn [srv browser world]. rewrite Hclose. reflexivity.
Qed.

(** ** The GitHub search *)

Lemma search_input_loop_result (p : PageH) (query : value) (selectors : list string)
    (w : World) (r : outcome string) (w' : World) :
  search_input_loop E p query selectors w = (r, w') →
  match r with
  | Ret used => used ∈ selectors
  | Throw m => m = "No search input found"
  end.
Proof.
  revert w. induction selectors as [|sel selectors IH]; intros w; simpl.
  - intros H. inversion H. reflexivity.
  - assert (Hrest : ∀ w0, search_input_loop E p query selectors w0 = (r, w') →
                          match r with
                          | Ret used => used ∈ sel :: selectors
                          | Throw m => m = "No search input found"
                          end).
    { intros w0 H. apply IH in H.
      destruct r; [now apply list_elem_of_further | exact H]. }
    unfold bind, try_catch, ret.
    destruct (page_waitForSelector E p (VStr sel) _ w) as [[[]|m] wa]; [| apply Hrest].
    destruct (locator_isVisible E p (VStr sel) wa) as [[[|]|m] wb];
      [| apply Hrest | apply Hrest].
    destruct (locator_click E p (VStr sel) wb) as [[[]|m] wc]; [| apply Hrest].
    destruct (locator_fill E p (VStr sel) query wc) as [[[]|m] wd]; [| apply Hrest].
    destruct (locator_press E p (VStr sel) "Enter" wd) as [[[]|m] we]; [| apply Hrest].
    intros H. inversion H. apply list_elem_of_here.
Qed.

Lemma run_strategies_first_success (pre : list (M World string))
    (strategy : M World string) (post : list (M World string))
    (lastError : option string) (w w1 : World) (e : option string) (used : string)
    (w2 : World) :
  strategies_fail pre w lastError = Some (w1, e) →
  strategy w1 = (Ret used, w2) →
  run_strategies (pre ++ strategy :: post) lastError w = (Ret (Some used, e), w2).
Proof.
  revert lastError w. induction pre as [|x pre IH]; intros lastError w; simpl.
  - intros H Hs. inversion H; subst.
    unfold bind, try_catch. rewrite Hs. reflexivity.
  - unfold bind at 1, try_catch, bind.
    destruct (x w) as [[u|m] w'] eqn:Hx; [discriminate|].
    intros H Hs. simpl. exact (IH _ _ H Hs).
Qed.

Lemma run_strategies_all_fail (strategies : list (M World string))
    (lastError : option string) (w w1 : World) (e : option string) :
  strategies_fail strategies w lastError = Some (w1, e) →
  run_strategies strategies lastError w = (Ret (None, e), w1).
Proof.
  revert lastError w. induction strategies as [|x l IH]; intros lastError w; simpl.
  - intros H. inversion H; subst. reflexivity.
  - unfold bind at 1, try_catch, bind.
    destruct (x w) as [[u|m] w'] eqn:Hx; [discriminate|].
    intros H. simpl. exact (IH _ _ H).
Qed.

Lemma run_strategies_cases (strategies : list (M World string))
    (lastError : option string) (w : World) :
  (∃ w1 e, strategies_fail strategies w lastError = Some (w1, e)
           ∧ run_strategies strategies lastError w = (Ret (None, e), w1))
  ∨ (∃ pre strategy post w1 e used w2,
       strategies = pre ++ strategy :: post
       ∧ strategies_fail pre w lastError = Some (w1, e)
       ∧ strategy w1 = (Ret used, w2)
       ∧ run_strategies strategies lastError w = (Ret (Some used, e), w2)).
Proof.
  revert lastError w. induction strategies as [|x l IH]; intros lastError w.
  - left. exists w, lastError. split; reflexivity.
  - destruct (x w) as [[u|m] w'] eqn:Hx.
    + right. exists [], x, l, w, lastError, u, w'.
      repeat split; try reflexivity; [exact Hx|].
      simpl. unfold bind, try_catch. rewrite Hx. reflexivity.
    + destruct (IH (Some m) w') as [(w1 & e & Hf & Hr)
                                   | (pre & st & post & w1 & e & u & w2 & -> & Hf & Hs & Hr)].
      * left. exists w1, e. simpl. rewrite Hx. split; [exact Hf|].
        unfold bind at 1, try_catch, bind. rewrite Hx. simpl. exact Hr.
      * right. exists (x :: pre), st, post, w1, e, u, w2. simpl. rewrite Hx.
        repeat split; auto.
        unfold bind at 1, try_catch, bind. rewrite Hx. simpl. exact Hr.
Qed.

Lemma strategy_labels (p : PageH) (query : value) (strategy : M World string)
    (w : World) (used : string) (w' : World) :
  strategy ∈ searchStrategies E p query →
  strategy w = (Ret used, w') →
  used ∈ search_labels.
Proof.
  unfold searchStrategies, search_labels. intros Hin Hrun.
  repeat (apply elem_of_cons in Hin as [-> | Hin]); [.. | inversion Hin].
  - apply elem_of_app. left.
    exact (search_input_loop_result p query searchSelectors w (Ret used) w' Hrun).
  - apply elem_of_app. right. revert Hrun. unfold bind, ret.
    destruct (keyboard_press E p "s" w) as [[[]|m] wa]; [| discriminate].
    destruct (page_waitForTimeout E p 500 wa) as [[[]|m] wb]; [| discriminate].
    destruct (keyboard_type E p query wb) as [[[]|m] wc]; [| discriminate].
    destruct (keyboard_press E p "Enter" wc) as [[[]|m] wd]; [| discriminate].
    intros H. inversion H. apply list_elem_of_here.
  - apply elem_of_app. right. revert Hrun. unfold bind, ret.
    destruct (page_goto E p _ w) as [[[]|m] wa]; [| discriminate].
    intros H. inversion H. apply list_elem_of_further, list_elem_of_here.
Qed.

Lemma label_is_used (used : string) :
  used ∈ search_labels → used_strategy (Some used) = Some used.
Proof.
  unfold search_labels, searchSelectors. intros Hin.
  apply elem_of_app in Hin as [Hin | Hin];
    repeat (apply elem_of_cons in Hin as [-> | Hin]); try reflexivity;
    inversion Hin.
Qed.

Lemma used_strategy_some (x : option string) (used : string) :
  used_strategy x = Some used → x = Some used.
Proof.
  destruct x as [u|]; simpl; [| discriminate].
  destruct (String.eqb u ""); [discriminate|]. congruence.
Qed.

(** [githubSearch] once the page is there, by what its strategies did. *)
Lemma githubSearch_with_page (query : value) (s : St) (p : PageH) :
  page (srv s) = Some p →
  githubSearch E query s
  = (let report := fun cause w =>
       match page_title E p w with
       | (Ret title, w') =>
           (Throw (search_report cause (page_url E p w) title), moved s w')
       | (Throw m, w') => (Throw m, moved s w')
       end in
     match run_strategies (searchStrategies E p query) None (world s) with
     | (Ret (x, e), w1) =>
         match used_strategy x with
         | Some used =>
             match results_wait E p w1 with
             | (Ret _, w2) =>
                 (Ret (search_success query used),
                  pushed s (search_record query used) w2)
             | (Throw m, w2) => report m w2
             end
         | None =>
             match e with
             | Some last =>
                 report ("All GitHub search strategies failed. Last error: " +:+ last) w1
             | None => report "Cannot read properties of null (reading 'message')" w1
             end
         end
     | (Throw m, w1) => report m w1
     end).
Proof.
  intros Hp.
  unfold githubSearch, require_page, get_page, results_wait, error_message,
    push_action, get_actions, set_actions, get_world, lift, bind, try_catch, throw, ret.
  rewrite Hp. unfold pushed, moved, search_success, search_report. cbv beta zeta.
  destruct (run_strategies (searchStrategies E p query) None (world s))
    as [[[x e]|m] w1]; cbn [fst snd world srv].
  - destruct (used_strategy x) as [used|]; cbv beta; cbn [world srv].
    + destruct (page_waitForSelector E p (VStr results_query) _ w1) as [[[]|m] w2];
        cbn [world srv actions browser page]; [reflexivity|].
      destruct (page_waitForTimeout E p 2000 w2) as [[[]|m'] w3];
        cbn [world srv actions browser page]; [reflexivity|].
      destruct (page_title E p w3) as [[t|m''] w']; reflexivity.
    + destruct e as [last|]; cbn [world srv];
        destruct (page_title E p w1) as [[t|m'] w']; reflexivity.
  - destruct (page_title E p w1) as [[t|m'] w']; reflexivity.
Qed.

Lemma strategies_fail_last (strategies : list (M World string)) (w w1 : World)
    (lastError e : option string) :
  strategies_fail strategies w lastError = Some (w1, e) →
  strategies ≠ [] → ∃ last, e = Some last.
Proof.
  revert w lastError. induction strategies as [|x l IH]; intros w lastError; simpl.
  - intros _ H. contradiction.
  - destruct (x w) as [[u|m] w2]; [discriminate|]. intros H _.
    destruct l as [|y l'].
    + simpl in H. inversion H. eauto.
    + apply (IH _ _ H). discriminate.
Qed.

Lemma strategies_fail_exclusive (pre : list (M World string)) (strategy : M World string)
    (post : list (M World string)) (w w1 w2 w3 : World) (e e' lastError : option string)
    (used : string) :
  strategies_fail pre w lastError = Some (w1, e) →
  strategy w1 = (Ret used, w2) →
  strategies_fail (pre ++ strategy :: post) w lastError = Some (w3, e') → False.
Proof.
  revert w lastError. induction pre as [|x l IH]; intros w lastError; simpl.
  - intros H Hs. inversion H; subst. rewrite Hs. discriminate.
  - destruct (x w) as [[u|m] wa]; [discriminate|]. apply IH.
Qed.

(** A search returns exactly when some strategy is the first to succeed
    and the wait for the results (or its fallback delay) returns. *)
Theorem search_succeeds_with_the_first_working_strategy (query : value) (s : St)
    (p : PageH) (r : result) (s' : St) :
  page (srv s) = Some p →
  githubSearch E query s = (Ret r, s') ↔
  ∃ pre strategy post w1 e used w2,
    searchStrategies E p query = pre ++ strategy :: post
    ∧ strategies_fail pre (world s) None = Some (w1, e)
    ∧ strategy w1 = (Ret used, w2)
    ∧ used ∈ search_labels
    ∧ results_wait E p w2 = (Ret tt, world s')
    ∧ r = search_success query used
    ∧ s' = pushed s (search_record query used) (world s').
Proof.
  intros Hp. rewrite (githubSearch_with_page query s p Hp). cbv zeta. split.
  - destruct (run_strategies_cases (searchStrategies E p query) None (world s))
      as [(w1 & e & Hf & Hr) | (pre & st & post & w1 & e & u & w2 & Hsplit & Hf & Hs & Hr)];
      rewrite Hr.
    + simpl used_strategy. cbv iota.
      destruct e; destruct (page_title E p w1) as [[t|m'] w']; discriminate.
    + assert (Hl : u ∈ search_labels).
      { apply (strategy_labels p query st w1 u w2); [| exact Hs].
        rewrite Hsplit. apply elem_of_app. right. apply list_elem_of_here. }
      rewrite (label_is_used u Hl).
      destruct (results_wait E p w2) as [[[]|m] w3] eqn:Hw.
      * intros H. inversion H; subst. exists pre, st, post, w1, e, u, w2.
        repeat split; auto.
      * destruct (page_title E p w3) as [[t|m'] w']; discriminate.
  - intros (pre & st & post & w1 & e & u & w2 & Hsplit & Hf & Hs & Hl & Hw & -> & Hs').
    rewrite Hsplit, (run_strategies_first_success pre st post None _ _ e u w2 Hf Hs).
    rewrite (label_is_used u Hl), Hw, Hs'. reflexivity.
Qed.

(** A search throws exactly when every strategy failed, or when the
    fallback delay after a successful one failed; what it throws is the
    report of the cause with the url and title of the page, or the error of
    the title when that cannot be read; the server object is as before. *)
Theorem search_fails_with_a_report (query : value) (s : St) (p : PageH) (m : string)
    (s' : St) :
  page (srv s) = Some p →
  githubSearch E query s = (Throw m, s') ↔
  srv s' = srv s
  ∧ ((∃ w1 last,
        strategies_fail (searchStrategies E p query) (world s) None = Some (w1, Some last)
        ∧ reported E p ("All GitHub search strategies failed. Last error: " +:+ last)
            w1 m (world s'))
     ∨ (∃ pre strategy post w1 e used w2 cause w3,
          searchStrategies E p query = pre ++ strategy :: post
          ∧ strategies_fail pre (world s) None = Some (w1, e)
          ∧ strategy w1 = (Ret used, w2)
          ∧ results_wait E p w2 = (Throw cause, w3)
          ∧ reported E p cause w3 m (world s'))).
Proof.
  intros Hp. rewrite (githubSearch_with_page query s p Hp). cbv zeta.
  assert (Hreport : ∀ cause w,
    match page_title E p w with
    | (Ret title, w') => (Throw (search_report cause (page_url E p w) title), moved s w')
    | (Throw m0, w') => (@Throw result m0, moved s w')
    end = (Throw m, s')
    ↔ srv s' = srv s ∧ reported E p cause w m (world s')).
  { intros cause w. unfold reported.
    destruct (page_title E p w) as [[t|m0] w']; split.
    - intros H. inversion H; subst. split; [reflexivity|].
      right. exists t. split; reflexivity.
    - intros [Hsrv [H | (t' & H & ->)]]; inversion H; subst.
      destruct s' as [sv wv]. simpl in *. subst. reflexivity.
    - intros H. inversion H; subst. split; [reflexivity|]. left. reflexivity.
    - intros [Hsrv [H | (t' & H & _)]]; inversion H; subst.
      destruct s' as [sv wv]. simpl in *. subst. reflexivity. }
  destruct (run_strategies_cases (searchStrategies E p query) None (world s))
    as [(w1 & e & Hf & Hr) | (pre & st & post & w1 & e & u & w2 & Hsplit & Hf & Hs & Hr)];
    rewrite Hr.
  - simpl used_strategy. cbv iota.
    destruct (strategies_fail_last _ _ _ _ _ Hf) as [last ->]; [discriminate|].
    rewrite Hreport. split.
    + intros [Hsrv Hrep]. split; [exact Hsrv|]. left. exists w1, last. split; auto.
    + intros [Hsrv [(w1' & last' & Hf' & Hrep)
                   | (pre & st & post & wa & e & u & wb & cause & wc & Hsplit & Hfp & Hs & _)]].
      * rewrite Hf in Hf'. inversion Hf'; subst. split; auto.
      * exfalso. rewrite Hsplit in Hf.
        exact (strategies_fail_exclusive _ _ _ _ _ _ _ _ _ _ _ Hfp Hs Hf).
  - assert (Hl : u ∈ search_labels).
    { apply (strategy_labels p query st w1 u w2); [| exact Hs].
      rewrite Hsplit. apply elem_of_app. right. apply list_elem_of_here. }
    rewrite (label_is_used u Hl). split.
    + destruct (results_wait E p w2) as [[[]|cause] w3] eqn:Hw; [discriminate|].
      rewrite Hreport. intros [Hsrv Hrep]. split; [exact Hsrv|]. right.
      exists pre, st, post, w1, e, u, w2, cause, w3. repeat split; auto.
    + intros [Hsrv [(w1' & last' & Hf' & Hrep)
                   | (pre' & st' & post' & wa & e' & u' & wb & cause & wc
                      & Hsplit' & Hfp & Hs' & Hw & Hrep)]].
      * exfalso. rewrite Hsplit in Hf'.
        exact (strategies_fail_exclusive _ _ _ _ _ _ _ _ _ _ _ Hf Hs Hf').
      * pose proof (run_strategies_first_success pre' st' post' None _ _ e' u' wb Hfp Hs')
          as Hr'.
        rewrite <- Hsplit', Hr in Hr'. inversion Hr'; subst.
        rewrite Hw. apply Hreport. split; auto.
Qed.

End DriverProperties.

(** * The bridge *)

Section BridgeProperties.

Import Bridge.

Lemma onData_unparsed (i : nat) (b : Bridge) : onData i None b = (Ret tt, b).
Proof. reflexivity. Qed.

Lemma settlement_settled (fields : list (string * value)) : settlement fields ≠ Pending.
Proof. unfold settlement. destruct (truthy _); discriminate. Qed.

Lemma onData_hit (i : nat) (fields : list (string * value)) (b : Bridge) :
  lookup_field "id" fields = VNum (Z.of_nat i) →
  onData i (Some (VObj fields)) b = (Ret tt, deliver i (settlement fields) b).
Proof.
  intros Hid. unfold onData, try_catch, bind, JSON_parse, get_prop, ret.
  rewrite Hid. unfold strict_eq_id. rewrite Z.eqb_refl.
  unfold clearTimeout, off, deliver, unlisten, settlement, reject, resolve,
    clearTimeout, off.
  destruct (truthy (lookup_field "error" fields)) eqn:Ht; cbn [fst snd].
  - destruct (lookup_field "error" fields); try discriminate; reflexivity.
  - reflexivity.
Qed.

Lemma onData_miss (i j : nat) (fields : list (string * value)) (b : Bridge) :
  lookup_field "id" fields = VNum (Z.of_nat i) → j ≠ i →
  onData j (Some (VObj fields)) b = (Ret tt, b).
Proof.
  intros Hid Hne. unfold onData, try_catch, bind, JSON_parse, get_prop, ret.
  rewrite Hid. unfold strict_eq_id.
  destruct (Z.eqb_spec (Z.of_nat i) (Z.of_nat j)) as [Heq|]; [| reflexivity].
  apply Nat2Z.inj in Heq. congruence.
Qed.

(** Whatever the frame, a listener either ignores it or delivers it to its
    own call. *)
Lemma onData_cases (j : nat) (data : option value) (b : Bridge) :
  onData j data b = (Ret tt, b)
  ∨ ∃ fields, data = Some (VObj fields)
              ∧ lookup_field "id" fields = VNum (Z.of_nat j)
              ∧ onData j data b = (Ret tt, deliver j (settlement fields) b).
Proof.
  destruct data as [[| | b0 | z | s0 | items | fields]|]; try (left; reflexivity).
  destruct (lookup_field "id" fields) as [| | b0 | z | s0 | items | fields'] eqn:Hid;
    try (left; unfold onData, try_catch, bind, JSON_parse, get_prop, ret;
         rewrite Hid; reflexivity).
  destruct (Z.eqb_spec z (Z.of_nat j)) as [-> | Hne].
  - right. exists fields. split; [reflexivity | split; [exact Hid|]].
    now apply onData_hit.
  - left. unfold onData, try_catch, bind, JSON_parse, get_prop, ret.
    rewrite Hid. unfold strict_eq_id.
    destruct (Z.eqb_spec z (Z.of_nat j)); [contradiction | reflexivity].
Qed.

Lemma filter_idem {A} (P : A → Prop) `{∀ x, Decision (P x)} (l : list A) :
  filter P (filter P l) = filter P l.
Proof.
  induction l as [|x l IH]; [reflexivity|].
  rewrite filter_cons. destruct (decide (P x)) as [Hx|Hx]; [| exact IH].
  rewrite filter_cons. destruct (decide (P x)); [now rewrite IH | contradiction].
Qed.

Lemma unlisten_idem (i : nat) (b : Bridge) : unlisten i (unlisten i b) = unlisten i b.
Proof.
  unfold unlisten, off, clearTimeout; simpl. now rewrite !filter_idem.
Qed.

Lemma settle_unlisten (i : nat) (p : promise) (b : Bridge) :
  unlisten i (settle i p b) = settle i p (unlisten i b).
Proof.
  unfold settle, unlisten, off, clearTimeout; simpl.
  destruct (promises b !! i) as [[| |]|]; reflexivity.
Qed.

Lemma settle_idem (i : nat) (p : promise) (b : Bridge) :
  p ≠ Pending → settle i p (settle i p b) = settle i p b.
Proof.
  intros Hp. unfold settle at 2.
  destruct (promises b !! i) as [[| |]|] eqn:Hi;
    unfold settle; simpl; try rewrite Hi; try reflexivity.
  rewrite lookup_insert_eq. destruct p; [congruence | reflexivity | reflexivity].
Qed.

Lemma deliver_idem (i : nat) (p : promise) (b : Bridge) :
  p ≠ Pending → deliver i p (deliver i p b) = deliver i p b.
Proof.
  intros Hp. unfold deliver.
  rewrite settle_unlisten, unlisten_idem. now apply settle_idem.
Qed.

Lemma emit_fold (i : nat) (fields : list (string * value)) (l : list nat) (b : Bridge) :
  lookup_field "id" fields = VNum (Z.of_nat i) →
  fold_left (fun b' j => (onData j (Some (VObj fields)) b').2) l b
  = if bool_decide (i ∈ l) then deliver i (settlement fields) b else b.
Proof.
  intros Hid. revert b. induction l as [|j l IH]; intros b; [reflexivity|].
  simpl fold_left. rewrite IH.
  destruct (decide (j = i)) as [-> | Hne].
  - rewrite (onData_hit i fields b Hid). simpl.
    rewrite (bool_decide_eq_true_2 (i ∈ i :: l)) by apply list_elem_of_here.
    destruct (bool_decide (i ∈ l)); [| reflexivity].
    apply deliver_idem, settlement_settled.
  - rewrite (onData_miss i j fields b Hid Hne). simpl.
    destruct (decide (i ∈ l)) as [Hin | Hnin].
    + rewrite !bool_decide_eq_true_2; [reflexivity | | exact Hin].
      now apply list_elem_of_further.
    + rewrite !bool_decide_eq_false_2; [reflexivity | | exact Hnin].
      intros Hc. apply elem_of_cons in Hc as [? | ?]; [congruence | contradiction].
Qed.

Lemma emit_data_response (i : nat) (fields : list (string * value)) (b : Bridge) :
  lookup_field "id" fields = VNum (Z.of_nat i) →
  emit_data (Some (VObj fields)) b
  = if bool_decide (i ∈ listeners b) then deliver i (settlement fields) b else b.
Proof. intros Hid. unfold emit_data. now apply emit_fold. Qed.

(** *** What the events leave alone *)

Lemma settle_frame (i : nat) (p : promise) (b : Bridge) :
  isConnected (settle i p b) = isConnected b
  ∧ messageId (settle i p b) = messageId b
  ∧ stdin (settle i p b) = stdin b
  ∧ listeners (settle i p b) = listeners b
  ∧ timers (settle i p b) = timers b.
Proof. unfold settle. destruct (promises b !! i) as [[| |]|]; auto. Qed.

Lemma deliver_frame (i : nat) (p : promise) (b : Bridge) :
  isConnected (deliver i p b) = isConnected b
  ∧ messageId (deliver i p b) = messageId b
  ∧ stdin (deliver i p b) = stdin b.
Proof.
  unfold deliver. destruct (settle_frame i p (unlisten i b)) as (-> & -> & -> & _).
  auto.
Qed.

Lemma onData_frame (j : nat) (data : option value) (b : Bridge) :
  isConnected (onData j data b).2 = isConnected b
  ∧ messageId (onData j data b).2 = messageId b
  ∧ stdin (onData j data b).2 = stdin b.
Proof.
  destruct (onData_cases j data b) as [-> | (fields & _ & _ & ->)]; [auto|].
  apply deliver_frame.
Qed.

Lemma emit_data_frame (data : option value) (b : Bridge) :
  isConnected (emit_data data b) = isConnected b
  ∧ messageId (emit_data data b) = messageId b
  ∧ stdin (emit_data data b) = stdin b.
Proof.
  unfold emit_data. generalize (listeners b) as l. intros l. revert b.
  induction l as [|j l IH]; intros b; simpl; [auto|].
  destruct (IH (onData j data b).2) as (-> & -> & ->). apply onData_frame.
Qed.

Lemma timeouts_frame (due : list (nat * Z)) (b : Bridge) :
  isConnected (fold_left (fun b' tm => (on_timeout tm.1 b').2) due b) = isConnected b
  ∧ messageId (fold_left (fun b' tm => (on_timeout tm.1 b').2) due b) = messageId b
  ∧ stdin (fold_left (fun b' tm => (on_timeout tm.1 b').2) due b) = stdin b
  ∧ listeners (fold_left (fun b' tm => (on_timeout tm.1 b').2) due b) = listeners b
  ∧ timers (fold_left (fun b' tm => (on_timeout tm.1 b').2) due b) = timers b.
Proof.
  revert b. induction due as [|tm due IH]; intros b; [simpl; auto|].
  cbn [fold_left].
  destruct (IH (on_timeout tm.1 b).2) as (-> & -> & -> & -> & ->).
  apply settle_frame.
Qed.

Lemma elapse_frame (dt : N) (b : Bridge) :
  isConnected (elapse dt b) = isConnected b
  ∧ messageId (elapse dt b) = messageId b
  ∧ stdin (elapse dt b) = stdin b
  ∧ listeners (elapse dt b) = listeners b.
Proof.
  unfold elapse. simpl.
  destruct (timeouts_frame
              (filter (fun tm => (tm.2 ≤ now b + Z.of_N dt)%Z) (timers b)) b)
    as (H1 & H2 & H3 & H4 & _).
  auto.
Qed.



(** *** A settled promise stays as it is *)

Lemma settle_keeps_settled (i j : nat) (p x : promise) (b : Bridge) :
  promises b !! i = Some x → x ≠ Pending → promises (settle j p b) !! i = Some x.
Proof.
  intros Hi Hx. unfold settle.
  destruct (promises b !! j) as [[| |]|] eqn:Hj; simpl; try exact Hi.
  destruct (decide (j = i)) as [-> | Hne]; [congruence|].
  now rewrite lookup_insert_ne.
Qed.

Lemma onData_keeps_settled (i j : nat) (data : option value) (x : promise) (b : Bridge) :
  promises b !! i = Some x → x ≠ Pending → promises (onData j data b).2 !! i = Some x.
Proof.
  intros Hi Hx.
  destruct (onData_cases j data b) as [-> | (fields & _ & _ & ->)]; [exact Hi|].
  unfold deliver. now apply settle_keeps_settled.
Qed.

Lemma emit_data_keeps_settled (i : nat) (data : option value) (x : promise) (b : Bridge) :
  promises b !! i = Some x → x ≠ Pending → promises (emit_data data b) !! i = Some x.
Proof.
  unfold emit_data. generalize (listeners b) as l. intros l. revert b.
  induction l as [|j l IH]; intros b Hi Hx; simpl; [exact Hi|].
  apply IH; [| exact Hx]. now apply onData_keeps_settled.
Qed.

Lemma timeouts_keep_settled (i : nat) (due : list (nat * Z)) (x : promise) (b : Bridge) :
  promises b !! i = Some x → x ≠ Pending →
  promises (fold_left (fun b' tm => (on_timeout tm.1 b').2) due b) !! i = Some x.
Proof.
  revert b. induction due as [|tm due IH]; intros b Hi Hx; [exact Hi|].
  cbn [fold_left]. apply IH; [| exact Hx].
  now apply settle_keeps_settled.
Qed.

Lemma step_keeps_settled (i : nat) (e : event) (x : promise) (b : Bridge) :
  i ≤ messageId b → promises b !! i = Some x → x ≠ Pending →
  promises (step b e) !! i = Some x ∧ i ≤ messageId (step b e).
Proof.
  intros Hle Hi Hx. destruct e as [method params | data | dt]; cbn [step].
  - unfold sendMCPRequest. destruct (isConnected b); simpl; [| auto].
    split; [| lia]. rewrite lookup_insert_ne; [exact Hi | lia].
  - destruct (emit_data_frame data b) as (_ & -> & _).
    split; [now apply emit_data_keeps_settled | exact Hle].
  - destruct (elapse_frame dt b) as (_ & -> & _).
    split; [| exact Hle]. unfold elapse. simpl. now apply timeouts_keep_settled.
Qed.

Lemma run_keeps_settled (i : nat) (es : list event) (x : promise) (b : Bridge) :
  i ≤ messageId b → promises b !! i = Some x → x ≠ Pending →
  promises (run es b) !! i = Some x.
Proof.
  revert b. induction es as [|e es IH]; intros b Hle Hi Hx; [exact Hi|].
  destruct (step_keeps_settled i e x b Hle Hi Hx) as [Hi' Hle'].
  exact (IH (step b e) Hle' Hi' Hx).
Qed.

(** A frame that does not parse is swallowed: no listener reacts to it. *)
Theorem unparsed_frame_changes_nothing (b : Bridge) : emit_data None b = b.
Proof.
  unfold emit_data. generalize (listeners b) as l. intros l. revert b.
  induction l as [|j l IH]; intros b; [reflexivity|].
  cbn [fold_left]. rewrite onData_unparsed. apply IH.
Qed.

(** Once the promise of a call is settled, no later call, frame or timer
    changes it: a rejection is final. *)
Theorem settled_promise_is_final (i : nat) (x : promise) (b : Bridge)
    (es : list event) :
  i ≤ messageId b → promises b !! i = Some x → x ≠ Pending →
  promises (run es b) !! i = Some x.
Proof. intros Hle Hi Hx. now apply run_keeps_settled. Qed.

(** * Further properties of the bridge *)

Lemma onData_unclaimed (j : nat) (data : option value) (b : Bridge) :
  (∀ fields, data = Some (VObj fields) → lookup_field "id" fields ≠ VNum (Z.of_nat j)) →
  onData j data b = (Ret tt, b).
Proof.
  intros Hno. destruct (onData_cases j data b) as [H | (fields & Hd & Hid & _)];
    [exact H|].
  destruct (Hno fields Hd Hid).
Qed.

(** A chunk that no registered listener claims (a notification, a
    response for an id nobody waits for, JSON that is not an object) is
    dropped: nothing of the bridge changes. *)
Theorem unclaimed_frame_is_discarded (data : option value) (b : Bridge) :
  unclaimed data b → emit_data data b = b.
Proof.
  unfold unclaimed, emit_data. intros Hno.
  assert (Hfold : ∀ l b', (∀ j, j ∈ l → j ∈ listeners b) →
            fold_left (fun b0 i => (onData i data b0).2) l b' = b').
  { induction l as [|j l IH]; intros b' Hl; [reflexivity|].
    cbn [fold_left]. rewrite onData_unclaimed.
    - apply IH. intros k Hk. apply Hl. now apply list_elem_of_further.
    - intros fields Hd. apply (Hno j fields); [| exact Hd].
      apply Hl, list_elem_of_here. }
  apply Hfold. auto.
Qed.

(** A response takes its own listener off stdout and disarms its own
    timer, also when the call is no longer pending; the listeners and timers
    of the other calls stay. *)
Theorem response_unregisters_its_own_call (i : nat) (fields : list (string * value))
    (b : Bridge) :
  lookup_field "id" fields = VNum (Z.of_nat i) →
  i ∈ listeners b →
  listeners (emit_data (Some (VObj fields)) b) = filter (fun j => j ≠ i) (listeners b)
  ∧ timers (emit_data (Some (VObj fields)) b) = filter (fun t => t.1 ≠ i) (timers b)
  ∧ ∀ j, j ≠ i →
      promises (emit_data (Some (VObj fields)) b) !! j = promises b !! j.
Proof.
  intros Hid Hin. rewrite (emit_data_response i fields b Hid).
  rewrite (bool_decide_eq_true_2 _ Hin). unfold deliver.
  destruct (settle_frame i (settlement fields) (unlisten i b)) as (_ & _ & _ & -> & ->).
  split; [reflexivity | split; [reflexivity|]].
  intros j Hne. unfold settle. simpl.
  destruct (promises b !! i) as [[| |]|]; simpl; try reflexivity.
  now rewrite lookup_insert_ne.
Qed.

(** What a response settles a pending call with. An [error] object
    rejects with its [message]; an [error] that is a string rejects with the
    empty message; a frame whose [error] is absent or [null] resolves with
    its [result]. *)
Theorem error_frames_reject_and_result_frames_resolve (i : nat)
    (fields : list (string * value)) (b : Bridge) :
  lookup_field "id" fields = VNum (Z.of_nat i) →
  i ∈ listeners b →
  promises b !! i = Some Pending →
  (∀ detail m, lookup_field "error" fields = VObj detail →
               lookup_field "message" detail = VStr m →
               promises (emit_data (Some (VObj fields)) b) !! i = Some (Rejected m))
  ∧ (∀ text, lookup_field "error" fields = VStr text → text ≠ "" →
             promises (emit_data (Some (VObj fields)) b) !! i = Some (Rejected ""))
  ∧ (lookup_field "error" fields = VUndef ∨ lookup_field "error" fields = VNull →
     promises (emit_data (Some (VObj fields)) b) !! i
     = Some (Resolved (lookup_field "result" fields))).
Proof.
  intros Hid Hin Hp.
  assert (Hset : promises (emit_data (Some (VObj fields)) b) !! i
                 = Some (settlement fields)).
  { rewrite (emit_data_response i fields b Hid), (bool_decide_eq_true_2 _ Hin).
    unfold deliver, settle. simpl. rewrite Hp. simpl. apply lookup_insert_eq. }
  rewrite Hset. unfold settlement. repeat split.
  - intros detail m He Hm. rewrite He. simpl. unfold field. rewrite Hm. reflexivity.
  - intros text He Hne. rewrite He. simpl.
    destruct text; [contradiction | reflexivity].
  - intros [He | He]; rewrite He; reflexivity.
Qed.

(** *** Deadlines *)








(** * The claims about the bridge *)


(** C4, on the code as it is. A call is made and thirty seconds pass with
    no response: the promise of the call is rejected with the timeout
    message, and the listener of the call is still registered on stdout. A
    response for the call that arrives afterwards finds that listener, which
    takes itself off only then; the promise stays rejected. *)
Theorem timeout_leaves_listener_registered (method : string) (params late : value) :
  promises (run [Call method params; Elapse 30000] (connected new_bridge)) !! 1
  = Some (Rejected "MCP request timeout")
  ∧ listeners (run [Call method params; Elapse 30000] (connected new_bridge)) = [1]
  ∧ promises (run [Call method params; Elapse 30000; Data (Some (response_ok 1 late))]
                (connected new_bridge)) !! 1
    = Some (Rejected "MCP request timeout")
  ∧ listeners (run [Call method params; Elapse 30000; Data (Some (response_ok 1 late))]
                 (connected new_bridge)) = [].
Proof. repeat split; vm_compute; reflexivity. Qed.

End BridgeProperties.

(** * Start-up *)

Section StartupProperties.

Import Startup.

Lemma run_idle (es : list event) (c : Start) :
  Forall idle_chunk es → run es c = c.
Proof.
  revert c. induction es as [|e es IH]; intros c Hall; [reflexivity|].
  inversion Hall as [|? ? (chunk & -> & Hno) Hrest]; subst.
  unfold run. cbn [fold_left step]. rewrite Hno. now apply IH.
Qed.

Lemma step_settled (e : event) (c : Start) :
  started c ≠ Bridge.Pending → started (step c e) ≠ Bridge.Pending.
Proof.
  intros Hc. destruct e as [chunk | m]; simpl.
  - destruct (includes chunk banner); [| exact Hc].
    simpl. destruct (started c); [contradiction | discriminate | discriminate].
  - destruct (started c); [contradiction | discriminate | discriminate].
Qed.

Lemma run_settled (es : list event) (c : Start) :
  started c ≠ Bridge.Pending → started (run es c) ≠ Bridge.Pending.
Proof.
  revert c. induction es as [|e es IH]; intros c Hc; [exact Hc|].
  apply (IH (step c e)). now apply step_settled.
Qed.

Lemma step_connected (e : event) (c : Start) :
  isConnected c = true → isConnected (step c e) = true.
Proof.
  intros Hc. destruct e as [chunk | m]; simpl; [| exact Hc].
  now destruct (includes chunk banner).
Qed.

Lemma run_connected (es : list event) (c : Start) :
  isConnected c = true → isConnected (run es c) = true.
Proof.
  revert c. induction es as [|e es IH]; intros c Hc; [exact Hc|].
  apply (IH (step c e)). now apply step_connected.
Qed.

(** Readiness is read chunk by chunk. The promise of [startMCPServer]
    stays pending exactly as long as every event is a stderr chunk without
    the whole banner in it, however long that lasts; the object is
    connected exactly when some single chunk held the banner; a banner that
    arrives split over two chunks is not seen. *)
Theorem readiness_is_read_chunk_by_chunk :
  (∀ es, started (run es spawned) = Bridge.Pending ↔ Forall idle_chunk es)
  ∧ (∀ es, isConnected (run es spawned) = true
           ↔ ∃ chunk, Stderr chunk ∈ es ∧ includes chunk banner = true)
  ∧ (∀ a b, includes a banner = false → includes b banner = false →
            run [Stderr a; Stderr b] spawned = spawned).
Proof.
  split; [| split].
  - intros es. split.
    + generalize spawned, (eq_refl : started spawned = Bridge.Pending).
      induction es as [|e es IH]; intros c Hc Hrun; [constructor|].
      assert (Hidle : idle_chunk e).
      { destruct e as [chunk | m].
        - exists chunk. split; [reflexivity|].
          destruct (includes chunk banner) eqn:Hin; [| reflexivity].
          exfalso. revert Hrun. apply (run_settled es (step c (Stderr chunk))).
          simpl. rewrite Hin, Hc. discriminate.
        - exfalso. revert Hrun. apply (run_settled es (step c (Failed m))).
          simpl. rewrite Hc. discriminate. }
      constructor; [exact Hidle|].
      apply (IH (step c e)); [| exact Hrun].
      destruct Hidle as (chunk & -> & Hno). simpl. now rewrite Hno.
    + intros Hall. now rewrite run_idle.
  - intros es. split.
    + generalize spawned, (eq_refl : isConnected spawned = false).
      induction es as [|e es IH]; intros c Hc Hrun.
      * simpl in Hrun. congruence.
      * destruct e as [chunk | m].
        -- destruct (includes chunk banner) eqn:Hin.
           ++ exists chunk. split; [apply list_elem_of_here | exact Hin].
           ++ destruct (IH c Hc) as (x & Hx & Hb).
              { revert Hrun. unfold run. cbn [fold_left step]. now rewrite Hin. }
              exists x. split; [now apply list_elem_of_further | exact Hb].
        -- destruct (IH (step c (Failed m)) Hc Hrun) as (x & Hx & Hb).
           exists x. split; [now apply list_elem_of_further | exact Hb].
    + intros (chunk & Hin & Hb). generalize spawned.
      induction es as [|e es IH]; intros c; [inversion Hin|].
      apply elem_of_cons in Hin as [<- | Hin].
      * apply (run_connected es (step c (Stderr chunk))). simpl. now rewrite Hb.
      * apply (IH Hin).
  - intros a b Ha Hb. apply run_idle.
    repeat constructor; eexists; split; try reflexivity; assumption.
Qed.

End StartupProperties.

(** * The orchestrator *)

Section OrchestratorProperties.

Import Orchestrator.

(** ** Test names *)

(** A character of the lowered and blanked prompt is a separator or a
    character of a name. *)
Lemma blank_lower_char (c : Ascii.ascii) :
  is_space (blank (lower c)) || is_name_char (blank (lower c)) = true.
Proof. destruct c as [[] [] [] [] [] [] [] []]; vm_compute; reflexivity. Qed.

Lemma name_char_fixed (c : Ascii.ascii) :
  is_name_char c = true →
  blank (lower c) = c ∧ is_space c = false
  ∧ Nat.eqb (char_code c) 226 = false ∧ Nat.eqb (char_code c) 196 = false.
Proof.
  destruct c as [[] [] [] [] [] [] [] []]; vm_compute; intros H; auto; discriminate.
Qed.

Lemma blank_lead_byte (c : Ascii.ascii) :
  Nat.eqb (char_code c) 226 || Nat.eqb (char_code c) 196 = true →
  is_space (blank c) || is_name_char (blank c) = true.
Proof.
  destruct c as [[] [] [] [] [] [] [] []]; vm_compute; intros H; auto; discriminate.
Qed.

Lemma prepared_chars (s : string) :
  string_forall (fun c => is_space c || is_name_char c)
    (map_string blank (toLowerCase s)) = true.
Proof.
  assert (Hall : ∀ n s', String.length s' ≤ n →
            string_forall (fun c => is_space c || is_name_char c)
              (map_string blank (toLowerCase s')) = true).
  { clear s. induction n as [|n IH]; intros s Hlen.
    { destruct s; [reflexivity | simpl in Hlen; lia]. }
    destruct s as [|c rest]; [reflexivity|]. simpl in Hlen.
    assert (Hrest : String.length rest ≤ n) by lia.
    cbn [toLowerCase].
    destruct (Nat.eqb (char_code c) 226) eqn:H226.
    - assert (Hc : is_space (blank c) || is_name_char (blank c) = true).
      { apply blank_lead_byte. now rewrite H226. }
      assert (Hkeep : string_forall (fun c0 => is_space c0 || is_name_char c0)
                        (map_string blank (String c (toLowerCase rest))) = true).
      { cbn [map_string string_forall]. rewrite Hc. exact (IH rest Hrest). }
      destruct rest as [|c2 [|c3 rest']]; try exact Hkeep.
      destruct (Nat.eqb (char_code c2) 132 && Nat.eqb (char_code c3) 170);
        [| exact Hkeep].
      cbn [map_string string_forall]. simpl in Hrest.
      rewrite (IH rest') by lia. reflexivity.
    - destruct (Nat.eqb (char_code c) 196) eqn:H196.
      + assert (Hc : is_space (blank c) || is_name_char (blank c) = true).
        { apply blank_lead_byte. rewrite H196. now destruct (Nat.eqb _ 226). }
        assert (Hkeep : string_forall (fun c0 => is_space c0 || is_name_char c0)
                          (map_string blank (String c (toLowerCase rest))) = true).
        { cbn [map_string string_forall]. rewrite Hc. exact (IH rest Hrest). }
        destruct rest as [|c2 rest']; try exact Hkeep.
        destruct (Nat.eqb (char_code c2) 176); [| exact Hkeep].
        cbn [map_string string_forall]. simpl in Hrest.
        rewrite (IH rest') by lia. reflexivity.
      + cbn [map_string string_forall]. rewrite blank_lower_char.
        exact (IH rest Hrest). }
  exact (Hall (String.length s) s (Nat.le_refl _)).
Qed.

Lemma split_spaces_names (in_gap : bool) (word s : string) :
  string_forall is_name_char word = true →
  string_forall (fun c => is_space c || is_name_char c) s = true →
  Forall (fun w => string_forall is_name_char w = true) (split_spaces in_gap word s).
Proof.
  revert in_gap word. induction s as [|c s IH]; intros in_gap word Hw Hs; simpl.
  - constructor; [exact Hw | constructor].
  - simpl in Hs. apply andb_true_iff in Hs as [Hc Hs].
    destruct (is_space c) eqn:Hsp.
    + destruct in_gap; [now apply IH|].
      constructor; [exact Hw|]. now apply IH.
    + apply IH; [| exact Hs]. rewrite string_forall_app, Hw. simpl.
      simpl in Hc. now rewrite Hc.
Qed.

Lemma join_names (l : list string) :
  Forall (fun w => string_forall is_name_char w = true) l →
  string_forall is_name_char (join_strings "_" l) = true.
Proof.
  induction l as [|x l IH]; intros Hl; [reflexivity|].
  inversion Hl as [|? ? Hx Hl']; subst.
  destruct l as [|y l]; [exact Hx|].
  change (join_strings "_" (x :: y :: l)) with (x +:+ "_" +:+ join_strings "_" (y :: l)).
  rewrite !string_forall_app, Hx, (IH Hl'). reflexivity.
Qed.

Lemma Forall_take_filter {A} (P Q : A → Prop) `{∀ x, Decision (Q x)} (n : nat)
    (l : list A) :
  Forall P l → Forall (fun x => P x ∧ Q x) (take n (filter Q l)).
Proof.
  intros Hl. apply Forall_take. apply Forall_forall. intros x Hx.
  apply list_elem_of_filter in Hx as [Hq Hx].
  split; [| exact Hq]. rewrite Forall_forall in Hl. now apply Hl.
Qed.

Lemma join_length (l : list string) (x : string) :
  Forall (fun w => 2 < String.length w) (x :: l) →
  2 < String.length (join_strings "_" (x :: l)).
Proof.
  intros Hl. inversion Hl as [|? ? Hx Hl']; subst.
  destruct l as [|y l]; [exact Hx|].
  change (join_strings "_" (x :: y :: l)) with (x +:+ "_" +:+ join_strings "_" (y :: l)).
  rewrite string_length_app. lia.
Qed.

Lemma test_name_shape (prompt : string) :
  2 < String.length (extractTestName prompt)
  ∧ string_forall is_name_char (extractTestName prompt) = true.
Proof.
  unfold extractTestName.
  pose proof (Forall_take_filter
                (fun w => string_forall is_name_char w = true)
                (fun w => 2 < String.length w) 4
                (split_spaces false "" (map_string blank (toLowerCase prompt)))
                (split_spaces_names false "" _ eq_refl (prepared_chars prompt))) as Hall.
  destruct (take 4 _) as [|x l] eqn:Hwords.
  - simpl. split; [vm_compute; lia | reflexivity].
  - assert (Hlen : 2 < String.length (join_strings "_" (x :: l))).
    { apply join_length. eapply Forall_impl; [exact Hall|]. intros w [_ Hw]. exact Hw. }
    assert (Hname : string_forall is_name_char (join_strings "_" (x :: l)) = true).
    { apply join_names. eapply Forall_impl; [exact Hall|]. intros w [Hw _]. exact Hw. }
    destruct (join_strings "_" (x :: l)) as [|c rest]; [simpl in Hlen; lia|].
    simpl String.eqb. split; [exact Hlen | exact Hname].
Qed.

(** Whatever the prompt, the test name is not empty, has more than two
    characters, and is made of lower-case letters, digits and underscores
    only: no quote, no space and no line break of the prompt gets into it. *)
Theorem test_names_are_identifiers (prompt : string) :
  2 < String.length (extractTestName prompt)
  ∧ string_forall is_name_char (extractTestName prompt) = true.
Proof. exact (test_name_shape prompt). Qed.

Lemma split_spaces_word (word s : string) :
  string_forall is_name_char s = true →
  split_spaces false word (map_string blank (toLowerCase s)) = [word +:+ s].
Proof.
  revert word. induction s as [|c s IH]; intros word Hs.
  - simpl. now rewrite append_empty_r.
  - simpl in Hs. apply andb_true_iff in Hs as [Hc Hs].
    destruct (name_char_fixed c Hc) as (Hfix & Hsp & H226 & H196).
    cbn [toLowerCase]. rewrite H226, H196.
    cbn [map_string split_spaces]. rewrite Hfix, Hsp, (IH _ Hs), append_assoc.
    reflexivity.
Qed.

(** A test name is its own test name: extracting a name from a name
    that was extracted gives it back. *)
Theorem test_name_of_a_test_name (prompt : string) :
  extractTestName (extractTestName prompt) = extractTestName prompt.
Proof.
  destruct (test_name_shape prompt) as [Hlen Hname].
  generalize dependent (extractTestName prompt). intros name Hlen Hname.
  unfold extractTestName. rewrite (split_spaces_word "" name Hname).
  change ("" +:+ name) with name.
  rewrite filter_cons. destruct (decide (2 < String.length name)); [| contradiction].
  rewrite filter_nil. simpl.
  destruct name; [simpl in Hlen; lia | reflexivity].
Qed.

(** ** Requests and what they change *)

Section WithOutside.

Context {Outside : Type}.
Variable E : Env Outside.

Local Abbreviation St := (@St Outside).

Lemma get_name (S : Type) (action : value) :
  action ≠ VUndef → action ≠ VNull →
  @get_prop S action "name" = ret (field "name" action).
Proof. destruct action; intros H1 H2; try reflexivity; contradiction. Qed.

Lemma get_arguments (S : Type) (action : value) :
  action ≠ VUndef → action ≠ VNull →
  @get_prop S action "arguments" = ret (field "arguments" action).
Proof. destruct action; intros H1 H2; try reflexivity; contradiction. Qed.

(** What a request does to the object: the counter moves on, and with a
    child the request is written. *)
Lemma sendMCPRequest_cases (method : string) (params : value) (s : St)
    (r : outcome value) (s' : St) :
  sendMCPRequest E method params s = (r, s') →
  browserLaunched (this s') = browserLaunched (this s)
  ∧ mcpProcess (this s') = mcpProcess (this s)
  ∧ isConnected (this s') = isConnected (this s)
  ∧ match r with
    | Ret _ =>
        live s
        ∧ messageId (this s') = S (messageId (this s))
        ∧ stdin s'
          = stdin s ++ [ {| Bridge.jsonrpc := "2.0"; Bridge.id := S (messageId (this s));
                            Bridge.method := method;
                            Bridge.params := default_arg params (VObj []) |} ]
    | Throw _ => True
    end.
Proof.
  unfold sendMCPRequest, live.
  destruct (isConnected (this s)) eqn:Hc; simpl.
  - destruct (mcpProcess (this s)) eqn:Hm; simpl.
    + destruct (answer E _ (outside s)) as [[v|m] o]; intros H; inversion H; subst;
        simpl; auto 10.
    + intros H. inversion H; subst; simpl. auto.
  - intros H. inversion H; subst. rewrite Hc. auto.
Qed.

Lemma executeAction_spec (action : value) (s : St) :
  action ≠ VUndef → action ≠ VNull →
  executeAction E action s
  = match sendMCPRequest E "tools/call" (call_of action) s with
    | (Ret v, s1) =>
        (Ret v,
         {| this := {| mcpProcess := mcpProcess (this s1);
                       isConnected := isConnected (this s1);
                       messageId := messageId (this s1);
                       browserLaunched :=
                         tracked (field "name" action) (browserLaunched (this s1)) |};
            stdin := stdin s1; outside := outside s1 |})
    | (Throw m, s1) =>
        (Throw ("Failed to execute action " +:+ to_string (field "name" action)
                +:+ ": " +:+ m), s1)
    end.
Proof.
  intros H1 H2. unfold executeAction.
  rewrite !(get_name St action H1 H2), (get_arguments St action H1 H2).
  unfold try_catch, bind, ret, throw, call_of.
  destruct (sendMCPRequest E "tools/call" _ s) as [[v|m] s1]; [| reflexivity].
  unfold tracked, set_browserLaunched.
  destruct (is_name (field "name" action) "launch_browser"); [reflexivity|].
  destruct (is_name (field "name" action) "close_browser"); [reflexivity|].
  destruct s1 as [[] ? ?]. reflexivity.
Qed.

Lemma executeAction_nullish (action : value) (s : St) :
  action = VUndef ∨ action = VNull →
  ∃ m, executeAction E action s = (Throw m, s).
Proof. intros [-> | ->]; eexists; reflexivity. Qed.

Lemma executeAction_cases (action : value) (s : St)
    (r : outcome value) (s' : St) :
  executeAction E action s = (r, s') →
  match r with
  | Ret _ =>
      browserLaunched (this s')
      = tracked (field "name" action) (browserLaunched (this s))
      ∧ stdin s' = stdin s ++ [request_of (S (messageId (this s))) (call_of action)]
      ∧ messageId (this s') = S (messageId (this s))
  | Throw m =>
      browserLaunched (this s') = browserLaunched (this s)
      ∧ (action = VUndef ∨ action = VNull
         ∨ ∃ cause, m = "Failed to execute action " +:+ to_string (field "name" action)
                        +:+ ": " +:+ cause)
  end.
Proof.
  assert (Hcase : (action = VUndef ∨ action = VNull)
                  ∨ (action ≠ VUndef ∧ action ≠ VNull)).
  { destruct action; auto; right; split; discriminate. }
  destruct Hcase as [Hn | [H1 H2]].
  - destruct (executeAction_nullish action s Hn) as [m ->].
    intros H. inversion H; subst. tauto.
  - rewrite (executeAction_spec action s H1 H2).
    destruct (sendMCPRequest E "tools/call" (call_of action) s) as [[v|m] s1] eqn:Hsend;
      apply sendMCPRequest_cases in Hsend as (Hb & _ & _ & Hrest);
      intros H; inversion H; subst; simpl.
    + destruct Hrest as (_ & Hid & Hin). rewrite Hb, Hid, Hin. auto.
    + split; [exact Hb|]. right. right. eauto.
Qed.

(** An action whose request is answered moves the counter by one, writes
    one request carrying its name and arguments, and sets [browserLaunched]
    by its name, whatever the answer says; an action that fails leaves
    [browserLaunched] alone, and its error names the action. *)
Theorem browser_flag_follows_the_answered_requests (action : value) (s : St)
    (r : outcome value) (s' : St) :
  executeAction E action s = (r, s') →
  match r with
  | Ret _ =>
      browserLaunched (this s')
      = tracked (field "name" action) (browserLaunched (this s))
      ∧ stdin s' = stdin s ++ [request_of (S (messageId (this s))) (call_of action)]
      ∧ messageId (this s') = S (messageId (this s))
  | Throw m =>
      browserLaunched (this s') = browserLaunched (this s)
      ∧ (action = VUndef ∨ action = VNull
         ∨ ∃ cause, m = "Failed to execute action " +:+ to_string (field "name" action)
                        +:+ ": " +:+ cause)
  end.
Proof. exact (executeAction_cases action s r s'). Qed.

(** ** One prompt *)

Lemma lift_frame {A} (c : M Outside A) (s : St) (r : outcome A) (s' : St) :
  lift c s = (r, s') → this s' = this s ∧ stdin s' = stdin s.
Proof.
  unfold lift. destruct (c (outside s)) as [x o]. intros H. inversion H; subst. auto.
Qed.

Lemma analyzePrompt_spec (prompt : string) (s : St) :
  analyzePrompt E prompt s
  = match chat E (browserLaunched (this s)) prompt (outside s) with
    | (Throw m, o) => (Throw m, {| this := this s; stdin := stdin s; outside := o |})
    | (Ret completion, o) =>
        (match (choices <- get_prop completion "choices" ;;
                choice <- first_item choices ;;
                message <- get_prop choice "message" ;;
                actionsText <- get_prop message "content" ;;
                jsonText <- json_text E actionsText ;;
                fun u => (JSON_parse E jsonText, u)) tt with
         | (Ret v, _) => Ret v
         | (Throw m, _) => Throw ("Failed to parse AI response: " +:+ m)
         end,
         {| this := this s; stdin := stdin s; outside := o |})
    end.
Proof.
  unfold analyzePrompt, bind at 1, get_this, bind at 1, lift.
  destruct (chat E (browserLaunched (this s)) prompt (outside s)) as [[completion|m] o];
    [| reflexivity].
  unfold try_catch, bind, throw.
  destruct completion; try reflexivity; simpl;
    destruct (lookup_field "choices" fields) as [| | ? | ? | t | items | fs];
    try reflexivity; simpl.
  - destruct t as [|c t]; reflexivity.
  - destruct items as [|[| | ? | ? | ? | ? | cf] items]; try reflexivity; simpl.
    destruct (lookup_field "message" cf) as [| | ? | ? | ? | ? | mf]; try reflexivity; simpl.
    destruct (lookup_field "content" mf) as [| | ? | ? | text | ? | ?];
      try reflexivity; simpl.
    destruct (JSON_parse E _); reflexivity.
  - destruct (lookup_field "0" fs) as [| | ? | ? | ? | ? | cf]; try reflexivity; simpl.
    destruct (lookup_field "message" cf) as [| | ? | ? | ? | ? | mf]; try reflexivity; simpl.
    destruct (lookup_field "content" mf) as [| | ? | ? | text | ? | ?];
      try reflexivity; simpl.
    destruct (JSON_parse E _); reflexivity.
Qed.

Lemma analyzePrompt_frame (prompt : string) (s : St) (r : outcome value) (s' : St) :
  analyzePrompt E prompt s = (r, s') → this s' = this s ∧ stdin s' = stdin s.
Proof.
  rewrite analyzePrompt_spec.
  destruct (chat E _ prompt (outside s)) as [[completion|m] o];
    intros H; inversion H; subst; auto.
Qed.

Lemma for_of_frame (actions : value) (s : St) (r : outcome (list value)) (s' : St) :
  for_of actions s = (r, s') →
  s' = s ∧ (@for_of unit actions tt).1 = r.
Proof. destruct actions; intros H; inversion H; auto. Qed.

Lemma processPrompt_spec (prompt : string) (s : St) :
  processPrompt E prompt s
  = match analyzePrompt E prompt s with
    | (Throw m, s0) => (Ret (failure_report prompt m), s0)
    | (Ret actions, s0) =>
        match (@for_of unit actions tt).1 with
        | Throw m => (Ret (failure_report prompt m), s0)
        | Ret items =>
            match run_actions E items [] s0 with
            | (Throw m, s2) => (Ret (failure_report prompt m), s2)
            | (Ret results, s2) =>
                if Nat.ltb 0 (length items) then
                  match sendMCPRequest E "tools/call"
                          (generate_test_call prompt actions) s2 with
                  | (Ret t, s3) =>
                      (Ret (success_report prompt actions (results ++ [t])), s3)
                  | (Throw m, s3) => (Ret (failure_report prompt m), s3)
                  end
                else (Ret (success_report prompt actions results), s2)
            end
        end
    end.
Proof.
  unfold processPrompt, try_catch, bind at 1.
  destruct (analyzePrompt E prompt s) as [[actions|m] s0]; [| reflexivity].
  unfold bind at 1.
  destruct (for_of actions s0) as [ri s1] eqn:Hfor.
  apply for_of_frame in Hfor as [-> <-].
  destruct (@for_of unit actions tt).1 as [items|m]; [| reflexivity].
  unfold bind at 1.
  destruct (run_actions E items [] s0) as [[results|m] s2]; [| reflexivity].
  unfold bind at 1.
  destruct (Nat.ltb 0 (length items)); [| reflexivity].
  unfold bind at 1.
  destruct (sendMCPRequest E "tools/call" _ s2) as [[t|m] s3]; reflexivity.
Qed.

Lemma run_actions_done (items rest : list value) (acc results : list value) (s s' : St) :
  actions_done E items acc s = Some (results, s') →
  run_actions E (items ++ rest) acc s = run_actions E rest results s'.
Proof.
  revert acc s. induction items as [|a items IH]; intros acc s; simpl.
  - intros H. inversion H; subst. reflexivity.
  - unfold bind at 1.
    destruct (executeAction E a s) as [[v|m] s1]; [| discriminate].
    unfold bind at 1.
    destruct (lift (actionExecuted E a v) s1) as [[[]|m] s2]; [| discriminate].
    apply IH.
Qed.

Lemma requests_from_app (i : nat) (l1 l2 : list value) :
  requests_from i (l1 ++ l2) = requests_from i l1 ++ requests_from (i + length l1) l2.
Proof.
  revert i. induction l1 as [|x l1 IH]; intros i; simpl.
  - now rewrite Nat.add_0_r.
  - rewrite IH. now replace (S i + length l1) with (i + S (length l1)) by lia.
Qed.

(** The loop that returns has written one request for each action. *)
Lemma run_actions_trace (items acc results : list value) (s s' : St) :
  run_actions E items acc s = (Ret results, s') →
  stdin s' = stdin s ++ requests_from (S (messageId (this s))) (map call_of items)
  ∧ messageId (this s') = messageId (this s) + length items
  ∧ length results = length acc + length items.
Proof.
  revert acc s. induction items as [|a items IH]; intros acc s; simpl.
  - intros H. inversion H; subst. rewrite app_nil_r, !Nat.add_0_r. auto.
  - unfold bind at 1.
    destruct (executeAction E a s) as [[v|m] s1] eqn:Hexec; [| discriminate].
    apply executeAction_cases in Hexec as (_ & Hin & Hid).
    unfold bind at 1.
    destruct (lift (actionExecuted E a v) s1) as [[[]|m] s2] eqn:Hemit; [| discriminate].
    apply lift_frame in Hemit as [Hthis Hin'].
    intros H. apply IH in H as (Hs & Hm & Hl).
    rewrite Hs, Hm, Hl, Hin', Hin, Hthis, Hid, length_app, <- app_assoc. simpl.
    repeat split; lia.
Qed.

(** [processPrompt] never throws: it returns a report that quotes the
    prompt and either says success or carries the message of the error. *)
Theorem processPrompt_always_reports (prompt : string) (s : St) :
  ∃ report s',
    processPrompt E prompt s = (Ret report, s')
    ∧ field "prompt" report = VStr prompt
    ∧ (field "success" report = VBool true
       ∨ ∃ m, report = failure_report prompt m).
Proof.
  rewrite processPrompt_spec.
  destruct (analyzePrompt E prompt s) as [[actions|m] s0]; [| eauto 8].
  destruct (@for_of unit actions tt).1 as [items|m]; [| eauto 8].
  destruct (run_actions E items [] s0) as [[results|m] s2]; [| eauto 8].
  destruct (Nat.ltb 0 (length items)); [| eauto 8].
  destruct (sendMCPRequest E "tools/call" _ s2) as [[t|m] s3]; eauto 8.
Qed.

(** A prompt whose analysis fails is reported as failed with the error
    of the analysis, wrapped as a parse failure unless the language model
    call itself failed; nothing is sent to the driver and the object is as
    before. *)
Theorem analysis_failures_send_nothing (prompt : string) (s : St) (m : string)
    (s' : St) :
  analyzePrompt E prompt s = (Throw m, s') →
  processPrompt E prompt s = (Ret (failure_report prompt m), s')
  ∧ this s' = this s
  ∧ stdin s' = stdin s
  ∧ ((chat E (browserLaunched (this s)) prompt (outside s)).1 = Throw m
     ∨ ∃ cause, m = "Failed to parse AI response: " +:+ cause).
Proof.
  intros H. rewrite processPrompt_spec, H.
  destruct (analyzePrompt_frame prompt s _ _ H) as [Hthis Hin].
  repeat split; auto.
  revert H. rewrite analyzePrompt_spec.
  destruct (chat E _ prompt (outside s)) as [[completion|m0] o]; simpl.
  - match goal with |- context [match ?c tt with _ => _ end] =>
      destruct (c tt) as [[v|cause] []] end;
      intros H; inversion H; subst. right. eauto.
  - intros H. inversion H; subst. now left.
Qed.

(** The first action that fails ends the prompt: the report is the
    failure with the error of that action, and the state is the one that
    action left, so that nothing is requested for the actions after it and
    no script is asked for. *)
Theorem a_failing_action_ends_the_prompt (prompt : string) (s : St)
    (pre : list value) (action : value) (post : list value) (s0 : St)
    (results : list value) (s1 : St) (m : string) (s2 : St) :
  analyzePrompt E prompt s = (Ret (VArr (pre ++ action :: post)), s0) →
  actions_done E pre [] s0 = Some (results, s1) →
  executeAction E action s1 = (Throw m, s2) →
  processPrompt E prompt s = (Ret (failure_report prompt m), s2).
Proof.
  intros Han Hpre Hexec. rewrite processPrompt_spec, Han.
  unfold for_of, ret. cbn [fst].
  rewrite (run_actions_done pre (action :: post) [] results s0 s1 Hpre).
  simpl run_actions. unfold bind at 1. rewrite Hexec. reflexivity.
Qed.

(** A prompt reported as done has written exactly one request for each
    action of the plan, in the order of the plan and with consecutive ids,
    followed by one request for the script when the plan is not empty; the
    report holds one result for each of these requests. *)
Theorem a_completed_prompt_has_sent_every_action_once (prompt : string) (s : St)
    (report : value) (s' : St) :
  processPrompt E prompt s = (Ret report, s') →
  field "success" report = VBool true →
  ∃ actions items results,
    (@for_of unit actions tt).1 = Ret items
    ∧ report = success_report prompt actions results
    ∧ stdin s'
      = stdin s ++ requests_from (S (messageId (this s))) (calls_of prompt actions items)
    ∧ length results = length (calls_of prompt actions items).
Proof.
  rewrite processPrompt_spec.
  destruct (analyzePrompt E prompt s) as [[actions|m] s0] eqn:Han;
    [| intros H; inversion H; subst; discriminate].
  apply analyzePrompt_frame in Han as [Hthis Hin].
  destruct (@for_of unit actions tt).1 as [items|m] eqn:Hfor;
    [| intros H; inversion H; subst; discriminate].
  destruct (run_actions E items [] s0) as [[results|m] s2] eqn:Hrun;
    [| intros H; inversion H; subst; discriminate].
  apply run_actions_trace in Hrun as (Hs2 & Hm2 & Hl2).
  destruct (Nat.ltb 0 (length items)) eqn:Hlt.
  - destruct (sendMCPRequest E "tools/call" _ s2) as [[t|m] s3] eqn:Hsend;
      [| intros H; inversion H; subst; discriminate].
    apply sendMCPRequest_cases in Hsend as (_ & _ & _ & _ & _ & Hs3).
    intros H _. injection H as <- <-.
    exists actions, items, (results ++ [t]). unfold calls_of. rewrite Hlt.
    repeat split; [exact Hfor | |].
    + rewrite Hs3, Hs2, Hin, Hthis, requests_from_app, length_map, Hm2, Hthis,
        <- app_assoc. reflexivity.
    + rewrite !length_app, Hl2, length_map. simpl. lia.
  - intros H _. injection H as <- <-.
    exists actions, items, results. unfold calls_of. rewrite Hlt.
    repeat split; [exact Hfor | |].
    + rewrite Hs2, Hin, Hthis, app_nil_r. reflexivity.
    + rewrite app_nil_r, Hl2, length_map. reflexivity.
Qed.

(** ** Shutting down *)

(** With a child process, [cleanup] returns, whatever becomes of the
    close request, with the process field cleared and both flags down; the
    close request is written only when a browser was launched over a
    connected child; a second [cleanup] does nothing. *)
Theorem cleanup_shuts_down_whatever_the_close_does (s : St) :
  mcpProcess (this s) = true →
  (∀ o, ∃ o', kill E o = (Ret tt, o')) →
  ∃ s', cleanup E s = (Ret tt, s')
        ∧ mcpProcess (this s') = false
        ∧ isConnected (this s') = false
        ∧ browserLaunched (this s') = false
        ∧ stdin s'
          = (if browserLaunched (this s) && isConnected (this s)
             then stdin s ++ [request_of (S (messageId (this s))) close_call]
             else stdin s)
        ∧ cleanup E s' = (Ret tt, s').
Proof.
  intros Hm Hkill. unfold cleanup at 1, bind at 1, get_this at 1. rewrite Hm.
  destruct (browserLaunched (this s)) eqn:Hb; cbn [andb].
  - unfold bind at 1, try_catch, bind at 1, sendMCPRequest. rewrite Hm.
    destruct (isConnected (this s)) eqn:Hc; cbn [negb].
    + destruct (answer E _ (outside s)) as [[v|m] o]; unfold ret at 1;
        unfold bind at 1, get_this; cbn [this mcpProcess];
        unfold bind at 1, lift; cbn [outside];
        destruct (Hkill o) as [o' ->]; eexists; (split; [reflexivity|]);
        simpl; repeat split; reflexivity.
    + unfold ret at 1. unfold bind at 1, get_this. rewrite Hm.
      unfold bind at 1, lift. destruct (Hkill (outside s)) as [o' ->].
      eexists. split; [reflexivity|]. simpl. repeat split; reflexivity.
  - unfold bind at 1, ret at 1, bind at 1, get_this. rewrite Hm.
    unfold bind at 1, lift. destruct (Hkill (outside s)) as [o' ->].
    eexists. split; [reflexivity|]. simpl. repeat split; reflexivity.
Qed.

End WithOutside.

(** ** The orchestrator in front of the driver *)

Section BehindTheBridge.

Context {World BrowserH PageH : Type}.
Variable D : Driver.Env World BrowserH PageH.

Lemma forEach_emit_extends {S} (items : list value) (testCode text : string) (s s' : S) :
  Driver.forEach_emit testCode items s = (Ret text, s') →
  ∃ added, text = testCode +:+ added.
Proof.
  revert testCode. induction items as [|a items IH]; intros testCode; simpl.
  - intros H. inversion H; subst. exists "". now rewrite append_empty_r.
  - unfold bind at 1. rewrite emit_action_piece.
    destruct (piece a) as [added|] eqn:Hp.
    + intros H. apply IH in H as [more ->]. exists (added +:+ more).
      now rewrite append_assoc.
    + destruct (piece_none_throws a Hp) as [m ->]. discriminate.
Qed.

(** The script that [processPrompt] asks for is titled with the prompt
    itself, as it was typed, whenever the prompt is not empty; the
    extracted test name is the title for the empty prompt only. *)
Theorem generated_title_is_the_prompt_itself (prompt : string) (actions : value)
    (d : Driver.St) (res : Driver.result) (d' : Driver.St) :
  Driver.generateTest D (VStr (extractTestName prompt)) (VStr prompt) actions d
  = (Ret res, d') →
  ∃ body,
    res = Driver.text_result
            (Driver.test_header (VStr (Relay.title_for prompt)) +:+ body).
Proof.
  unfold Driver.generateTest, bind at 1, Driver.get_actions.
  unfold bind at 1, Driver.generatePlaywrightTest.
  assert (Htitle : or_else (default_arg (VStr prompt) (VStr "")) (VStr (extractTestName prompt))
                   = VStr (Relay.title_for prompt)).
  { unfold Relay.title_for. destruct prompt; reflexivity. }
  rewrite Htitle. unfold bind at 1.
  set (header := Driver.test_header (VStr (Relay.title_for prompt))).
  set (acts := or_else _ _).
  destruct (truthy acts).
  - unfold bind at 1.
    destruct (get_prop acts "length" d) as [[len|m] d1]; [| discriminate].
    destruct (Driver.gt D len (VNum 0)).
    + destruct acts as [| | | | | items |]; try discriminate.
      destruct (Driver.forEach_emit header items d1) as [[text|m] d2] eqn:Hemit;
        [| discriminate].
      apply forEach_emit_extends in Hemit as [added ->].
      intros H. inversion H; subst. exists (added +:+ "});" +:+ nl).
      now rewrite append_assoc.
    + intros H. inversion H; subst. eauto.
  - intros H. inversion H; subst. eauto.
Qed.

Local Abbreviation DSt := (@Driver.St World BrowserH PageH).

Lemma callTool_total (name : string) (args : value) (d : DSt) :
  ∃ res d', Driver.callTool D name args d = (Ret res, d').
Proof.
  unfold Driver.callTool, try_catch.
  destruct (Driver.dispatch D name args d) as [[res|m] d']; eauto.
Qed.

Lemma run_calls_app (l1 l2 : list (string * value)) (d : DSt) :
  run_calls D (l1 ++ l2) d
  = ((run_calls D l1 d).1 ++ (run_calls D l2 (run_calls D l1 d).2).1,
     (run_calls D l2 (run_calls D l1 d).2).2).
Proof.
  revert d. induction l1 as [|[n a] l1 IH]; intros d; simpl.
  - now destruct (run_calls D l2 d).
  - destruct (Driver.callTool D n a d) as [r d1]. rewrite IH.
    destruct (run_calls D l1 d1) as [rs d2]. simpl.
    destruct (run_calls D l2 d2) as [rs' d3]. reflexivity.
Qed.

Lemma relay_request (plan : outcome value) (n : string) (args : value)
    (st : @Orchestrator.St DSt) :
  live st →
  ∃ res d',
    Driver.callTool D n args (outside st) = (Ret res, d')
    ∧ sendMCPRequest (Relay.env D plan) "tools/call" (tool_call (VStr n) args) st
      = (Ret (Relay.result_value res),
         {| this := {| mcpProcess := mcpProcess (this st);
                       isConnected := isConnected (this st);
                       messageId := S (messageId (this st));
                       browserLaunched := browserLaunched (this st) |};
            stdin := stdin st ++ [request_of (S (messageId (this st)))
                                    (tool_call (VStr n) args)];
            outside := d' |}).
Proof.
  intros [Hc Hm]. destruct (callTool_total n args (outside st)) as (res & d' & Hcall).
  exists res, d'. split; [exact Hcall|].
  unfold sendMCPRequest. rewrite Hc, Hm. cbn [negb].
  unfold Relay.env, answer, Relay.relay, tool_call, default_arg, request_of.
  cbn [Bridge.method Bridge.params field lookup_field].
  change (String.eqb "tools/call" "tools/call") with true.
  change (String.eqb "name" "name") with true.
  change (String.eqb "arguments" "name") with false.
  change (String.eqb "arguments" "arguments") with true.
  cbv beta iota. rewrite Hcall. reflexivity.
Qed.

Lemma relay_executeAction (plan : outcome value) (action : value) (st : @Orchestrator.St DSt) :
  named action → live st →
  ∃ res st',
    Driver.callTool D (to_string (field "name" action)) (field "arguments" action)
      (outside st) = (Ret res, outside st')
    ∧ executeAction (Relay.env D plan) action st = (Ret (Relay.result_value res), st')
    ∧ live st'.
Proof.
  intros (fields & n & -> & Hn) Hlive.
  rewrite executeAction_spec by discriminate.
  unfold call_of. simpl field. rewrite Hn. simpl to_string.
  destruct (relay_request plan n (lookup_field "arguments" fields) st Hlive)
    as (res & d' & Hcall & ->).
  exists res. eexists. split; [| split; [reflexivity|]].
  - exact Hcall.
  - destruct Hlive as [Hc Hm]. split; simpl; assumption.
Qed.

Lemma relay_run_actions (plan : outcome value) (items acc : list value)
    (st : @Orchestrator.St DSt) :
  Forall named items → live st →
  ∃ rs st',
    run_calls D
      (map (fun action => (to_string (field "name" action), field "arguments" action))
         items) (outside st)
    = (map Ret rs, outside st')
    ∧ run_actions (Relay.env D plan) items acc st
      = (Ret (acc ++ map Relay.result_value rs), st')
    ∧ live st'.
Proof.
  revert acc st. induction items as [|a items IH]; intros acc st Hall Hlive.
  - exists [], st. simpl. rewrite app_nil_r. auto.
  - inversion Hall as [|? ? Ha Hitems]; subst.
    destruct (relay_executeAction plan a st Ha Hlive) as (res & st1 & Hcall & Hexec & Hl1).
    destruct (IH (acc ++ [Relay.result_value res]) st1 Hitems Hl1)
      as (rs & st2 & Hcalls & Hrun & Hl2).
    exists (res :: rs), st2. simpl. rewrite Hcall, Hcalls.
    split; [reflexivity|]. split; [| exact Hl2].
    unfold bind at 1. rewrite Hexec. unfold bind at 1, lift. simpl.
    destruct st1 as [t1 i1 o1]. simpl in *. rewrite Hrun, <- app_assoc. reflexivity.
Qed.

(** Over a transport that relays every call to the router, a prompt
    whose plan is a list of named actions is always reported as done,
    whatever the browser does and whatever state the driver is in: the
    results of the report are the answers of the router to the planned
    calls, in order, error envelopes included. *)
Theorem tool_errors_do_not_fail_a_prompt (items : list value) (prompt : string)
    (launched : bool) (d : DSt) :
  Forall named items →
  ∃ rs st',
    run_calls D (Relay.planned prompt items) d = (map Ret rs, outside st')
    ∧ processPrompt (Relay.env D (Ret (VArr items))) prompt (Relay.connected launched d)
      = (Ret (success_report prompt (VArr items) (map Relay.result_value rs)), st').
Proof.
  intros Hall. rewrite processPrompt_spec.
  change (analyzePrompt (Relay.env D (Ret (VArr items))) prompt (Relay.connected launched d))
    with (@Ret value (VArr items), Relay.connected launched d).
  unfold for_of, ret. cbn [fst].
  destruct (relay_run_actions (Ret (VArr items)) items [] (Relay.connected launched d) Hall)
    as (rs & st1 & Hcalls & Hrun & Hl1); [split; reflexivity|].
  rewrite Hrun. unfold Relay.planned. rewrite run_calls_app. simpl outside in Hcalls.
  rewrite Hcalls. cbn [fst snd].
  destruct (Nat.ltb 0 (length items)).
  - destruct (relay_request (Ret (VArr items)) "generate_test"
                (VObj [("testName", VStr (extractTestName prompt));
                       ("description", VStr prompt); ("actions", VArr items)]) st1 Hl1)
      as (res & d' & Hcall & Hsend).
    unfold generate_test_call. rewrite Hsend.
    exists (rs ++ [res]). eexists. simpl run_calls. rewrite Hcall. simpl.
    rewrite !map_app. split; [| reflexivity]. reflexivity.
  - exists rs, st1. simpl. rewrite !app_nil_r. split; reflexivity.
Qed.

End BehindTheBridge.

End OrchestratorProperties.

(** * The claims on concrete runs *)

Lemma failure_leaves_log_unchanged_witness :
  dispatch Scripted.env "click_element" Scenario.go Scenario.on_bare_github
  = (Throw Scenario.click_failure, Scenario.on_bare_github)
  ∧ actions (srv Scenario.on_bare_github) = Scenario.visited.
Proof.
  split; [vm_compute; reflexivity|].
  apply (failure_leaves_log_unchanged Scripted.env "click_element" Scenario.go
           Scenario.on_bare_github Scenario.click_failure Scenario.on_bare_github).
  vm_compute. reflexivity.
Defined.

Lemma log_is_append_only_witness :
  actions (srv Scenario.after_visit)
  = [navigate_record (VStr "https://example.test/form")]
  ∧ actions (srv Scenario.after_visit)
    `prefix_of` actions (srv (callTool Scripted.env "fill_input" Scenario.fill_quux
                                Scenario.after_visit).2)
  ∧ callTool Scripted.env "close_browser" VUndef Scenario.after_visit
    = (Ret (text_result "Browser closed successfully"), Scripted.idle Scenario.form)
  ∧ callTool Scripted.env "launch_browser" (VObj []) Scenario.before_launch
    = (Ret (text_result "Browser launched in headed mode"),
       Scripted.launched [] Scenario.form).
Proof.
  split; [reflexivity | split; [| split]].
  - apply (log_is_append_only_between_launch_and_close Scripted.env "fill_input"
             Scenario.fill_quux Scenario.after_visit
             (callTool Scripted.env "fill_input" Scenario.fill_quux
                Scenario.after_visit).1
             (callTool Scripted.env "fill_input" Scenario.fill_quux
                Scenario.after_visit).2).
    + vm_compute. reflexivity.
    + discriminate.
    + discriminate.
  - destruct (log_is_append_only_between_launch_and_close Scripted.env "close_browser"
                VUndef Scenario.after_visit
                (callTool Scripted.env "close_browser" VUndef Scenario.after_visit).1
                (callTool Scripted.env "close_browser" VUndef Scenario.after_visit).2)
      as (_ & _ & _ & _ & Hclose & _).
    { vm_compute. reflexivity. }
    destruct (Hclose eq_refl tt Scenario.form eq_refl eq_refl) as [Hr Hs].
    rewrite (surjective_pairing (callTool Scripted.env "close_browser" VUndef
                                   Scenario.after_visit)).
    rewrite Hr, Hs. reflexivity.
  - destruct (log_is_append_only_between_launch_and_close Scripted.env "launch_browser"
                (VObj []) Scenario.before_launch
                (callTool Scripted.env "launch_browser" (VObj [])
                   Scenario.before_launch).1
                (callTool Scripted.env "launch_browser" (VObj [])
                   Scenario.before_launch).2)
      as (_ & _ & Hlaunch & _).
    { vm_compute. reflexivity. }
    destruct (Hlaunch eq_refl eq_refl tt Scenario.form tt Scenario.form eq_refl eq_refl)
      as [Hr Hs].
    rewrite (surjective_pairing (callTool Scripted.env "launch_browser" (VObj [])
                                   Scenario.before_launch)).
    rewrite Hr, Hs. reflexivity.
Defined.

Lemma page_tools_need_a_session_witness :
  callTool Scripted.env "navigate_to" (VObj [("url", VStr "https://x.test")])
    Scenario.before_launch
  = (Ret (text_result ("Error executing " +:+ "navigate_to" +:+ ": "
                       +:+ "Browser not launched. Call launch_browser first.")),
     Scenario.before_launch).
Proof.
  apply (page_tools_need_a_session Scripted.env "navigate_to"
           (VObj [("url", VStr "https://x.test")]) Scenario.before_launch).
  - reflexivity.
  - apply (bool_decide_unpack _). vm_compute. exact I.
  - left. split; discriminate.
Defined.

(** C3 as stated does not hold: with no session, [close_browser] does not
    yield the missing-session error; it reports that there is nothing to
    close. *)
Lemma not_every_tool_needs_a_session :
  ¬ (∀ name args, name ∈ tool_names →
       ∃ s', callTool Scripted.env name args Scenario.before_launch
             = (Ret (error_result name not_launched), s')).
Proof.
  intros H.
  destruct (H "close_browser" VUndef) as [s' Hs].
  - apply (bool_decide_unpack _). vm_compute. exact I.
  - vm_compute in Hs. discriminate Hs.
Qed.

Lemma callTool_returns_error_envelope_witness :
  callTool Scripted.env "open_tab" VUndef Scenario.before_launch
  = (Ret {| content := [ {| type := "text";
                            text := "Error executing " +:+ "open_tab" +:+ ": "
                                    +:+ "Unknown tool: " +:+ "open_tab" |} ] |},
     Scenario.before_launch).
Proof.
  apply (callTool_returns_error_envelope Scripted.env "open_tab" VUndef
           Scenario.before_launch).
  intros Hin. apply (bool_decide_pack _) in Hin. vm_compute in Hin. exact Hin.
Defined.

(** C2 as stated does not hold: the item of the error envelope has type
    text, not text703. *)
Lemma error_envelope_type_is_not_text703 :
  ¬ (∀ name args m s',
       dispatch Scripted.env name args Scenario.before_launch = (Throw m, s') →
       callTool Scripted.env name args Scenario.before_launch
       = (Ret {| content := [ {| type := "text703";
                                 text := "Error executing " +:+ name +:+ ": " +:+ m |} ] |},
          s')).
Proof.
  intros H.
  specialize (H "open_tab" VUndef "Unknown tool: open_tab" Scenario.before_launch eq_refl).
  vm_compute in H. discriminate H.
Qed.

Lemma first_working_candidate_witness :
  clickElement Scripted.env (VStr "#go") VUndef Scenario.on_github
  = (Ret (click_success (VStr "#query-builder-test")),
     pushed Scenario.on_github (click_record (VStr "#query-builder-test"))
       Scenario.github)
  ∧ field "selector" (click_record (VStr "#query-builder-test"))
    = VStr "#query-builder-test"
  ∧ fill_selectorsToTry "https://google.com/search?q=github.com" (VStr "#q")
    = fill_github ++ [VStr "#q"].
Proof.
  split; [| split].
  - apply (proj1 (proj2 (first_working_candidate_is_recorded Scripted.env))
             (VStr "#go") VUndef Scenario.on_github tt
             (take 2 click_github) (VStr "#query-builder-test")
             (drop 3 click_github ++ [VStr "#go"])
             Scenario.github Scenario.second_error Scenario.github);
      vm_compute; reflexivity.
  - reflexivity.
  - apply (proj1 (proj1 (first_working_candidate_is_recorded Scripted.env)
                    "https://google.com/search?q=github.com" (VStr "#q"))).
    exists "https://google.com/search?q=", "". reflexivity.
Defined.

(** C1 as stated does not hold: the candidates are not those of the origin
    of the page. On a Google page whose query mentions github.com the fill
    tries GitHub's selectors before the caller's, and none of Google's. *)
Lemma candidates_are_not_chosen_by_origin :
  ¬ (∀ url selector,
       fill_selectorsToTry url selector = fill_candidates_by_origin url selector).
Proof.
  intros H.
  specialize (H "https://google.com/search?q=github.com" (VStr "#q")).
  vm_compute in H. discriminate H.
Qed.


Lemma fill_records_the_value_read_back_witness :
  ∃ cur v,
    actions (srv (fillInput Scripted.env (VStr "#name") (VStr "quux")
                    Scenario.on_form).2)
    = [fill_record cur (VStr "quux") v]
    ∧ field "actualValue" (fill_record cur (VStr "quux") v) = VStr "quux".
Proof.
  destruct (fill_records_the_value_read_back Scripted.env (VStr "#name") (VStr "quux")
              Scenario.on_form
              (fill_success (VStr "#name") (VStr "quux") "quux")
              (fillInput Scripted.env (VStr "#name") (VStr "quux") Scenario.on_form).2)
    as (p & cur & wb & wc & wd & v & _ & _ & _ & _ & _ & Hlog & _ & _).
  { vm_compute. reflexivity. }
  exists cur, v. split; [exact Hlog|].
  vm_compute in Hlog. inversion Hlog; subst. reflexivity.
Defined.




Lemma settled_promise_is_final_witness :
  Bridge.promises
    (Bridge.run [Bridge.Data (Some (Bridge.response_ok 1 (VStr "late")));
                 Bridge.Call "tools/call" VNull; Bridge.Elapse 30000]
       (Bridge.run [Bridge.Call "tools/call" VNull; Bridge.Elapse 30000]
          (Bridge.connected Bridge.new_bridge))) !! 1
  = Some (Bridge.Rejected "MCP request timeout").
Proof.
  apply (settled_promise_is_final 1 (Bridge.Rejected "MCP request timeout")
           (Bridge.run [Bridge.Call "tools/call" VNull; Bridge.Elapse 30000]
              (Bridge.connected Bridge.new_bridge))).
  - vm_compute. lia.
  - vm_compute. reflexivity.
  - discriminate.
Defined.

(** * Further properties on concrete runs *)


Lemma read_only_tools_leave_the_server_alone_witness :
  srv (callTool Scripted.env "inspect_page" VUndef Scenario.on_github).2
  = srv Scenario.on_github.
Proof.
  apply (read_only_tools_leave_the_server_alone Scripted.env "inspect_page" VUndef
           Scenario.on_github
           (callTool Scripted.env "inspect_page" VUndef Scenario.on_github).1).
  - apply (bool_decide_unpack _). vm_compute. exact I.
  - vm_compute. reflexivity.
Defined.

Lemma after_a_close_the_server_is_as_new_witness :
  srv (Scripted.idle Scenario.github) = new_server
  ∧ (∀ args', callTool Scripted.env "close_browser" args' (Scripted.idle Scenario.github)
              = (Ret (text_result "No browser to close"), Scripted.idle Scenario.github))
  ∧ (∀ name args', name ∈ page_tools →
       ∃ m, callTool Scripted.env name args' (Scripted.idle Scenario.github)
            = (Ret (error_result name m), Scripted.idle Scenario.github)).
Proof.
  apply (after_a_close_the_server_is_as_new Scripted.env VUndef Scenario.on_github).
  vm_compute. reflexivity.
Defined.

Lemma screenshot_without_a_name_witness :
  callTool Scripted.env "take_screenshot" VUndef Scenario.on_form
  = (Ret (text_result "Screenshot saved as screenshot.png"),
     pushed Scenario.on_form (screenshot_record (VStr "screenshot.png")) Scenario.form).
Proof.
  apply (proj1 (screenshot_without_a_name Scripted.env VUndef Scenario.on_form tt
                  Scenario.form eq_refl (or_introl eq_refl))).
  reflexivity.
Defined.

Lemma navigate_capture_generate_witness :
  (run_calls Scripted.env
     [ ("navigate_to", VObj [("url", VStr "https://example.test/")]);
       ("take_screenshot", VObj [("filename", VStr "home.png")]);
       ("generate_test", VObj [("testName", VStr "home")]) ] Scenario.on_form).1
  = [ Ret (text_result ("Navigated to " +:+ "https://example.test/"));
      Ret (text_result ("Screenshot saved as " +:+ "home.png"));
      Ret (text_result
             (test_header (VStr "home") +:+ script_lines []
              +:+ ("  " +:+ ("await page.goto('" +:+ "https://example.test/" +:+ "');") +:+ nl)
              +:+ ("  " +:+ ("await page.screenshot({ path: '" +:+ "home.png" +:+ "' });")
                   +:+ nl)
              +:+ "});" +:+ nl)) ].
Proof.
  rewrite (navigate_capture_generate Scripted.env Scenario.on_form tt
             "https://example.test/" "home.png" "home"
             (Scripted.page_at "https://example.test/" ["#name"])
             (Scripted.page_at "https://example.test/" ["#name"])).
  - reflexivity.
  - constructor.
  - reflexivity.
  - reflexivity.
  - reflexivity.
Defined.

Lemma search_succeeds_with_the_first_working_strategy_witness :
  githubSearch Scripted.env Scenario.playwright Scenario.on_github
  = (Ret (search_success Scenario.playwright "#query-builder-test"),
     pushed Scenario.on_github
       (search_record Scenario.playwright "#query-builder-test") Scenario.github).
Proof.
  apply (proj2 (search_succeeds_with_the_first_working_strategy Scripted.env
                  Scenario.playwright Scenario.on_github tt
                  (search_success Scenario.playwright "#query-builder-test")
                  (pushed Scenario.on_github
                     (search_record Scenario.playwright "#query-builder-test")
                     Scenario.github)
                  eq_refl)).
  exists [], (search_input_loop Scripted.env tt Scenario.playwright searchSelectors),
    (drop 1 (searchStrategies Scripted.env tt Scenario.playwright)),
    Scenario.github, None, "#query-builder-test", Scenario.github.
  split; [reflexivity|]. split; [reflexivity|]. split; [vm_compute; reflexivity|].
  split; [apply (bool_decide_unpack _); vm_compute; exact I|].
  split; [vm_compute; reflexivity|]. split; reflexivity.
Defined.

Lemma search_fails_with_a_report_witness :
  githubSearch Scripted.offline Scenario.playwright Scenario.on_bare_github
  = (Throw (search_report
              ("All GitHub search strategies failed. Last error: "
               +:+ "net::ERR_INTERNET_DISCONNECTED")
              "https://github.com/" "Scripted page"),
     Scenario.on_bare_github).
Proof.
  apply (proj2 (search_fails_with_a_report Scripted.offline Scenario.playwright
                  Scenario.on_bare_github tt _ Scenario.on_bare_github eq_refl)).
  split; [reflexivity|]. left.
  exists Scenario.bare_github, "net::ERR_INTERNET_DISCONNECTED".
  split; [vm_compute; reflexivity|].
  right. exists "Scripted page". split; reflexivity.
Defined.

Lemma unclaimed_frame_is_discarded_witness :
  Bridge.emit_data (Some (Bridge.response_ok 7 VNull)) Scenario.two_calls
  = Scenario.two_calls.
Proof.
  apply (unclaimed_frame_is_discarded (Some (Bridge.response_ok 7 VNull))
           Scenario.two_calls).
  intros j fields Hj Hd. inversion Hd; subst fields.
  change (Bridge.listeners Scenario.two_calls) with [1; 2] in Hj.
  apply elem_of_cons in Hj as [-> | Hj]; [discriminate|].
  apply elem_of_cons in Hj as [-> | Hj]; [discriminate|].
  inversion Hj.
Defined.

Lemma response_unregisters_its_own_call_witness :
  Bridge.listeners (Bridge.emit_data (Some (Bridge.response_ok 1 VNull)) Scenario.two_calls)
  = [2]
  ∧ map fst (Bridge.timers (Bridge.emit_data (Some (Bridge.response_ok 1 VNull))
                              Scenario.two_calls))
    = [2].
Proof.
  destruct (response_unregisters_its_own_call 1
              [("jsonrpc", VStr "2.0"); ("id", VNum 1); ("result", VNull)]
              Scenario.two_calls eq_refl) as (Hl & Ht & _).
  { apply (bool_decide_unpack _). vm_compute. exact I. }
  split.
  - etransitivity; [exact Hl|]. vm_compute. reflexivity.
  - etransitivity; [exact (f_equal (map fst) Ht)|]. vm_compute. reflexivity.
Defined.

Lemma error_frames_reject_and_result_frames_resolve_witness :
  Bridge.promises
    (Bridge.emit_data (Some (VObj (Scenario.failed_response 2 "Tool crashed")))
       Scenario.two_calls) !! 2
  = Some (Bridge.Rejected "Tool crashed").
Proof.
  destruct (error_frames_reject_and_result_frames_resolve 2
              (Scenario.failed_response 2 "Tool crashed") Scenario.two_calls eq_refl)
    as (Hreject & _).
  - apply (bool_decide_unpack _). vm_compute. exact I.
  - reflexivity.
  - apply (Hreject [("code", VNum (-32603)); ("message", VStr "Tool crashed")]
             "Tool crashed"); reflexivity.
Defined.

Lemma browser_flag_follows_the_answered_requests_witness :
  Orchestrator.browserLaunched
    (Orchestrator.this
       (Orchestrator.executeAction (Relay.env Scripted.env (Ret VNull))
          (VObj Scenario.launch_action)
          (Relay.connected false Scenario.before_launch)).2)
  = true.
Proof.
  apply (browser_flag_follows_the_answered_requests
           (Relay.env Scripted.env (Ret VNull)) (VObj Scenario.launch_action)
           (Relay.connected false Scenario.before_launch)
           (Ret (Relay.result_value (text_result "Browser launched in headed mode")))
           (Orchestrator.executeAction (Relay.env Scripted.env (Ret VNull))
              (VObj Scenario.launch_action)
              (Relay.connected false Scenario.before_launch)).2).
  vm_compute. reflexivity.
Defined.

Lemma analysis_failures_send_nothing_witness :
  Orchestrator.processPrompt (Relay.env Scripted.env (Throw "Unexpected token I"))
    "open the form" (Relay.connected false Scenario.before_launch)
  = (Ret (Orchestrator.failure_report "open the form"
            "Failed to parse AI response: Unexpected token I"),
     Relay.connected false Scenario.before_launch).
Proof.
  apply (analysis_failures_send_nothing
           (Relay.env Scripted.env (Throw "Unexpected token I")) "open the form"
           (Relay.connected false Scenario.before_launch)
           "Failed to parse AI response: Unexpected token I"
           (Relay.connected false Scenario.before_launch)).
  reflexivity.
Defined.

Lemma a_failing_action_ends_the_prompt_witness :
  Orchestrator.processPrompt (Relay.env Scripted.env (Ret (VArr Scenario.one_click)))
    "click go" Scenario.waiting
  = (Ret (Orchestrator.failure_report "click go"
            "Failed to execute action click_element: MCP server not connected"),
     Scenario.waiting).
Proof.
  apply (a_failing_action_ends_the_prompt
           (Relay.env Scripted.env (Ret (VArr Scenario.one_click))) "click go"
           Scenario.waiting [] Scenario.click_action [] Scenario.waiting []
           Scenario.waiting); reflexivity.
Defined.

Lemma a_completed_prompt_has_sent_every_action_once_witness :
  ∃ results,
    map Bridge.id
      (Orchestrator.stdin
         (Orchestrator.processPrompt
            (Relay.env Scripted.env (Ret (VArr Scenario.one_click))) "click go"
            (Relay.connected true Scenario.on_bare_github)).2)
    = [1; 2]
    ∧ length results = 2
    ∧ (Orchestrator.processPrompt
         (Relay.env Scripted.env (Ret (VArr Scenario.one_click))) "click go"
         (Relay.connected true Scenario.on_bare_github)).1
      = Ret (Orchestrator.success_report "click go" (VArr Scenario.one_click) results).
Proof.
  destruct (a_completed_prompt_has_sent_every_action_once
              (Relay.env Scripted.env (Ret (VArr Scenario.one_click))) "click go"
              (Relay.connected true Scenario.on_bare_github)
              (Orchestrator.success_report "click go" (VArr Scenario.one_click)
                 (match (Orchestrator.processPrompt
                           (Relay.env Scripted.env (Ret (VArr Scenario.one_click)))
                           "click go"
                           (Relay.connected true Scenario.on_bare_github)).1 with
                  | Ret report =>
                      match field "results" report with
                      | VArr results => results
                      | _ => []
                      end
                  | Throw _ => []
                  end))
              (Orchestrator.processPrompt
                 (Relay.env Scripted.env (Ret (VArr Scenario.one_click))) "click go"
                 (Relay.connected true Scenario.on_bare_github)).2)
    as (actions & items & results & Hfor & Hreport & Hin & Hlen).
  { vm_compute. reflexivity. }
  { reflexivity. }
  inversion Hreport; subst actions. inversion Hfor; subst items.
  exists results. split; [| split].
  - rewrite Hin. vm_compute. reflexivity.
  - exact Hlen.
  - vm_compute. vm_compute in H1. rewrite <- H1. reflexivity.
Defined.

Lemma cleanup_shuts_down_whatever_the_close_does_witness :
  ∃ s',
    Orchestrator.cleanup (Relay.env Scripted.env (Ret VNull))
      (Relay.connected true Scenario.on_github) = (Ret tt, s')
    ∧ Orchestrator.this s'
      = {| Orchestrator.mcpProcess := false; Orchestrator.isConnected := false;
           Orchestrator.messageId := 1; Orchestrator.browserLaunched := false |}
    ∧ map Bridge.id (Orchestrator.stdin s') = [1]
    ∧ srv (Orchestrator.outside s') = new_server.
Proof.
  destruct (cleanup_shuts_down_whatever_the_close_does
              (Relay.env Scripted.env (Ret VNull))
              (Relay.connected true Scenario.on_github) eq_refl)
    as (s' & Hrun & _).
  { intros o. exists o. reflexivity. }
  exists s'. split; [exact Hrun|].
  vm_compute in Hrun. inversion Hrun; subst s'. repeat split; reflexivity.
Defined.

Lemma generated_title_is_the_prompt_itself_witness :
  ∃ body,
    (generateTest Scripted.env (VStr (Orchestrator.extractTestName "Open the form!"))
       (VStr "Open the form!") (VArr []) Scenario.on_form).1
    = Ret (text_result (test_header (VStr "Open the form!") +:+ body))
    ∧ Orchestrator.extractTestName "Open the form!" = "open_the_form".
Proof.
  destruct (generated_title_is_the_prompt_itself Scripted.env "Open the form!" (VArr [])
              Scenario.on_form
              (text_result (test_header (VStr "Open the form!") +:+ "});" +:+ nl))
              Scenario.on_form)
    as [body Hbody].
  { vm_compute. reflexivity. }
  exists body. split; [| vm_compute; reflexivity].
  change (Relay.title_for "Open the form!") with "Open the form!" in Hbody.
  rewrite <- Hbody. vm_compute. reflexivity.
Defined.

Lemma tool_errors_do_not_fail_a_prompt_witness :
  ∃ rs st',
    run_calls Scripted.env (Relay.planned "click go" Scenario.one_click)
      Scenario.on_bare_github
    = (map Ret rs, Orchestrator.outside st')
    ∧ Orchestrator.processPrompt
        (Relay.env Scripted.env (Ret (VArr Scenario.one_click))) "click go"
        (Relay.connected true Scenario.on_bare_github)
      = (Ret (Orchestrator.success_report "click go" (VArr Scenario.one_click)
                (map Relay.result_value rs)), st')
    ∧ rs !! 0 = Some (error_result "click_element" Scenario.click_failure).
Proof.
  destruct (tool_errors_do_not_fail_a_prompt Scripted.env Scenario.one_click "click go"
              true Scenario.on_bare_github)
    as (rs & st' & Hcalls & Hrun).
  { repeat constructor. exists [("name", VStr "click_element"); ("arguments", Scenario.go)].
    exists "click_element". split; reflexivity. }
  exists rs, st'. split; [exact Hcalls | split; [exact Hrun|]].
  vm_compute in Hcalls. inversion Hcalls as [[Hrs Hst]].
  destruct rs as [|r0 [|r1 [|r2 rs]]]; try discriminate Hrs.
  inversion Hrs. reflexivity.
Defined.


Lemma a_launch_without_a_page_leaves_the_driver_stuck_witness :
  callTool Scripted.no_pages "launch_browser" (VObj []) Scenario.before_launch
  = (Ret (error_result "launch_browser"
            "Target page, context or browser has been closed"),
     half_launched Scenario.before_launch tt Scenario.form)
  ∧ callTool Scripted.no_pages "launch_browser" (VObj [("headless", VBool true)])
      (half_launched Scenario.before_launch tt Scenario.form)
    = (Ret (text_result "Browser already running in headless mode"),
       half_launched Scenario.before_launch tt Scenario.form).
Proof.
  destruct (a_launch_without_a_page_leaves_the_driver_stuck Scripted.no_pages (VObj [])
              Scenario.before_launch tt Scenario.form Scenario.form
              "Target page, context or browser has been closed"
              eq_refl eq_refl eq_refl eq_refl)
    as (Hfirst & Hagain & _).
  split; [exact Hfirst|].
  exact (Hagain (VObj [("headless", VBool true)])).
Defined.

Lemma readiness_is_read_chunk_by_chunk_witness :
  includes ("Playwright MCP ser" +:+ "ver running on stdio") Startup.banner = true
  ∧ Startup.run [Startup.Stderr "Playwright MCP ser";
                 Startup.Stderr "ver running on stdio"] Startup.spawned
    = Startup.spawned.
Proof.
  split; [vm_compute; reflexivity|].
  apply (proj2 (proj2 readiness_is_read_chunk_by_chunk)); vm_compute; reflexivity.
Defined.
